(** * CEM-RL training script [es_grad_v2.2.py]: evaluation and training loop

    A shallow embedding of the script's own code: the rollout function
    [evaluate] and the body of the [__main__] training loop.  The
    collaborators the script imports (gym environments, [memory.Memory],
    [ES.sepCEM], [models.RLNN], torch optimisers) are interfaces here; the
    script's control flow, counters and list manipulations are written out.

    Numbers: Python [int] is [Z]; Python and numpy floats are read as exact
    rationals [Q], with [nan] made explicit where numpy produces it. *)

From Stdlib Require Import ZArith QArith Qround List Bool Lia.
Import ListNotations.

Set Implicit Arguments.
Local Open Scope Z_scope.

(** ** Outcomes of running Python code *)

Inductive exception : Set :=
| ValueError
| IndexError
| AssertionError.

(** [Hang] is the model's answer when a [while] loop did not end within the
    iteration budget given to the model. *)
Inductive result (A : Type) : Type :=
| Ok (a : A)
| Raise (e : exception)
| Hang.

Arguments Ok {A} a.
Arguments Raise {A} e.
Arguments Hang {A}.

Definition bind {A B : Type} (r : result A) (k : A -> result B) : result B :=
  match r with
  | Ok a => k a
  | Raise e => Raise e
  | Hang => Hang
  end.

Declare Scope py_scope.
Delimit Scope py_scope with py.
Notation "x <- e ;; k" := (bind e (fun x => k))
  (at level 61, e at next level, right associativity) : py_scope.
Notation "' p <- e ;; k" := (bind e (fun x => let 'p := x in k))
  (at level 61, p pattern, e at next level, right associativity) : py_scope.
Local Open Scope py_scope.

(** ** numpy helpers *)

(** A numpy float: a finite value or [nan]. *)
Inductive npfloat : Set :=
| Fin (q : Q)
| NaN.

Definition Qsum (l : list Q) : Q := fold_left Qplus l 0%Q.

(** [np.mean] of a list of Python floats; the mean of an empty list is
    [nan] (numpy warns and returns it). *)
Definition np_mean (l : list Q) : npfloat :=
  match l with
  | [] => NaN
  | _ :: _ => Fin (Qsum l / inject_Z (Z.of_nat (length l)))
  end.

Definition maximum (x y : Q) : Q := if Qle_bool x y then y else x.
Definition minimum (x y : Q) : Q := if Qle_bool x y then x else y.

(** [np.clip(a, a_min, a_max)] is [np.minimum(a_max, np.maximum(a, a_min))],
    componentwise. *)
Definition np_clip (a : list Q) (a_min a_max : Q) : list Q :=
  map (fun x => minimum a_max (maximum x a_min)) a.

(** In-place [a += b] on one-dimensional arrays: same shape, or [b] of
    length one broadcast over [a]; any other shape raises. *)
Definition np_iadd (a b : list Q) : result (list Q) :=
  if (length a =? length b)%nat then Ok (map (fun p => fst p + snd p)%Q (combine a b))
  else match b with
       | [x] => Ok (map (fun y => y + x)%Q a)
       | _ => Raise ValueError
       end.

(** Python's [int(x)] on a float: truncation towards zero. *)
Definition py_int (x : Q) : Z := Z.quot (Qnum x) (Zpos (Qden x)).

(** [float(done)] *)
Definition float_of_bool (b : bool) : Q := if b then 1%Q else 0%Q.

(** ** Collaborators *)

Definition action : Type := list Q.

(** A gym environment as [gym.make] returns it.  [sim] is the hidden state
    of the simulator (with the step counter of its time limit), [rng] the
    state of the random generators outside it. *)
Class Environment : Type := {
  sim : Type;
  rng : Type;
  observation : Type;
  reset : sim -> observation * sim;
  step : action -> sim -> (observation * Q * bool) * sim;
  render : sim -> sim;
  action_space_sample : rng -> action * rng;
  action_space_low : list Q;
  action_space_high : list Q;
  max_episode_steps : Z
}.

(** [(obs, n_obs, action, reward, done_bool)] *)
Definition transition `{Environment} : Type :=
  (observation * observation * action * Q * Q)%type.

(** [memory.Memory], the replay buffer ([memory.py] is not among the
    sources): what [add] and [sample] do is left to the instance. *)
Class Memory `{Environment} : Type := {
  memory : Type;
  add : memory -> transition -> memory;
  sample : Z -> memory -> rng -> result (list transition * rng)
}.

(** ** [evaluate] *)

Section Evaluate.
Context `{Mem : Memory}.

(** The module-level [max_action], read by the closure [policy]. *)
Variable max_action : Z.

Variable actor : observation -> action.
Variable random : bool.
Variable noise : option (rng -> action * rng).
Variable render_flag : bool.

Definition policy (state : observation) (g : rng) : result (action * rng) :=
  if negb random then
    let action := actor state in
    '(action, g) <- match noise with
                    | Some noise_sample =>
                        let '(n, g') := noise_sample g in
                        a <- np_iadd action n ;; Ok (a, g')
                    | None => Ok (action, g)
                    end ;;
    Ok (np_clip action (inject_Z (- max_action)) (inject_Z max_action), g)
  else Ok (action_space_sample g).

(** The [while not done] loop of one episode; [fuel] bounds its
    iterations. *)
Fixpoint episode (fuel : nat) (obs : observation) (score : Q) (steps : Z)
    (mem : option memory) (env : sim) (g : rng)
  : result (Q * Z * option memory * sim * rng) :=
  match fuel with
  | O => Hang
  | S fuel' =>
      '(action, g) <- policy obs g ;;
      let '(n_obs, reward, done, env) := step action env in
      let done_bool :=
        if steps + 1 =? max_episode_steps then 0%Q else float_of_bool done in
      let score := (score + reward)%Q in
      let steps := steps + 1 in
      let mem := option_map (fun m => add m (obs, n_obs, action, reward, done_bool)) mem in
      let obs := n_obs in
      let env := if render_flag then render env else env in
      let env := if done then snd (reset env) else env in
      if done then Ok (score, steps, mem, env, g)
      else episode fuel' obs score steps mem env g
  end.

(** The [for _ in range(n_episodes)] loop. *)
Fixpoint episodes (fuel : nat) (n : nat) (scores : list Q) (steps : Z)
    (mem : option memory) (env : sim) (g : rng)
  : result (list Q * Z * option memory * sim * rng) :=
  match n with
  | O => Ok (scores, steps, mem, env, g)
  | S n' =>
      let '(obs, env) := reset env in
      '(score, steps, mem, env, g) <- episode fuel obs 0%Q steps mem env g ;;
      episodes fuel n' (scores ++ [score]) steps mem env g
  end.

Definition evaluate (fuel : nat) (mem : option memory) (n_episodes : Z)
    (env : sim) (g : rng)
  : result (npfloat * Z * option memory * sim * rng) :=
  '(scores, steps, mem, env, g) <- episodes fuel (Z.to_nat n_episodes) [] 0 mem env g ;;
  Ok (np_mean scores, steps, mem, env, g).

End Evaluate.

(** ** The networks and the search engine *)

(** [models.RLNN] with torch behind it: the actor and critic networks.  The
    forward pass and the optimiser step are floating-point code the script
    only calls, so they are operations of the interface.  [models.py] is not
    among the sources: [get_set_params] is the round trip of the flat
    parameter vector that section 3 of the specification states
    (flatten/unflatten is stable). *)
Class Networks `{Memory} : Type := {
  params : Type;
  actor_net : Type;
  critic_net : Type;
  forward : actor_net -> observation -> action;
  get_params : actor_net -> params;
  set_params : params -> actor_net -> actor_net;
  get_set_params : forall p a, get_params (set_params p a) = p;
  actor_optimize : list transition -> critic_net -> actor_net -> actor_net;
  actor_soft_update : actor_net -> actor_net -> actor_net;
  critic_optimize : list transition -> actor_net -> critic_net -> critic_net -> critic_net;
  critic_soft_update : critic_net -> critic_net -> critic_net
}.

(** [ES.sepCEM] after construction ([ES.py] is not among the sources):
    [ask] draws a population from the random generators and leaves the
    engine as it is, [tell] re-estimates the distribution or raises, [mu]
    is the current mean. *)
Class Engine `{Networks} : Type := {
  engine : Type;
  ask : Z -> engine -> rng -> result (list params * rng);
  tell : list params -> list npfloat -> engine -> result engine;
  mu : engine -> params
}.

(** The [antithetic] argument of the constructor call:
    [not args.pop_size % 2]. *)
Definition py_not (x : Z) : bool := x =? 0.
Definition antithetic_arg (pop_size : Z) : bool := py_not (pop_size mod 2).

(** Modelled from the spec: the constructor of [ES.sepCEM] is not among the
    sources; of its body only the check of section 7 is taken, an odd
    population size with antithetic sampling requested is a configuration
    error raised at construction. *)
Definition sepCEM_check (pop_size : Z) (antithetic : bool) : result unit :=
  if antithetic && Z.odd pop_size then Raise AssertionError else Ok tt.

(** ** numpy on fitness arrays *)

Fixpoint finite_values (l : list npfloat) : option (list Q) :=
  match l with
  | [] => Some []
  | Fin q :: l' => option_map (cons q) (finite_values l')
  | NaN :: _ => None
  end.

(** [np.mean] of an array that may hold [nan]. *)
Definition np_mean_array (l : list npfloat) : npfloat :=
  match finite_values l with
  | Some qs => np_mean qs
  | None => NaN
  end.

(** [np.max]: raises on an empty array, and [nan] wins. *)
Definition np_max (l : list npfloat) : result npfloat :=
  match l with
  | [] => Raise ValueError
  | _ :: _ =>
      match finite_values l with
      | Some [] => Raise ValueError
      | Some (q :: qs) => Ok (Fin (fold_left maximum qs q))
      | None => Ok NaN
      end
  end.

(** ** Python lists *)

(** [l[i]] *)
Definition index {A : Type} (l : list A) (i : nat) : result A :=
  match nth_error l i with
  | Some x => Ok x
  | None => Raise IndexError
  end.

(** The list after [l[i] = x], for [i] in range. *)
Fixpoint assign {A : Type} (l : list A) (i : nat) (x : A) : list A :=
  match l, i with
  | [], _ => []
  | _ :: l', O => x :: l'
  | y :: l', S i' => y :: assign l' i' x
  end.

(** ** The training script *)

Section Training.
Context `{Eng : Engine}.

(** The command-line arguments the loop reads. *)
Record args : Type := {
  start_steps : Z;
  batch_size : Z;
  pop_size : Z;
  n_grad : Z;
  n_episodes : Z;
  max_steps : Z;
  period : Z;
  render_arg : bool
}.

(** One row of the run log [df]. *)
Record summary : Type := {
  row_total_steps : Z;
  average_score_ea : npfloat;
  average_score_rl : npfloat;
  average_score : npfloat;
  best_score : npfloat
}.

(** The file name of a saved actor: [actor_i] or [actor_mu]. *)
Inductive actor_name : Set :=
| actor_index (i : nat)
| actor_mu.

(** What a run does to its collaborators and to the disk, in order:
    [ActorUpdate i] and [CriticUpdate i] when [actors[i].update] (line 317)
    and [critic.update] (line 322) have returned; [Evaluated net f steps]
    when [evaluate] has returned [(f, steps)] for the network [net] (lines
    325 and 339); [Told ps fs] at the call [es.tell(ps, fs)] (line 355);
    [Pickled log] when [df.to_pickle] writes [log] (line 360); [SavedCritic]
    and [SavedActor] at the calls of [save_model], with the step count that
    names the directory (lines 368-375). *)
Inductive event : Type :=
| ActorUpdate (i : nat)
| CriticUpdate (i : nat)
| Evaluated (net : actor_net) (f : npfloat) (steps : Z)
| Told (ps : list params) (fs : list npfloat)
| Pickled (log : list summary)
| SavedCritic (dir : Z) (net : critic_net)
| SavedActor (dir : Z) (name : actor_name) (net : actor_net).

(** A computation of the script: the events up to its end or failure, and
    its outcome. *)
Definition prog (A : Type) : Type := (list event * result A)%type.

Definition ret {A : Type} (a : A) : prog A := ([], Ok a).
Definition lift {A : Type} (r : result A) : prog A := ([], r).
Definition emit (e : event) : prog unit := ([e], Ok tt).

Definition pbind {A B : Type} (m : prog A) (k : A -> prog B) : prog B :=
  match snd m with
  | Ok a => (fst m ++ fst (k a), snd (k a))
  | Raise e => (fst m, Raise e)
  | Hang => (fst m, Hang)
  end.

Notation "x <~ e ;; k" := (pbind e (fun x => k))
  (at level 61, e at next level, right associativity).
Notation "' p <~ e ;; k" := (pbind e (fun x => let 'p := x in k))
  (at level 61, p pattern, e at next level, right associativity).

(** [for x in l: body] *)
Fixpoint for_each {A S : Type} (l : list A) (body : A -> S -> prog S) (s : S) : prog S :=
  match l with
  | [] => ret s
  | x :: l' => s' <~ body x s ;; for_each l' body s'
  end.

(** The module-level variables of the script that the loop reads and
    writes. *)
Record globals : Type := Globals {
  total_steps : Z;
  actor_steps : Z;
  step_cpt : Z;
  df : list summary;
  es : engine;
  critic : critic_net;
  critic_t : critic_net;
  actors : list actor_net;
  actors_t : list actor_net;
  actor_ea : actor_net;
  mem : memory;
  env : sim;
  gen : rng;
  fitness_rl : list npfloat;
  fitness_ea : list npfloat;
  rl_params : list params;
  ea_params : list params
}.

(** [Actor.update] *)
Definition Actor_update (self : actor_net) (mem : memory) (batch_size : Z)
    (critic : critic_net) (actor_t : actor_net) (g : rng)
  : result (actor_net * actor_net * rng) :=
  '(batch, g) <- sample batch_size mem g ;;
  let self := actor_optimize batch critic self in
  let actor_t := actor_soft_update self actor_t in
  Ok (self, actor_t, g).

(** [Critic.update] *)
Definition Critic_update (self : critic_net) (mem : memory) (batch_size : Z)
    (actor_t : actor_net) (critic_t : critic_net) (g : rng)
  : result (critic_net * critic_net * rng) :=
  '(batch, g) <- sample batch_size mem g ;;
  let self := critic_optimize batch actor_t critic_t self in
  let critic_t := critic_soft_update self critic_t in
  Ok (self, critic_t, g).

(** The module-level [max_action = int(env.action_space.high[0])]. *)
Definition max_action_of (high : list Q) : result Z :=
  high0 <- index high 0 ;; Ok (py_int high0).

Variable max_action : Z.

(** Iteration budget of each [while not done] loop. *)
Variable fuel : nat.

(** [evaluate(net, env, memory=memory, n_episodes=args.n_episodes,
    render=args.render)], the call both loops make. *)
Definition evaluate_call (a : args) (net : actor_net) (mem : memory) (env : sim) (g : rng)
  : result (npfloat * Z * memory * sim * rng) :=
  '(f, steps, m, env, g) <-
    evaluate max_action (forward net) false None (render_arg a) fuel
             (Some mem) (n_episodes a) env g ;;
  Ok (f, steps, match m with Some m' => m' | None => mem end, env, g).

(** Lines 305-308. *)
Definition ask_population (a : args) (st : globals) : prog globals :=
  let '(Globals total_steps actor_steps step_cpt df es critic critic_t actors
          actors_t actor_ea mem env gen fitness_rl fitness_ea rl_params ea_params) := st in
  let fitness_rl := [] in
  let fitness_ea := [] in
  let rl_params := [] in
  '(ea_params, gen) <~ lift (ask (pop_size a) es gen) ;;
  ret (Globals total_steps actor_steps step_cpt df es critic critic_t actors
         actors_t actor_ea mem env gen fitness_rl fitness_ea rl_params ea_params).

(** Lines 315-329: the body of [for i in range(args.n_grad)]. *)
Definition rl_body (a : args) (i : nat) (st : globals) : prog globals :=
  let '(Globals total_steps actor_steps step_cpt df es critic critic_t actors
          actors_t actor_ea mem env gen fitness_rl fitness_ea rl_params ea_params) := st in
  actor_i <~ lift (index actors i) ;;
  actor_t_i <~ lift (index actors_t i) ;;
  '(actor_i, actor_t_i, gen) <~
     lift (Actor_update actor_i mem (batch_size a) critic actor_t_i gen) ;;
  let actors := assign actors i actor_i in
  let actors_t := assign actors_t i actor_t_i in
  _ <~ emit (ActorUpdate i) ;;
  '(critic, critic_t, gen) <~
     lift (Critic_update critic mem (batch_size a) actor_i critic_t gen) ;;
  _ <~ emit (CriticUpdate i) ;;
  '(f, steps, mem, env, gen) <~ lift (evaluate_call a actor_i mem env gen) ;;
  _ <~ emit (Evaluated actor_i f steps) ;;
  let actor_steps := actor_steps + steps in
  let rl_params := rl_params ++ [get_params actor_i] in
  let fitness_rl := fitness_rl ++ [f] in
  ret (Globals total_steps actor_steps step_cpt df es critic critic_t actors
         actors_t actor_ea mem env gen fitness_rl fitness_ea rl_params ea_params).

(** Lines 311-332. *)
Definition rl_phase (a : args) (st : globals) : prog globals :=
  if total_steps st >? start_steps a
  then for_each (seq 0 (Z.to_nat (n_grad a))) (rl_body a) st
  else ret st.

(** Lines 338-342: the body of [for params in ea_params]. *)
Definition ea_body (a : args) (params : params) (st : globals) : prog globals :=
  let '(Globals total_steps actor_steps step_cpt df es critic critic_t actors
          actors_t actor_ea mem env gen fitness_rl fitness_ea rl_params ea_params) := st in
  let actor_ea := set_params params actor_ea in
  '(f, steps, mem, env, gen) <~ lift (evaluate_call a actor_ea mem env gen) ;;
  _ <~ emit (Evaluated actor_ea f steps) ;;
  let actor_steps := actor_steps + steps in
  let fitness_ea := fitness_ea ++ [f] in
  ret (Globals total_steps actor_steps step_cpt df es critic critic_t actors
         actors_t actor_ea mem env gen fitness_rl fitness_ea rl_params ea_params).

(** Lines 335-349. *)
Definition ea_phase (a : args) (st : globals) : prog globals :=
  let '(Globals total_steps actor_steps step_cpt df es critic critic_t actors
          actors_t actor_ea mem env gen fitness_rl fitness_ea rl_params ea_params) := st in
  let actor_steps := 0 in
  st <~ for_each ea_params (ea_body a)
          (Globals total_steps actor_steps step_cpt df es critic critic_t actors
             actors_t actor_ea mem env gen fitness_rl fitness_ea rl_params ea_params) ;;
  let '(Globals total_steps actor_steps step_cpt df es critic critic_t actors
          actors_t actor_ea mem env gen fitness_rl fitness_ea rl_params ea_params) := st in
  let total_steps := total_steps + actor_steps in
  let step_cpt := step_cpt + actor_steps in
  ret (Globals total_steps actor_steps step_cpt df es critic critic_t actors
         actors_t actor_ea mem env gen fitness_rl fitness_ea rl_params ea_params).

(** Lines 352-354: the two arguments of [es.tell]. *)
Definition combined_fitness (st : globals) : list npfloat :=
  fitness_ea st ++ fitness_rl st.

Definition combined_params (st : globals) : list params :=
  if (length (rl_params st) =? 0)%nat then ea_params st
  else ea_params st ++ rl_params st.

(** Lines 352-355. *)
Definition tell_engine (st : globals) : prog globals :=
  let fitness := combined_fitness st in
  let params := combined_params st in
  let '(Globals total_steps actor_steps step_cpt df es critic critic_t actors
          actors_t actor_ea mem env gen fitness_rl fitness_ea rl_params ea_params) := st in
  _ <~ emit (Told params fitness) ;;
  es <~ lift (tell params fitness es) ;;
  ret (Globals total_steps actor_steps step_cpt df es critic critic_t actors
         actors_t actor_ea mem env gen fitness_rl fitness_ea rl_params ea_params).

(** Lines 370-372: [actors[i].save_model(dir, actor_i)]. *)
Definition save_actor (dir : Z) (actors : list actor_net) (i : nat) (u : unit) : prog unit :=
  actor_i <~ lift (index actors i) ;;
  emit (SavedActor dir (actor_index i) actor_i).

(** Lines 358-378. *)
Definition save_stuff (a : args) (st : globals) : prog globals :=
  if step_cpt st >=? period a then
    let fitness := combined_fitness st in
    let '(Globals total_steps actor_steps step_cpt df es critic critic_t actors
            actors_t actor_ea mem env gen fitness_rl fitness_ea rl_params ea_params) := st in
    _ <~ emit (Pickled df) ;;
    best <~ lift (np_max fitness) ;;
    let res := {| row_total_steps := total_steps;
                  average_score_ea := np_mean_array fitness_ea;
                  average_score_rl := np_mean_array fitness_rl;
                  average_score := np_mean_array fitness;
                  best_score := best |} in
    _ <~ emit (SavedCritic total_steps critic) ;;
    _ <~ for_each (seq 0 (Z.to_nat (n_grad a))) (save_actor total_steps actors) tt ;;
    let actor_ea := set_params (mu es) actor_ea in
    _ <~ emit (SavedActor total_steps actor_mu actor_ea) ;;
    let df := df ++ [res] in
    let step_cpt := 0 in
    ret (Globals total_steps actor_steps step_cpt df es critic critic_t actors
           actors_t actor_ea mem env gen fitness_rl fitness_ea rl_params ea_params)
  else ret st.

(** One pass through the body of [while total_steps < args.max_steps]. *)
Definition generation (a : args) (st : globals) : prog globals :=
  st <~ ask_population a st ;;
  st <~ rl_phase a st ;;
  st <~ ea_phase a st ;;
  st <~ tell_engine st ;;
  save_stuff a st.

(** The [while] loop, for at most [gens] passes. *)
Fixpoint train (gens : nat) (a : args) (st : globals) : prog globals :=
  if total_steps st <? max_steps a then
    match gens with
    | O => lift Hang
    | S gens' => st' <~ generation a st ;; train gens' a st'
    end
  else ret st.

End Training.

(** ** What a rollout is: the reference the loops are compared with *)

Section Rollouts.
Context `{Mem : Memory}.

Variable max_action : Z.
Variable actor : observation -> action.
Variable random : bool.
Variable noise : option (rng -> action * rng).
Variable render_flag : bool.

(** One step of the environment as the agent lived it. *)
Record env_step : Type := {
  at_obs : observation;
  to_obs : observation;
  taken : action;
  reward_of : Q;
  done_of : bool
}.

(** A full rollout from the observation of a fresh reset: the policy acts
    and the environment steps until it says [done]; the environment is
    reset again once the episode has ended. *)
Fixpoint rollout (fuel : nat) (obs : observation) (env : sim) (g : rng)
  : result (list env_step * sim * rng) :=
  match fuel with
  | O => Hang
  | S fuel' =>
      '(a, g) <- policy max_action actor random noise obs g ;;
      let '(n_obs, reward, done, env) := step a env in
      let env := if render_flag then render env else env in
      let s := {| at_obs := obs; to_obs := n_obs; taken := a;
                  reward_of := reward; done_of := done |} in
      if done then Ok ([s], snd (reset env), g)
      else '(rest, env, g) <- rollout fuel' n_obs env g ;; Ok (s :: rest, env, g)
  end.

(** [n] rollouts in a row, each starting with a reset. *)
Fixpoint rollouts (fuel : nat) (n : nat) (env : sim) (g : rng)
  : result (list (list env_step) * sim * rng) :=
  match n with
  | O => Ok ([], env, g)
  | S n' =>
      let '(obs, env) := reset env in
      '(ep, env, g) <- rollout fuel obs env g ;;
      '(eps, env, g) <- rollouts fuel n' env g ;;
      Ok (ep :: eps, env, g)
  end.

(** The cumulative reward of an episode. *)
Definition episode_return (ep : list env_step) : Q :=
  fold_left Qplus (map reward_of ep) 0%Q.

(** A full rollout: [done] at its last step and at no step before. *)
Definition full_rollout (ep : list env_step) : Prop :=
  exists init last,
    ep = init ++ [last] /\ done_of last = true /\
    Forall (fun s => done_of s = false) init.

(** The transitions [evaluate] hands to [memory.add] for the steps [l],
    when [steps] environment steps were counted before them. *)
Fixpoint recorded (steps : Z) (l : list env_step) : list transition :=
  match l with
  | [] => []
  | s :: l' =>
      (at_obs s, to_obs s, taken s, reward_of s,
       if steps + 1 =? max_episode_steps then 0%Q else float_of_bool (done_of s))
      :: recorded (steps + 1) l'
  end.

(** The flag the data model asks for on the transition that ends an
    episode of [len] steps: 0 when it ran to the step limit, 1 when it
    ended earlier. *)
Definition truncation_flag (len : Z) : Q :=
  if len =? max_episode_steps then 0%Q else 1%Q.

(** The [done_bool] of a transition. *)
Definition done_flag (t : transition) : Q := snd t.

(** A noise sample has the shape of the action it is added to. *)
Definition shapes_agree : Prop :=
  match noise with
  | None => True
  | Some noise_sample =>
      forall obs g, length (fst (noise_sample g)) = length (actor obs)
  end.

(** What the closure [policy] answers when it is not random: the actor's
    output, with the noise sample added when there is a noise source,
    clipped to [-max_action, max_action]. *)
Definition policy_answer (obs : observation) (a : action) : Prop :=
  exists raw,
    a = np_clip raw (inject_Z (- max_action)) (inject_Z max_action) /\
    match noise with
    | None => raw = actor obs
    | Some noise_sample => exists g, np_iadd (actor obs) (fst (noise_sample g)) = Ok raw
    end.

End Rollouts.

(** The contract of gym's time limit: a counter of the steps since the last
    reset, and [done] at the latest when it reaches [max_episode_steps]. *)
Class TimeLimit (E : Environment) : Type := {
  elapsed_steps : sim -> Z;
  elapsed_reset : forall s, elapsed_steps (snd (reset s)) = 0;
  elapsed_step : forall a s, elapsed_steps (snd (step a s)) = elapsed_steps s + 1;
  elapsed_render : forall s, elapsed_steps (render s) = elapsed_steps s;
  done_at_limit : forall a s,
    max_episode_steps <= elapsed_steps (snd (step a s)) ->
    snd (fst (step a s)) = true
}.

(** Enough iterations for any episode of a time-limited environment. *)
Definition episode_fuel `{Environment} : nat := Z.to_nat (Z.max 1 max_episode_steps).


(** The interval [-m, m] lies between the bounds of every component. *)
Definition covers (m : Z) (low high : list Q) : Prop :=
  Forall2 (fun l h => (l <= inject_Z (- m) /\ inject_Z m <= h)%Q) low high.

(** Every component of [a] lies in [-m, m]. *)
Definition clipped_to (m : Z) (a : list Q) : Prop :=
  Forall (fun c => (inject_Z (- m) <= c /\ c <= inject_Z m)%Q) a.

(** ** Reading the events of a run *)

Section Events.
Context `{Eng : Engine}.

(** The evaluations among the events, in order: the parameter vector of
    the evaluated network with the fitness it got. *)
Fixpoint evaluations (evs : list event) : list (params * npfloat) :=
  match evs with
  | [] => []
  | Evaluated net f _ :: evs' => (get_params net, f) :: evaluations evs'
  | _ :: evs' => evaluations evs'
  end.

(** The environment steps of all the rollouts among the events. *)
Fixpoint rollout_steps (evs : list event) : Z :=
  match evs with
  | [] => 0
  | Evaluated _ _ steps :: evs' => steps + rollout_steps evs'
  | _ :: evs' => rollout_steps evs'
  end.

Definition is_told (e : event) : bool :=
  match e with Told _ _ => true | _ => false end.

Definition is_update (e : event) : bool :=
  match e with ActorUpdate _ | CriticUpdate _ => true | _ => false end.

Definition is_evaluated (e : event) : bool :=
  match e with Evaluated _ _ _ => true | _ => false end.

(** No event of [evs] is of the kind [kind]. *)
Definition none_of (kind : event -> bool) (evs : list event) : Prop :=
  Forall (fun e => kind e = false) evs.

(** The generations of a run: [follows a st st'] when the loop, started
    with the globals [st], reaches [st'] at the top of a later pass. *)
Inductive follows (max_action : Z) (fuel : nat) (a : args) : globals -> globals -> Prop :=
| follows_here st : follows max_action fuel a st st
| follows_pass st evs st1 st' :
    total_steps st < max_steps a ->
    generation max_action fuel a st = (evs, Ok st1) ->
    follows max_action fuel a st1 st' ->
    follows max_action fuel a st st'.

(** How a pass of either loop may change the globals, given the events
    [evs] it left: the counters of the outer loop, the log and the engine
    stay; the buffer grows by one transition per rollout step; and
    [actor_steps] grows by the rollout steps. *)
Definition loop_frame (st : globals) (evs : list event) (st' : globals) : Prop :=
  total_steps st' = total_steps st /\
  step_cpt st' = step_cpt st /\
  df st' = df st /\
  es st' = es st /\
  ea_params st' = ea_params st /\
  actor_steps st' = actor_steps st + rollout_steps evs /\
  0 <= rollout_steps evs /\
  exists ts, mem st' = fold_left add ts (mem st) /\
             Z.of_nat (length ts) = rollout_steps evs.

(** The invariant of the loop over the gradient actors. *)
Definition rl_invariant (st : globals) (done : list nat) (evs : list event)
    (st' : globals) : Prop :=
  loop_frame st evs st' /\
  rl_params st' = rl_params st ++ map fst (evaluations evs) /\
  fitness_rl st' = fitness_rl st ++ map snd (evaluations evs) /\
  fitness_ea st' = fitness_ea st /\
  forall i, In i done -> In (ActorUpdate i) evs /\ In (CriticUpdate i) evs.

(** The invariant of the loop over the evolutionary candidates. *)
Definition ea_invariant (st : globals) (done : list params) (evs : list event)
    (st' : globals) : Prop :=
  loop_frame st evs st' /\
  rl_params st' = rl_params st /\
  fitness_rl st' = fitness_rl st /\
  fitness_ea st' = fitness_ea st ++ map snd (evaluations evs) /\
  map fst (evaluations evs) = done.

End Events.

(** ** More to say about [evaluate] *)

(** The number of transitions marked terminal, [done_bool = 1]. *)
Definition marked_terminal `{Environment} (ts : list transition) : nat :=
  length (filter (fun t => Qeq_bool (snd t) 1) ts).

(** ** Counting the generations of a run *)

Section Counting.
Context `{Eng : Engine}.

(** [passes k a st st']: the loop, started with the globals [st], has gone
    through [k] generations that completed and stands at [st']. *)
Inductive passes (max_action : Z) (fuel : nat) (a : args)
  : nat -> globals -> globals -> Prop :=
| passes_none st : passes max_action fuel a 0 st st
| passes_more k st evs st1 st' :
    total_steps st < max_steps a ->
    generation max_action fuel a st = (evs, Ok st1) ->
    passes max_action fuel a k st1 st' ->
    passes max_action fuel a (S k) st st'.

Definition is_pickled (e : event) : bool :=
  match e with Pickled _ => true | _ => false end.

End Counting.

(** ** Reading the checkpoints of a run *)

Section Checkpoints.
Context `{Eng : Engine}.

(** Every [save_model] among the events writes to the directory named by
    [dir]. *)
Definition saved_under (dir : Z) (e : event) : Prop :=
  match e with
  | SavedCritic d _ => d = dir
  | SavedActor d _ _ => d = dir
  | _ => True
  end.

End Checkpoints.

(** ** The target actors, set apart *)

Section Targets.
Context `{Eng : Engine}.

(** The globals with [ts] for the list [actors_t]. *)
Definition with_targets (ts : list actor_net) (st : globals) : globals :=
  let '(Globals total_steps actor_steps step_cpt df es critic critic_t actors
          actors_t actor_ea mem env gen fitness_rl fitness_ea rl_params ea_params) := st in
  Globals total_steps actor_steps step_cpt df es critic critic_t actors
    ts actor_ea mem env gen fitness_rl fitness_ea rl_params ea_params.

(** The globals [st2] are [st1] but for the target actors, of which there
    are as many. *)
Definition same_but_targets (st1 st2 : globals) : Prop :=
  exists ts, length ts = length (actors_t st1) /\ st2 = with_targets ts st1.

(** Two computations that leave the same events and end alike: with the
    same failure, or with globals that differ in the target actors only. *)
Definition agree (p1 p2 : prog globals) : Prop :=
  fst p1 = fst p2 /\
  match snd p1, snd p2 with
  | Ok st1, Ok st2 => same_but_targets st1 st2
  | Raise e1, Raise e2 => e1 = e2
  | Hang, Hang => True
  | _, _ => False
  end.

(** What a computation shows of itself when the target actors are left out
    of the globals it ends with. *)
Definition observable (p : prog globals) : list event * result globals :=
  (fst p,
   match snd p with
   | Ok st => Ok (with_targets [] st)
   | Raise e => Raise e
   | Hang => Hang
   end).

End Targets.

(** ** Collaborators that answer *)

Section Answering.
Context `{Eng : Engine}.

(** [es.ask(args.pop_size)] returns, and with at least one candidate. *)
Definition asks_some (a : args) : Prop :=
  forall e g, exists ps g', ask (pop_size a) e g = Ok (ps, g') /\ ps <> [].

(** [es.tell] accepts as many fitnesses as parameter vectors. *)
Definition tell_accepts : Prop :=
  forall ps fs e, length ps = length fs -> exists e', tell ps fs e = Ok e'.

(** [memory.sample(args.batch_size)] returns a batch from the buffer [m] and
    from every buffer [m] grows into. *)
Definition samples_from (a : args) (m : memory) : Prop :=
  forall ts g, exists batch g', sample (batch_size a) (fold_left add ts m) g = Ok (batch, g').

(** The lists [actors] and [actors_t] hold [args.n_grad] networks, as lines
    277-280 build them. *)
Definition enough_actors (a : args) (st : globals) : Prop :=
  (Z.to_nat (n_grad a) <= length (actors st))%nat /\
  (Z.to_nat (n_grad a) <= length (actors_t st))%nat.

Definition ready (a : args) (st : globals) : Prop :=
  enough_actors a st /\ samples_from a (mem st).

End Answering.

(** ** What reaches the replay buffer *)

Section Buffer.
Context `{Net : Networks}.

(** The fields [obs] and [action] of a transition. *)
Definition observed (t : transition) : observation := fst (fst (fst (fst t))).
Definition action_of (t : transition) : action := snd (fst (fst t)).

(** The action of the transition is the answer of some network to the
    observation of the transition, clipped, with nothing added to it. *)
Definition noise_free (max_action : Z) (t : transition) : Prop :=
  exists net,
    action_of t =
    np_clip (forward net (observed t)) (inject_Z (- max_action)) (inject_Z max_action).

(** The buffer [m'] is [m] after adding transitions that all satisfy
    [P]. *)
Definition grown_by (P : transition -> Prop) (m m' : memory) : Prop :=
  exists ts, m' = fold_left add ts m /\ Forall P ts.

End Buffer.

(** ** Where the gradient actors come from *)

Section Lineage.
Context `{Net : Networks}.

(** [trained_from net net']: the network [net'] is [net] after some
    optimiser steps of [Actor.update], and nothing else. *)
Inductive trained_from (net : actor_net) : actor_net -> Prop :=
| trained_none : trained_from net net
| trained_more net' batch c :
    trained_from net net' -> trained_from net (actor_optimize batch c net').

End Lineage.

(** ** [Actor.forward] *)

Section ActorNetwork.

(** The layers, [nn.Linear] and [nn.LayerNorm] with their weights, and
    [F.tanh] on one float: torch code the method only calls. *)
Variables l1 l2 l3 n1 n2 : list Q -> list Q.
Variable tanh : Q -> Q.

(** [F.relu] *)
Definition relu (x : list Q) : list Q := map (fun v => maximum v 0) x.

(** [Actor.forward], lines 50-62; [max_action] is [self.max_action], the
    module-level [max_action] the constructor was given (lines 48 and
    277). *)
Definition Actor_forward (layer_norm : bool) (max_action : Z) (x : list Q) : list Q :=
  if negb layer_norm then
    let x := relu (l1 x) in
    let x := relu (l2 x) in
    let x := map (fun v => inject_Z max_action * tanh v)%Q (l3 x) in
    x
  else
    let x := relu (n1 (l1 x)) in
    let x := relu (n2 (l2 x)) in
    let x := map (fun v => inject_Z max_action * tanh v)%Q (l3 x) in
    x.

End ActorNetwork.

(** ** What an update does to the networks *)

Section Updates.
Context `{Eng : Engine}.

(** The globals after the body of the loop over the gradient actors, lines
    315-329, has run for [actors[i]] without failure: [net'] is the actor
    after its update and [target'] its target, [critic'] and [critic_t']
    the critic after its update and its target, and [evaluate] has
    returned [(f, steps)] and left the buffer, the environment and the
    generators as [m'], [env'] and [g']. *)
Definition after_rl_body (s : globals) (i : nat) (net' target' : actor_net)
    (critic' critic_t' : critic_net) (f : npfloat) (steps : Z)
    (m' : memory) (env' : sim) (g' : rng) : globals :=
  Globals (total_steps s) (actor_steps s + steps) (step_cpt s) (df s) (es s)
    critic' critic_t' (assign (actors s) i net') (assign (actors_t s) i target')
    (actor_ea s) m' env' g'
    (fitness_rl s ++ [f]) (fitness_ea s) (rl_params s ++ [get_params net']) (ea_params s).

(** The networks of the script. *)
Definition nets (st : globals)
  : critic_net * critic_net * list actor_net * list actor_net :=
  (critic st, critic_t st, actors st, actors_t st).




End Updates.

(** ** Small concrete collaborators, to run the script on *)

Module Toy.

(** The first component of an action reaches 1: the agent steps off the
    track, a terminal state. *)
Definition falls (a : action) : bool :=
  match a with
  | x :: _ => Qle_bool 1 x
  | [] => false
  end.

(** A track walked one cell per step, reward 1 per step; the simulator
    state is the number of steps since the last reset, which is also what
    the agent observes.  The episode ends at [limit] steps or when the agent
    falls. *)
Definition track (limit : Z) (low high : list Q) : Environment := {|
  sim := Z;
  rng := unit;
  observation := Z;
  reset := fun _ => (0, 0);
  step := fun a e => ((e + 1, 1%Q, (limit <=? e + 1) || falls a), e + 1);
  render := fun e => e;
  action_space_sample := fun g => ([0%Q], g);
  action_space_low := low;
  action_space_high := high;
  max_episode_steps := limit
|}.

(** Modelled from the spec: [memory.Memory] is not among the sources.  A
    store of transitions in arrival order; as section 7 has it, asking for
    a batch before the buffer holds [batch_size] transitions is the
    InsufficientBuffer error. *)
Definition strict_memory (E : Environment) : @Memory E := {|
  memory := list (@transition E);
  add := fun m t => m ++ [t];
  sample := fun n m g =>
    if Z.of_nat (length m) <? n then Raise ValueError
    else Ok (firstn (Z.to_nat n) m, g)
|}.

(** A buffer that answers every request it can: it draws with replacement,
    so a batch can be larger than the buffer; only the empty buffer
    raises. *)
Definition lenient_memory (E : Environment) : @Memory E := {|
  memory := list (@transition E);
  add := fun m t => m ++ [t];
  sample := fun n m g =>
    match m with
    | [] => Raise ValueError
    | t :: _ => Ok (repeat t (Z.to_nat n), g)
    end
|}.

(** Networks with one weight: the actor answers every observation with its
    weight as a one-component action, and counts its optimiser steps. *)
Definition one_weight (E : Environment) (M : @Memory E) : @Networks E M := {|
  params := Q;
  actor_net := (Q * nat)%type;
  critic_net := nat;
  forward := fun net _ => [fst net];
  get_params := fun net => fst net;
  set_params := fun p net => (p, snd net);
  get_set_params := fun p net => eq_refl;
  actor_optimize := fun _ _ net => (fst net, S (snd net));
  actor_soft_update := fun _ target => target;
  critic_optimize := fun _ _ _ c => S c;
  critic_soft_update := fun _ target => target
|}.

(** An engine whose population is its mean shifted by 0, 1, 2, ...; [tell]
    refuses lists of different lengths and moves the mean to the first
    vector it is told. *)
Definition shifts (E : Environment) (M : @Memory E) : @Engine E M (one_weight M) :=
  @Build_Engine E M (one_weight M) Q
    (fun n m g =>
       Ok (map (fun i => (m + inject_Z (Z.of_nat i))%Q) (seq 0 (Z.to_nat n)), g))
    (fun ps fs m =>
       if (length ps =? length fs)%nat then Ok (hd m ps) else Raise ValueError)
    (fun m => m).

(** Three steps per episode at most, bounds -1 and 1. *)
Definition short_track : Environment := track 3 [(-1)%Q] [1%Q].


(** The track keeps the contract of the time limit: its state is the
    counter. *)
Definition track_time_limit (limit : Z) (low high : list Q)
  : TimeLimit (track limit low high).
Proof.
  refine {| elapsed_steps := fun e : @sim (track limit low high) => e |}.
  - intros s. reflexivity.
  - intros a s. reflexivity.
  - intros s. reflexivity.
  - intros a s Hreached. simpl in *.
    apply orb_true_iff. left. apply Z.leb_le. exact Hreached.
Defined.

(** The short track with the lenient buffer, the one-weight networks and
    the shifting engine. *)
Definition buffer : @Memory short_track := lenient_memory short_track.
Definition nets : @Networks short_track buffer := one_weight buffer.
Definition search : @Engine short_track buffer nets := shifts buffer.

(** Two candidates and one gradient actor; warm-up until more than 2
    steps, a checkpoint every 5 steps. *)
Definition settings : args := {|
  start_steps := 2;
  batch_size := 2;
  pop_size := 2;
  n_grad := 1;
  n_episodes := 1;
  max_steps := 10;
  period := 5;
  render_arg := false
|}.

(** The same with the batch size the command line has by default. *)
Definition default_batch : args := {|
  start_steps := 2;
  batch_size := 100;
  pop_size := 2;
  n_grad := 1;
  n_episodes := 1;
  max_steps := 10;
  period := 5;
  render_arg := false
|}.

(** The same with a checkpoint period the run never reaches. *)
Definition no_checkpoint : args := {|
  start_steps := 2;
  batch_size := 2;
  pop_size := 2;
  n_grad := 1;
  n_episodes := 1;
  max_steps := 10;
  period := 100;
  render_arg := false
|}.

(** The globals as the script has them when it enters the loop, over a
    buffer [M] holding [m]: counters at 0, an empty log, the mean of the
    engine at 0, one gradient actor of weight 0. *)
Definition fresh (M : @Memory short_track) (m : @memory short_track M)
  : @globals short_track M (one_weight M) (shifts M) :=
  @Globals short_track M (one_weight M) (shifts M)
    0 0 0 []                      (* total_steps, actor_steps, step_cpt, df *)
    0%Q                           (* es: the mean of the engine *)
    0%nat 0%nat                   (* critic, critic_t *)
    [(0%Q, 0%nat)] [(0%Q, 0%nat)] (* actors, actors_t *)
    (0%Q, 0%nat)                  (* actor_ea *)
    m 0 tt                        (* memory, env, random generators *)
    [] [] [] [].                  (* fitness_rl, fitness_ea, rl_params, ea_params *)

Definition start : @globals short_track buffer nets search := fresh buffer [].

(** The globals after the first generation from [start], still in warm-up:
    four steps, taken by the two candidates. *)
Definition warmed : @globals short_track buffer nets search :=
  Eval vm_compute in
    match snd (generation 1 3 settings start) with
    | Ok st => st
    | _ => start
    end.

(** The same run over the strict buffer. *)
Definition strict_warmed
  : @globals short_track (strict_memory short_track)
      (one_weight (strict_memory short_track)) (shifts (strict_memory short_track)) :=
  Eval vm_compute in
    match snd (generation 1 3 settings (fresh (strict_memory short_track) [])) with
    | Ok st => st
    | _ => fresh (strict_memory short_track) []
    end.

(** A track without end: no step limit is enforced and the agent cannot
    fall, so [done] is never reported. *)
Definition endless : Environment := {|
  sim := Z;
  rng := unit;
  observation := Z;
  reset := fun _ => (0, 0);
  step := fun _ e => ((e + 1, 1%Q, false), e + 1);
  render := fun e => e;
  action_space_sample := fun g => ([0%Q], g);
  action_space_low := [(-1)%Q];
  action_space_high := [1%Q];
  max_episode_steps := 3
|}.

(** The globals after the second generation from [start]: past warm-up,
    eight steps, and the first checkpoint written. *)
Definition checkpointed : @globals short_track buffer nets search :=
  Eval vm_compute in
    match snd (generation 1 3 settings warmed) with
    | Ok st => st
    | _ => start
    end.

(** The settings with a checkpoint every 4 steps: the first generation,
    still in warm-up, already writes one. *)
Definition frequent : args := {|
  start_steps := 2;
  batch_size := 2;
  pop_size := 2;
  n_grad := 1;
  n_episodes := 1;
  max_steps := 10;
  period := 4;
  render_arg := false
|}.

(** A track whose actions are bounded by 0.4 in both directions, as the
    joints of a humanoid are. *)
Definition gentle : Environment := track 3 [(-4 # 10)%Q] [(4 # 10)%Q].

(** A stand-in for [tanh] with the same range: the identity cut off at -1
    and 1. *)
Definition hard_tanh (v : Q) : Q := minimum 1 (maximum v (-1)).

(** The globals of the second generation when [es.ask] has returned: the
    two candidates are in [ea_params], the other lists are empty. *)
Definition asked : @globals short_track buffer nets search :=
  Eval vm_compute in
    match snd (ask_population default_batch warmed) with
    | Ok st => st
    | _ => warmed
    end.

End Toy.

(** * Facts *)

(** ** The result monad *)

Lemma bind_Ok_inv {A B : Type} (r : result A) (k : A -> result B) (b : B) :
  bind r k = Ok b -> exists a, r = Ok a /\ k a = Ok b.
Proof.
  destruct r as [a| |]; simpl; intros Hk; try discriminate.
  exists a; split; [reflexivity | exact Hk].
Qed.

(** ** [evaluate] against the reference rollouts *)

Section EvaluateFacts.
Context `{Mem : Memory}.

Variable max_action : Z.
Variable actor : observation -> action.
Variable random : bool.
Variable noise : option (rng -> action * rng).
Variable render_flag : bool.

Lemma recorded_length (l : list env_step) : forall steps,
  length (recorded steps l) = length l.
Proof.
  induction l as [|s l IH]; intros steps; simpl; [reflexivity|].
  now rewrite IH.
Qed.

Lemma recorded_app (l1 l2 : list env_step) : forall steps,
  recorded steps (l1 ++ l2) =
  recorded steps l1 ++ recorded (steps + Z.of_nat (length l1)) l2.
Proof.
  induction l1 as [|s l1 IH]; intros steps; simpl.
  - now rewrite Z.add_0_r.
  - rewrite IH. do 3 f_equal. lia.
Qed.

(** The [while] loop of one episode does the bookkeeping of one reference
    rollout: it adds the rewards to [score], counts the steps and hands one
    transition per step to the buffer. *)
Lemma episode_rollout (fuel : nat) : forall obs score steps mem env g,
  episode max_action actor random noise render_flag fuel obs score steps mem env g =
  '(ep, env', g') <- rollout max_action actor random noise render_flag fuel obs env g ;;
  Ok (fold_left Qplus (map reward_of ep) score,
      steps + Z.of_nat (length ep),
      option_map (fun m => fold_left add (recorded steps ep) m) mem,
      env', g').
Proof.
  induction fuel as [|fuel IH]; intros obs score steps mem env g; simpl.
  - reflexivity.
  - destruct (policy max_action actor random noise obs g) as [[a g1]| |]; simpl;
      try reflexivity.
    destruct (step a env) as [[[n_obs reward] done] env1].
    destruct done; simpl.
    + destruct mem; reflexivity.
    + rewrite IH.
      destruct (rollout max_action actor random noise render_flag fuel n_obs
                  (if render_flag then render env1 else env1) g1)
        as [[[rest env2] g2]| |]; simpl; try reflexivity.
      replace (steps + 1 + Z.of_nat (length rest))
        with (steps + Z.of_nat (S (length rest))) by lia.
      destruct mem; reflexivity.
Qed.

(** The [for] loop over the episodes against [n] reference rollouts. *)
Lemma episodes_rollouts (fuel : nat) (n : nat) : forall scores steps mem env g,
  episodes max_action actor random noise render_flag fuel n scores steps mem env g =
  '(eps, env', g') <- rollouts max_action actor random noise render_flag fuel n env g ;;
  Ok (scores ++ map episode_return eps,
      steps + Z.of_nat (length (concat eps)),
      option_map (fun m => fold_left add (recorded steps (concat eps)) m) mem,
      env', g').
Proof.
  induction n as [|n IH]; intros scores steps mem env g; simpl.
  - rewrite app_nil_r, Z.add_0_r. destruct mem; reflexivity.
  - destruct (reset env) as [obs env0].
    rewrite episode_rollout.
    destruct (rollout max_action actor random noise render_flag fuel obs env0 g)
      as [[[ep env1] g1]| |]; simpl; try reflexivity.
    rewrite IH.
    destruct (rollouts max_action actor random noise render_flag fuel n env1 g1)
      as [[[eps env2] g2]| |]; simpl; try reflexivity.
    rewrite <- app_assoc, length_app, recorded_app, Nat2Z.inj_add, Z.add_assoc.
    destruct mem as [m|]; simpl; [|reflexivity].
    now rewrite fold_left_app.
Qed.

(** [evaluate] in terms of the reference rollouts, in every outcome. *)
Lemma evaluate_rollouts (fuel : nat) (mem : option memory) (n_episodes : Z)
    (env : sim) (g : rng) :
  evaluate max_action actor random noise render_flag fuel mem n_episodes env g =
  '(eps, env', g') <-
     rollouts max_action actor random noise render_flag fuel (Z.to_nat n_episodes) env g ;;
  Ok (np_mean (map episode_return eps),
      Z.of_nat (length (concat eps)),
      option_map (fun m => fold_left add (recorded 0 (concat eps)) m) mem,
      env', g').
Proof.
  unfold evaluate. rewrite episodes_rollouts.
  destruct (rollouts max_action actor random noise render_flag fuel
              (Z.to_nat n_episodes) env g) as [[[eps env1] g1]| |]; reflexivity.
Qed.

End EvaluateFacts.

(** ** Reference rollouts are full, and end under a time limit *)

Section RolloutFacts.
Context {E : Environment} {Mem : Memory}.

Variable max_action : Z.
Variable actor : observation -> action.
Variable random : bool.
Variable noise : option (rng -> action * rng).
Variable render_flag : bool.

Lemma rollout_full (fuel : nat) : forall obs env g ep env' g',
  rollout max_action actor random noise render_flag fuel obs env g = Ok (ep, env', g') ->
  full_rollout ep.
Proof.
  induction fuel as [|fuel IH]; intros obs env g ep env' g'; simpl; [discriminate|].
  destruct (policy max_action actor random noise obs g) as [[a g1]| |]; simpl;
    try discriminate.
  destruct (step a env) as [[[n_obs reward] done] env1] eqn:Hstep.
  destruct done.
  - intros Hret. injection Hret as <- _ _.
    exists [], {| at_obs := obs; to_obs := n_obs; taken := a;
                  reward_of := reward; done_of := true |}.
    repeat split. constructor.
  - intros Hret. apply bind_Ok_inv in Hret. destruct Hret as [[[rest env2] g2] [Hrest Hret]].
    injection Hret as <- _ _.
    destruct (IH _ _ _ _ _ _ Hrest) as (init & last & -> & Hlast & Hinit).
    exists ({| at_obs := obs; to_obs := n_obs; taken := a;
               reward_of := reward; done_of := false |} :: init), last.
    repeat split; [exact Hlast|]. constructor; [reflexivity | exact Hinit].
Qed.

Lemma rollouts_full (fuel : nat) (n : nat) : forall env g eps env' g',
  rollouts max_action actor random noise render_flag fuel n env g = Ok (eps, env', g') ->
  length eps = n /\ Forall full_rollout eps.
Proof.
  induction n as [|n IH]; intros env g eps env' g'; simpl.
  - intros Hret. injection Hret as <- _ _. split; [reflexivity | constructor].
  - destruct (reset env) as [obs env0].
    intros Hret. apply bind_Ok_inv in Hret. destruct Hret as [[[ep env1] g1] [Hep Hret]].
    apply bind_Ok_inv in Hret. destruct Hret as [[[rest env2] g2] [Hrest Hret]].
    injection Hret as <- _ _.
    destruct (IH _ _ _ _ _ Hrest) as [Hlen Hfull].
    split; [simpl; now rewrite Hlen|].
    constructor; [now apply rollout_full in Hep | exact Hfull].
Qed.

Lemma np_iadd_same_length (a b : list Q) :
  length b = length a -> exists c, np_iadd a b = Ok c.
Proof.
  intros Hlen. unfold np_iadd. rewrite Hlen, Nat.eqb_refl. eauto.
Qed.

(** With noise of the right shape the closure [policy] always answers. *)
Lemma policy_total :
  shapes_agree actor noise ->
  forall obs g, exists a g', policy max_action actor random noise obs g = Ok (a, g').
Proof.
  intros Hshape obs g. unfold policy.
  destruct random; simpl.
  - destruct (action_space_sample g) as [a g']. eauto.
  - destruct noise as [noise_sample|]; simpl; [|eauto].
    specialize (Hshape obs g).
    destruct (noise_sample g) as [n g1]. simpl in Hshape.
    destruct (np_iadd_same_length (actor obs) n Hshape) as [c ->]. simpl. eauto.
Qed.

Context {TL : TimeLimit E}.

(** Under the time limit an episode ends within the steps that are left. *)
Lemma rollout_terminates (Hshape : shapes_agree actor noise) (fuel : nat) :
  forall obs env g,
    (1 <= fuel)%nat ->
    max_episode_steps - elapsed_steps env <= Z.of_nat fuel ->
    exists ep env' g',
      rollout max_action actor random noise render_flag fuel obs env g = Ok (ep, env', g')
      /\ elapsed_steps env' = 0.
Proof.
  induction fuel as [|fuel IH]; intros obs env g Hone Hleft; [lia|]. simpl.
  destruct (policy_total Hshape obs g) as (a & g1 & ->). simpl.
  pose proof (elapsed_step a env) as Hcount.
  pose proof (done_at_limit a env) as Hlimit.
  destruct (step a env) as [[[n_obs reward] done] env1]. simpl in Hcount, Hlimit.
  destruct done.
  - do 3 eexists. split; [reflexivity|]. simpl. apply elapsed_reset.
  - assert (Hbelow : elapsed_steps env1 < max_episode_steps).
    { destruct (Z_lt_le_dec (elapsed_steps env1) max_episode_steps) as [Hlt|Hge];
        [exact Hlt|]. specialize (Hlimit Hge). discriminate. }
    assert (Hsame : elapsed_steps (if render_flag then render env1 else env1)
                    = elapsed_steps env1).
    { destruct render_flag; [apply elapsed_render | reflexivity]. }
    destruct (IH n_obs (if render_flag then render env1 else env1) g1)
      as (rest & env2 & g2 & Hrest & Hzero); [lia | lia |].
    rewrite Hrest. simpl. do 3 eexists. split; [reflexivity | exact Hzero].
Qed.

Lemma rollouts_terminate (Hshape : shapes_agree actor noise) (fuel : nat) (n : nat) :
  (episode_fuel <= fuel)%nat ->
  forall env g,
    exists eps env' g',
      rollouts max_action actor random noise render_flag fuel n env g = Ok (eps, env', g').
Proof.
  intros Hfuel. unfold episode_fuel in Hfuel.
  induction n as [|n IH]; intros env g; simpl; [eauto|].
  pose proof (elapsed_reset env) as Hzero.
  destruct (reset env) as [obs env0]. simpl in Hzero.
  destruct (rollout_terminates Hshape (fuel := fuel) obs env0 g)
    as (ep & env1 & g1 & Hep & _); [lia | lia |].
  rewrite Hep. simpl.
  destruct (IH env1 g1) as (eps & env2 & g2 & ->). simpl. eauto.
Qed.

End RolloutFacts.

(** ** [evaluate]: what it returns and what it records *)

Lemma np_mean_nonempty (l : list Q) :
  (1 <= length l)%nat ->
  np_mean l = Fin (Qsum l / inject_Z (Z.of_nat (length l))).
Proof. destruct l; simpl; [lia | reflexivity]. Qed.

(** C8.  In an environment that keeps the time limit, a call of [evaluate]
    with [n_episodes >= 1] returns: its first value is the arithmetic mean
    of the cumulative rewards of exactly [n_episodes] full rollouts, its
    second value the number of environment steps of all of them.  The
    rollouts are those of [rollouts]: a reset before each episode and one
    more after the step that ended it. *)
Theorem evaluate_mean_and_steps {E : Environment} {Mem : Memory} {TL : TimeLimit E}
    (max_action : Z) (actor : observation -> action) (random : bool)
    (noise : option (rng -> action * rng)) (render_flag : bool)
    (fuel : nat) (mem : option memory) (n_episodes : Z) (env : sim) (g : rng) :
  1 <= n_episodes ->
  shapes_agree actor noise ->
  (episode_fuel <= fuel)%nat ->
  exists eps env' g',
    rollouts max_action actor random noise render_flag fuel (Z.to_nat n_episodes) env g
      = Ok (eps, env', g') /\
    Z.of_nat (length eps) = n_episodes /\
    Forall full_rollout eps /\
    evaluate max_action actor random noise render_flag fuel mem n_episodes env g
      = Ok (Fin (Qsum (map episode_return eps) / inject_Z n_episodes),
            Z.of_nat (length (concat eps)),
            option_map (fun m => fold_left add (recorded 0 (concat eps)) m) mem,
            env', g').
Proof.
  intros Hn Hshape Hfuel.
  destruct (rollouts_terminate max_action actor random noise render_flag
              Hshape (Z.to_nat n_episodes) Hfuel env g)
    as (eps & env' & g' & Hruns).
  destruct (rollouts_full _ _ _ _ _ _ _ _ _ Hruns) as [Hlen Hfull].
  exists eps, env', g'. repeat split; try assumption.
  - rewrite Hlen. lia.
  - rewrite evaluate_rollouts, Hruns. simpl.
    rewrite np_mean_nonempty by (rewrite length_map, Hlen; lia).
    rewrite length_map, Hlen, Z2Nat.id by lia. reflexivity.
Qed.

(** Two episodes on the short track with an actor that never falls: three
    steps each, mean return 3, six steps. *)
Lemma evaluate_mean_and_steps_witness :
  exists eps env' g',
    rollouts (H := Toy.short_track)
      1 (fun _ => [0%Q]) false None false 3 (Z.to_nat 2) 0 tt = Ok (eps, env', g') /\
    Z.of_nat (length eps) = 2 /\
    Forall full_rollout eps /\
    evaluate (H := Toy.short_track) (Mem := Toy.strict_memory Toy.short_track)
      1 (fun _ => [0%Q]) false None false 3 None 2 0 tt
      = Ok (Fin (Qsum (map episode_return eps) / inject_Z 2),
            Z.of_nat (length (concat eps)),
            option_map (fun m => fold_left add (recorded 0 (concat eps)) m) None,
            env', g').
Proof.
  apply (evaluate_mean_and_steps (TL := Toy.track_time_limit 3 [(-1)%Q] [1%Q])).
  - lia.
  - exact I.
  - vm_compute. lia.
Defined.

(** ** The event monad *)

Section ProgFacts.
Context `{Eng : Engine}.

Lemma pbind_Ok_inv {A B : Type} (m : prog A) (k : A -> prog B) evs (b : B) :
  pbind m k = (evs, Ok b) ->
  exists evs1 a evs2, m = (evs1, Ok a) /\ k a = (evs2, Ok b) /\ evs = evs1 ++ evs2.
Proof.
  unfold pbind. destruct m as [evs1 [a| |]]; simpl; intros Hk; try discriminate.
  destruct (k a) as [evs2 r] eqn:Hka. simpl in Hk. injection Hk as <- ->.
  exists evs1, a, evs2. auto.
Qed.

Lemma pbind_lift_Ok_inv {A B : Type} (r : result A) (k : A -> prog B) evs (b : B) :
  pbind (lift r) k = (evs, Ok b) -> exists a, r = Ok a /\ k a = (evs, Ok b).
Proof.
  intros Hk. apply pbind_Ok_inv in Hk. destruct Hk as (evs1 & a & evs2 & Hm & Hka & ->).
  unfold lift in Hm. injection Hm as <- ->. exists a. auto.
Qed.

Lemma pbind_emit_Ok_inv {B : Type} (e : event) (k : unit -> prog B) evs (b : B) :
  pbind (emit e) k = (evs, Ok b) -> exists evs', k tt = (evs', Ok b) /\ evs = e :: evs'.
Proof.
  intros Hk. apply pbind_Ok_inv in Hk. destruct Hk as (evs1 & a & evs2 & Hm & Hka & ->).
  unfold emit in Hm. injection Hm as <- <-. exists evs2. auto.
Qed.

Lemma pbind_events {A B : Type} (m : prog A) (k : A -> prog B) :
  fst (pbind m k) =
  fst m ++ match snd m with Ok a => fst (k a) | _ => [] end.
Proof.
  unfold pbind. destruct (snd m); simpl; now rewrite ?app_nil_r.
Qed.

Lemma pbind_Forall {A B : Type} (P : event -> Prop) (m : prog A) (k : A -> prog B) :
  Forall P (fst m) ->
  (forall a, snd m = Ok a -> Forall P (fst (k a))) ->
  Forall P (fst (pbind m k)).
Proof.
  intros Hm Hk. rewrite pbind_events. apply Forall_app. split; [exact Hm|].
  destruct (snd m) as [a| |]; [now apply Hk | constructor | constructor].
Qed.

Lemma for_each_Forall {A S : Type} (P : event -> Prop) (body : A -> S -> prog S) :
  (forall x s, Forall P (fst (body x s))) ->
  forall l s, Forall P (fst (for_each l body s)).
Proof.
  intros Hbody. induction l as [|x l IH]; intros s; simpl.
  - constructor.
  - apply pbind_Forall; [apply Hbody | intros s' _; apply IH].
Qed.

(** A loop invariant over the items done, the events so far and the
    state. *)
Lemma for_each_invariant {A S : Type} (body : A -> S -> prog S)
    (I : list A -> list event -> S -> Prop) :
  (forall done x evs s evs' s',
      I done evs s -> body x s = (evs', Ok s') -> I (done ++ [x]) (evs ++ evs') s') ->
  forall l done evs s evs' s',
    I done evs s -> for_each l body s = (evs', Ok s') -> I (done ++ l) (evs ++ evs') s'.
Proof.
  intros Hbody. induction l as [|x l IH]; intros done evs s evs' s' Hinv Hrun; simpl in Hrun.
  - unfold ret in Hrun. injection Hrun as <- <-. now rewrite !app_nil_r.
  - apply pbind_Ok_inv in Hrun. destruct Hrun as (evs1 & s1 & evs2 & Hx & Hrest & ->).
    replace (done ++ x :: l) with ((done ++ [x]) ++ l) by now rewrite <- app_assoc.
    rewrite app_assoc. eapply IH; [|exact Hrest]. eapply Hbody; eauto.
Qed.

Lemma evaluations_app (evs1 evs2 : list event) :
  evaluations (evs1 ++ evs2) = evaluations evs1 ++ evaluations evs2.
Proof.
  induction evs1 as [|e evs1 IH]; simpl; [reflexivity|].
  destruct e; simpl; now rewrite ?IH.
Qed.

Lemma rollout_steps_app (evs1 evs2 : list event) :
  rollout_steps (evs1 ++ evs2) = rollout_steps evs1 + rollout_steps evs2.
Proof.
  induction evs1 as [|e evs1 IH]; simpl; [reflexivity|].
  destruct e; simpl; rewrite ?IH; lia.
Qed.

Lemma evaluations_none (evs : list event) :
  none_of is_evaluated evs -> evaluations evs = [].
Proof.
  induction 1 as [|e evs He _ IH]; simpl; [reflexivity|].
  destruct e; simpl in *; try exact IH. discriminate.
Qed.

End ProgFacts.

(** ** The constructor call of the engine *)

(** C10.  The script passes [antithetic = True] to the engine exactly when
    the population size is even, so the constructor's check of an odd
    population with antithetic sampling never fails, for any integer the
    command line can give. *)
Theorem antithetic_only_for_even_population (pop_size : Z) :
  (antithetic_arg pop_size = true <-> Z.even pop_size = true) /\
  (antithetic_arg pop_size = true -> Z.odd pop_size = false) /\
  sepCEM_check pop_size (antithetic_arg pop_size) = Ok tt.
Proof.
  assert (Heven : antithetic_arg pop_size = Z.even pop_size).
  { unfold antithetic_arg, py_not. rewrite Zmod_even.
    destruct (Z.even pop_size); reflexivity. }
  unfold sepCEM_check. rewrite Heven, <- Z.negb_even.
  destruct (Z.even pop_size); simpl; repeat split; auto.
Qed.

(** ** The clipping of the executed action *)

Lemma minimum_maximum_between (x lo hi : Q) :
  (lo <= hi)%Q -> (lo <= minimum hi (maximum x lo) /\ minimum hi (maximum x lo) <= hi)%Q.
Proof.
  intros Hlohi. unfold minimum, maximum.
  destruct (Qle_bool x lo) eqn:Hx.
  - destruct (Qle_bool hi lo) eqn:Hh; split; try apply Qle_refl; assumption.
  - assert (Hlt : (lo < x)%Q).
    { apply Qnot_le_lt. intros Hle. apply Qle_bool_iff in Hle. congruence. }
    destruct (Qle_bool hi x) eqn:Hh; split; try apply Qle_refl; try assumption.
    + now apply Qlt_le_weak.
    + apply Qlt_le_weak, Qnot_le_lt. intros Hle. apply Qle_bool_iff in Hle. congruence.
Qed.



Lemma py_int_nonneg (h : Q) :
  (0 <= h)%Q -> 0 <= py_int h /\ (inject_Z (py_int h) <= h)%Q.
Proof.
  intros Hh. unfold py_int.
  assert (Hnum : 0 <= Qnum h).
  { unfold Qle in Hh. simpl in Hh. lia. }
  rewrite Z.quot_div_nonneg by lia.
  split; [apply Z.div_pos; lia|].
  destruct h as [n d]. exact (Qfloor_le (n # d)).
Qed.

(** A symmetric action space, the same bound [h] in every component: the
    script's [max_action] is [int(h)], and [-max_action, max_action] lies
    within the bounds. *)
Lemma symmetric_space_covered (h : Q) (n : nat) :
  (0 <= h)%Q ->
  max_action_of (repeat h (S n)) = Ok (py_int h) /\
  0 <= py_int h /\
  covers (py_int h) (repeat (- h)%Q (S n)) (repeat h (S n)).
Proof.
  intros Hh. destruct (py_int_nonneg Hh) as [Hpos Hle].
  split; [reflexivity|]. split; [exact Hpos|].
  unfold covers. generalize (S n) as k.
  induction k as [|k IH]; simpl; constructor; [|exact IH].
  split; [|exact Hle].
  rewrite inject_Z_opp. now apply Qopp_le_compat.
Qed.

Section ClipFacts.
Context {E : Environment}.

Variable max_action : Z.
Variable actor : observation -> action.
Variable noise : option (rng -> action * rng).
Variable render_flag : bool.

Lemma policy_not_random (obs : observation) (g : rng) (a : action) (g' : rng) :
  policy max_action actor false noise obs g = Ok (a, g') ->
  policy_answer max_action actor noise obs a.
Proof.
  unfold policy, policy_answer. simpl.
  destruct noise as [noise_sample|]; simpl.
  - destruct (noise_sample g) as [n g1] eqn:Hn.
    destruct (np_iadd (actor obs) n) as [raw| |] eqn:Hadd; simpl; try discriminate.
    intros Hret. injection Hret as <- _. exists raw. split; [reflexivity|].
    exists g. now rewrite Hn.
  - intros Hret. injection Hret as <- _. exists (actor obs). auto.
Qed.

Lemma rollout_actions (fuel : nat) : forall obs env g ep env' g',
  rollout max_action actor false noise render_flag fuel obs env g = Ok (ep, env', g') ->
  Forall (fun s => policy_answer max_action actor noise (at_obs s) (taken s)) ep.
Proof.
  induction fuel as [|fuel IH]; intros obs env g ep env' g'; simpl; [discriminate|].
  destruct (policy max_action actor false noise obs g) as [[a g1]| |] eqn:Hpol; simpl;
    try discriminate.
  apply policy_not_random in Hpol.
  destruct (step a env) as [[[n_obs reward] done] env1].
  destruct done.
  - intros Hret. injection Hret as <- _ _. constructor; [exact Hpol | constructor].
  - intros Hret. apply bind_Ok_inv in Hret. destruct Hret as [[[rest env2] g2] [Hrest Hret]].
    injection Hret as <- _ _. constructor; [exact Hpol|]. eapply IH; eauto.
Qed.

Lemma rollouts_actions (fuel : nat) (n : nat) : forall env g eps env' g',
  rollouts max_action actor false noise render_flag fuel n env g = Ok (eps, env', g') ->
  Forall (fun s => policy_answer max_action actor noise (at_obs s) (taken s)) (concat eps).
Proof.
  induction n as [|n IH]; intros env g eps env' g'; simpl.
  - intros Hret. injection Hret as <- _ _. constructor.
  - destruct (reset env) as [obs env0].
    intros Hret. apply bind_Ok_inv in Hret. destruct Hret as [[[ep env1] g1] [Hep Hret]].
    apply bind_Ok_inv in Hret. destruct Hret as [[[rest env2] g2] [Hrest Hret]].
    injection Hret as <- _ _. simpl. apply Forall_app. split.
    + eapply rollout_actions; eauto.
    + eapply IH; eauto.
Qed.


End ClipFacts.



(** ** The done flag after the first episode *)

(** C3 against the code.  [evaluate] compares the step counter of the whole
    call, not of the episode, with the step limit.  Two episodes on a track
    limited to 3 steps, with an actor that never falls: both run to the
    limit; the last transition of the first is recorded with flag 0, the
    last transition of the second, the sixth step of the call, with flag 1
    where the data model asks for 0.  And on a track limited to 2 steps with
    an actor that falls at once, the second episode ends by a terminal state
    after one step, the second step of the call, and is recorded with flag
    0 where the data model asks for 1. *)
Lemma second_episode_flag_wrong :
  (exists f m,
      evaluate (Mem := Toy.strict_memory (Toy.track 3 [(-1)%Q] [1%Q]))
        1 (fun _ => [0%Q]) false None false 3 (Some []) 2 0 tt
        = Ok (f, 6, Some m, 0, tt) /\
      rollouts (H := Toy.track 3 [(-1)%Q] [1%Q]) 1 (fun _ => [0%Q]) false None false 3 2 0 tt
        = Ok ([ [ Build_env_step (H := Toy.track 3 [(-1)%Q] [1%Q]) 0 1 [0%Q] 1 false;
                  Build_env_step (H := Toy.track 3 [(-1)%Q] [1%Q]) 1 2 [0%Q] 1 false;
                  Build_env_step (H := Toy.track 3 [(-1)%Q] [1%Q]) 2 3 [0%Q] 1 true ];
                [ Build_env_step (H := Toy.track 3 [(-1)%Q] [1%Q]) 0 1 [0%Q] 1 false;
                  Build_env_step (H := Toy.track 3 [(-1)%Q] [1%Q]) 1 2 [0%Q] 1 false;
                  Build_env_step (H := Toy.track 3 [(-1)%Q] [1%Q]) 2 3 [0%Q] 1 true ] ],
              0, tt) /\
      map (done_flag (H := Toy.track 3 [(-1)%Q] [1%Q])) m = [0; 0; 0; 0; 0; 1]%Q /\
      truncation_flag (H := Toy.track 3 [(-1)%Q] [1%Q]) 3 = 0%Q) /\
  (exists f m,
      evaluate (Mem := Toy.strict_memory (Toy.track 2 [(-1)%Q] [1%Q]))
        1 (fun _ => [1%Q]) false None false 2 (Some []) 2 0 tt
        = Ok (f, 2, Some m, 0, tt) /\
      rollouts (H := Toy.track 2 [(-1)%Q] [1%Q]) 1 (fun _ => [1%Q]) false None false 2 2 0 tt
        = Ok ([ [ Build_env_step (H := Toy.track 2 [(-1)%Q] [1%Q]) 0 1 [1%Q] 1 true ];
                [ Build_env_step (H := Toy.track 2 [(-1)%Q] [1%Q]) 0 1 [1%Q] 1 true ] ],
              0, tt) /\
      map (done_flag (H := Toy.track 2 [(-1)%Q] [1%Q])) m = [1; 0]%Q /\
      truncation_flag (H := Toy.track 2 [(-1)%Q] [1%Q]) 1 = 1%Q).
Proof.
  split; do 2 eexists; repeat split.
Qed.

(** ** The training loop *)

Section LoopFacts.
Context {E : Environment} {Mem : Memory} {Net : Networks} {Eng : Engine}.

Variable max_action : Z.
Variable fuel : nat.

(** The call both loops make, against the reference rollouts. *)
Lemma evaluate_call_rollouts (a : args) (net : actor_net) (m : memory) (env : sim) (g : rng) :
  evaluate_call max_action fuel a net m env g =
  '(eps, env', g') <-
     rollouts max_action (forward net) false None (render_arg a) fuel
       (Z.to_nat (n_episodes a)) env g ;;
  Ok (np_mean (map episode_return eps),
      Z.of_nat (length (concat eps)),
      fold_left add (recorded 0 (concat eps)) m,
      env', g').
Proof.
  unfold evaluate_call. rewrite evaluate_rollouts.
  destruct (rollouts max_action (forward net) false None (render_arg a) fuel
              (Z.to_nat (n_episodes a)) env g) as [[[eps env1] g1]| |]; reflexivity.
Qed.

(** What a successful call adds to the buffer: one transition per step. *)
Lemma evaluate_call_adds (a : args) (net : actor_net) (m : memory) (env : sim) (g : rng)
    f steps m' env' g' :
  evaluate_call max_action fuel a net m env g = Ok (f, steps, m', env', g') ->
  exists ts, m' = fold_left add ts m /\ Z.of_nat (length ts) = steps.
Proof.
  rewrite evaluate_call_rollouts. intros Hret.
  apply bind_Ok_inv in Hret. destruct Hret as [[[eps env1] g1] [_ Hret]].
  injection Hret as _ <- <- _ _.
  exists (recorded 0 (concat eps)). split; [reflexivity|].
  now rewrite recorded_length.
Qed.

(** Takes apart a successful run of a chain of script statements. *)
Ltac prog_inv H :=
  repeat first
    [ let x := fresh "x" in let Hx := fresh "Hx" in
      apply pbind_lift_Ok_inv in H; destruct H as (x & Hx & H)
    | let evs := fresh "evs" in let Hevs := fresh "Hevs" in
      apply pbind_emit_Ok_inv in H; destruct H as (evs & H & Hevs)
    | match type of H with
      | (let '(_, _) := ?p in _) = _ => destruct p
      end ].

(** Proves that every event of a chain of script statements satisfies a
    predicate, given a tactic [tac] for each event the chain emits. *)
Ltac prog_events tac :=
  repeat first
    [ apply Forall_nil
    | apply Forall_cons; [solve [tac]|]
    | apply pbind_Forall; [|intros ? _]
    | match goal with
      | |- Forall _ (fst (let '(_, _) := ?p in _)) => destruct p
      end ].

Lemma loop_frame_refl (st : globals) : loop_frame st [] st.
Proof.
  unfold loop_frame. simpl. repeat split; try lia. exists []. auto.
Qed.

Lemma loop_frame_trans (st : globals) evs1 st1 evs2 st2 :
  loop_frame st evs1 st1 -> loop_frame st1 evs2 st2 -> loop_frame st (evs1 ++ evs2) st2.
Proof.
  unfold loop_frame.
  intros (H1 & H2 & H3 & H4 & H5 & H6 & H7 & ts1 & H8 & H9)
         (K1 & K2 & K3 & K4 & K5 & K6 & K7 & ts2 & K8 & K9).
  rewrite rollout_steps_app.
  repeat split; try congruence; try lia.
  exists (ts1 ++ ts2). split.
  - now rewrite fold_left_app, <- H8.
  - rewrite length_app. lia.
Qed.

(** One pass of the loop over the gradient actors. *)
Lemma rl_body_Ok (a : args) (i : nat) (st : globals) evs st' :
  rl_body max_action fuel a i st = (evs, Ok st') ->
  exists net f steps,
    evs = [ActorUpdate i; CriticUpdate i; Evaluated net f steps] /\
    loop_frame st evs st' /\
    rl_params st' = rl_params st ++ [get_params net] /\
    fitness_rl st' = fitness_rl st ++ [f] /\
    fitness_ea st' = fitness_ea st.
Proof.
  destruct st. unfold rl_body. intros Hrun. prog_inv Hrun.
  unfold ret in Hrun. injection Hrun as <- <-. subst.
  destruct (evaluate_call_adds _ _ _ _ _ Hx3) as (ts & Hmem & Hlen).
  do 3 eexists. split; [reflexivity|].
  unfold loop_frame. simpl. repeat split; try lia.
  exists ts. split; [exact Hmem | lia].
Qed.

(** One pass of the loop over the evolutionary candidates. *)
Lemma ea_body_Ok (a : args) (p : params) (st : globals) evs st' :
  ea_body max_action fuel a p st = (evs, Ok st') ->
  exists f steps,
    evs = [Evaluated (set_params p (actor_ea st)) f steps] /\
    loop_frame st evs st' /\
    rl_params st' = rl_params st /\
    fitness_rl st' = fitness_rl st /\
    fitness_ea st' = fitness_ea st ++ [f].
Proof.
  destruct st. unfold ea_body. intros Hrun. prog_inv Hrun.
  unfold ret in Hrun. injection Hrun as <- <-. subst.
  destruct (evaluate_call_adds _ _ _ _ _ Hx) as (ts & Hmem & Hlen).
  do 2 eexists. split; [reflexivity|].
  unfold loop_frame. simpl. repeat split; try lia.
  exists ts. split; [exact Hmem | lia].
Qed.

Lemma rl_body_events (P : event -> Prop) (a : args) (i : nat) (st : globals) :
  (forall j, P (ActorUpdate j)) -> (forall j, P (CriticUpdate j)) ->
  (forall net f steps, P (Evaluated net f steps)) ->
  Forall P (fst (rl_body max_action fuel a i st)).
Proof.
  intros HA HC HE. destruct st. unfold rl_body.
  prog_events ltac:(first [apply HA | apply HC | apply HE]).
Qed.

Lemma ea_body_events (P : event -> Prop) (a : args) (p : params) (st : globals) :
  (forall net f steps, P (Evaluated net f steps)) ->
  Forall P (fst (ea_body max_action fuel a p st)).
Proof.
  intros HE. destruct st. unfold ea_body.
  prog_events ltac:(apply HE).
Qed.

(** *** The phases of a generation *)

Lemma ask_population_events (a : args) (st : globals) :
  fst (ask_population a st) = [].
Proof.
  destruct st. unfold ask_population. simpl.
  destruct (ask (pop_size a) es0 gen0) as [[ps g]| |]; reflexivity.
Qed.

Lemma ask_population_Ok (a : args) (st : globals) evs st' :
  ask_population a st = (evs, Ok st') ->
  evs = [] /\
  (exists g', ask (pop_size a) (es st) (gen st) = Ok (ea_params st', g')) /\
  fitness_rl st' = [] /\ fitness_ea st' = [] /\ rl_params st' = [] /\
  total_steps st' = total_steps st /\ step_cpt st' = step_cpt st /\
  df st' = df st /\ mem st' = mem st.
Proof.
  destruct st. unfold ask_population. intros Hrun. prog_inv Hrun.
  unfold ret in Hrun. injection Hrun as <- <-. simpl.
  repeat split. eauto.
Qed.

Lemma rl_loop_Ok (a : args) (l : list nat) (st : globals) evs st' :
  for_each l (rl_body max_action fuel a) st = (evs, Ok st') ->
  rl_invariant st l evs st'.
Proof.
  assert (Hstep : forall done i evs s evs' s',
             rl_invariant st done evs s ->
             rl_body max_action fuel a i s = (evs', Ok s') ->
             rl_invariant st (done ++ [i]) (evs ++ evs') s').
  { clear. intros done i evs s evs' s' (Hframe & Hps & Hfs & Hea & Hupd) Hbody.
    apply rl_body_Ok in Hbody.
    destruct Hbody as (net & f & steps & -> & Hframe' & Hps' & Hfs' & Hea').
    unfold rl_invariant. rewrite evaluations_app, !map_app. simpl.
    split; [eapply loop_frame_trans; eauto|].
    split; [rewrite Hps', Hps; now rewrite <- app_assoc|].
    split; [rewrite Hfs', Hfs; now rewrite <- app_assoc|].
    split; [congruence|].
    intros j Hj. apply in_app_or in Hj. destruct Hj as [Hj|Hj].
    - destruct (Hupd j Hj). split; apply in_or_app; auto.
    - destruct Hj as [<-|[]]. split; apply in_or_app; right; simpl; auto. }
  assert (Hinit : rl_invariant st [] [] st).
  { unfold rl_invariant. simpl. rewrite !app_nil_r.
    split; [apply loop_frame_refl|]. repeat split; contradiction. }
  intros Hrun. eapply (for_each_invariant _ _ Hstep) in Hrun; [|exact Hinit].
  exact Hrun.
Qed.

Lemma rl_phase_events (P : event -> Prop) (a : args) (st : globals) :
  (forall j, P (ActorUpdate j)) -> (forall j, P (CriticUpdate j)) ->
  (forall net f steps, P (Evaluated net f steps)) ->
  Forall P (fst (rl_phase max_action fuel a st)).
Proof.
  intros HA HC HE. unfold rl_phase.
  destruct (total_steps st >? start_steps a); [|constructor].
  apply for_each_Forall. intros i s. now apply rl_body_events.
Qed.

Lemma rl_phase_warmup (a : args) (st : globals) :
  total_steps st <= start_steps a -> rl_phase max_action fuel a st = ([], Ok st).
Proof.
  intros Hwarm. unfold rl_phase.
  destruct (Z.gtb_spec (total_steps st) (start_steps a)); [lia | reflexivity].
Qed.

Lemma rl_phase_Ok (a : args) (st : globals) evs st' :
  rl_phase max_action fuel a st = (evs, Ok st') ->
  rl_invariant st
    (if total_steps st >? start_steps a then seq 0 (Z.to_nat (n_grad a)) else [])
    evs st'.
Proof.
  unfold rl_phase. destruct (total_steps st >? start_steps a).
  - apply rl_loop_Ok.
  - unfold ret. intros Hrun. injection Hrun as <- <-.
    unfold rl_invariant. simpl. rewrite !app_nil_r.
    split; [apply loop_frame_refl|]. repeat split; contradiction.
Qed.

Lemma ea_loop_Ok (a : args) (l : list params) (st : globals) evs st' :
  for_each l (ea_body max_action fuel a) st = (evs, Ok st') ->
  ea_invariant st l evs st'.
Proof.
  assert (Hstep : forall done p evs s evs' s',
             ea_invariant st done evs s ->
             ea_body max_action fuel a p s = (evs', Ok s') ->
             ea_invariant st (done ++ [p]) (evs ++ evs') s').
  { clear. intros done p evs s evs' s' (Hframe & Hps & Hfs & Hea & Hdone) Hbody.
    apply ea_body_Ok in Hbody.
    destruct Hbody as (f & steps & -> & Hframe' & Hps' & Hfs' & Hea').
    unfold ea_invariant. rewrite evaluations_app, !map_app. simpl.
    rewrite get_set_params.
    split; [eapply loop_frame_trans; eauto|].
    split; [congruence|]. split; [congruence|].
    split; [rewrite Hea', Hea; now rewrite <- app_assoc|].
    now rewrite Hdone. }
  assert (Hinit : ea_invariant st [] [] st).
  { unfold ea_invariant. simpl. rewrite !app_nil_r.
    split; [apply loop_frame_refl|]. repeat split. }
  intros Hrun. eapply (for_each_invariant _ _ Hstep) in Hrun; [|exact Hinit].
  exact Hrun.
Qed.

Lemma ea_phase_events (P : event -> Prop) (a : args) (st : globals) :
  (forall net f steps, P (Evaluated net f steps)) ->
  Forall P (fst (ea_phase max_action fuel a st)).
Proof.
  intros HE. destruct st. unfold ea_phase.
  apply pbind_Forall.
  - apply for_each_Forall. intros p s. now apply ea_body_events.
  - intros s _. destruct s. constructor.
Qed.

(** The loop over the candidates with the update of the step counts:
    [total_steps] and [step_cpt] grow by the steps of the candidates'
    rollouts, the only ones [actor_steps] holds after its reset. *)
Lemma ea_phase_Ok (a : args) (st : globals) evs st' :
  ea_phase max_action fuel a st = (evs, Ok st') ->
  total_steps st' = total_steps st + rollout_steps evs /\
  step_cpt st' = step_cpt st + rollout_steps evs /\
  0 <= rollout_steps evs /\
  df st' = df st /\ es st' = es st /\ ea_params st' = ea_params st /\
  rl_params st' = rl_params st /\ fitness_rl st' = fitness_rl st /\
  fitness_ea st' = fitness_ea st ++ map snd (evaluations evs) /\
  map fst (evaluations evs) = ea_params st /\
  (exists ts, mem st' = fold_left add ts (mem st) /\
              Z.of_nat (length ts) = rollout_steps evs) /\
  none_of is_update evs.
Proof.
  intros Hrun.
  assert (Hkinds : none_of is_update evs).
  { change evs with (fst (evs, Ok st')). rewrite <- Hrun.
    apply ea_phase_events. reflexivity. }
  destruct st. unfold ea_phase in Hrun.
  apply pbind_Ok_inv in Hrun. destruct Hrun as (evs1 & s1 & evs2 & Hloop & Hrest & ->).
  apply ea_loop_Ok in Hloop.
  destruct Hloop as ((H1 & H2 & H3 & H4 & H5 & H6 & H7 & ts & H8 & H9) & Hps & Hfs & Hea & Hdone).
  destruct s1. unfold ret in Hrest. injection Hrest as <- <-.
  rewrite app_nil_r in *. simpl in *. subst.
  repeat split; try lia; try assumption. exists ts. auto.
Qed.

Lemma tell_engine_events (st : globals) :
  fst (tell_engine st) = [Told (combined_params st) (combined_fitness st)].
Proof.
  unfold tell_engine. destruct st. unfold pbind, emit, lift. simpl.
  match goal with
  | |- context [tell ?ps ?fs ?e] => destruct (tell ps fs e)
  end; reflexivity.
Qed.

Lemma tell_engine_Ok (st : globals) evs st' :
  tell_engine st = (evs, Ok st') ->
  total_steps st' = total_steps st /\ step_cpt st' = step_cpt st /\
  df st' = df st /\ mem st' = mem st /\
  fitness_ea st' = fitness_ea st /\ fitness_rl st' = fitness_rl st.
Proof.
  unfold tell_engine. destruct st. intros Hrun. prog_inv Hrun.
  unfold ret in Hrun. injection Hrun as <- <-. simpl. repeat split.
Qed.

Lemma save_actors_events (P : event -> Prop) (dir : Z) (nets : list actor_net)
    (l : list nat) (u : unit) :
  (forall d name net, P (SavedActor d name net)) ->
  Forall P (fst (for_each l (save_actor dir nets) u)).
Proof.
  intros HS. apply for_each_Forall. intros i s. unfold save_actor.
  prog_events ltac:(apply HS).
Qed.

Lemma save_stuff_events (P : event -> Prop) (a : args) (st : globals) :
  (forall log, P (Pickled log)) -> (forall d net, P (SavedCritic d net)) ->
  (forall d name net, P (SavedActor d name net)) ->
  Forall P (fst (save_stuff a st)).
Proof.
  intros HP HC HS. unfold save_stuff.
  destruct (step_cpt st >=? period a); [|constructor].
  destruct st.
  repeat first
    [ apply Forall_nil
    | apply save_actors_events; exact HS
    | apply Forall_cons; [solve [apply HP | apply HC | apply HS]|]
    | apply pbind_Forall; [|intros ? _] ].
Qed.

Lemma save_stuff_skip (a : args) (st : globals) :
  step_cpt st < period a -> save_stuff a st = ([], Ok st).
Proof.
  intros Hlt. unfold save_stuff.
  destruct (Z.geb_spec (step_cpt st) (period a)); [lia | reflexivity].
Qed.

(** A checkpoint that succeeds: the log is pickled as it was before this
    period's row; then the row is appended and the counter reset. *)
Lemma save_stuff_due (a : args) (st : globals) evs st' :
  period a <= step_cpt st ->
  save_stuff a st = (evs, Ok st') ->
  exists best rest,
    np_max (combined_fitness st) = Ok best /\
    evs = Pickled (df st) :: SavedCritic (total_steps st) (critic st) :: rest /\
    df st' = df st ++ [ {| row_total_steps := total_steps st;
                           average_score_ea := np_mean_array (fitness_ea st);
                           average_score_rl := np_mean_array (fitness_rl st);
                           average_score := np_mean_array (combined_fitness st);
                           best_score := best |} ] /\
    step_cpt st' = 0 /\
    total_steps st' = total_steps st /\ mem st' = mem st.
Proof.
  intros Hdue. unfold save_stuff.
  destruct (Z.geb_spec (step_cpt st) (period a)); [|lia].
  destruct st. intros Hrun. cbv beta iota zeta in Hrun. prog_inv Hrun.
  apply pbind_Ok_inv in Hrun. destruct Hrun as (evs3 & u & evs4 & _ & Hrun & ->).
  prog_inv Hrun. unfold ret in Hrun. injection Hrun as <- <-. subst.
  do 2 eexists. split; [eassumption|]. repeat split.
Qed.

Lemma save_stuff_Ok (a : args) (st : globals) evs st' :
  save_stuff a st = (evs, Ok st') ->
  total_steps st' = total_steps st /\ mem st' = mem st.
Proof.
  intros Hrun. destruct (Z_lt_le_dec (step_cpt st) (period a)) as [Hlt|Hdue].
  - rewrite save_stuff_skip in Hrun by exact Hlt. injection Hrun as _ <-. auto.
  - destruct (save_stuff_due _ _ Hdue Hrun) as (best & rest & _ & _ & _ & _ & H1 & H2). auto.
Qed.

(** *** A whole generation *)

Lemma generation_Ok (a : args) (st : globals) evs st' :
  generation max_action fuel a st = (evs, Ok st') ->
  exists evs1 st1 evs2 st2 evs3 st3 evs4 st4 evs5,
    ask_population a st = (evs1, Ok st1) /\
    rl_phase max_action fuel a st1 = (evs2, Ok st2) /\
    ea_phase max_action fuel a st2 = (evs3, Ok st3) /\
    tell_engine st3 = (evs4, Ok st4) /\
    save_stuff a st4 = (evs5, Ok st') /\
    evs = evs1 ++ evs2 ++ evs3 ++ evs4 ++ evs5.
Proof.
  unfold generation. intros Hrun.
  apply pbind_Ok_inv in Hrun. destruct Hrun as (evs1 & st1 & r1 & H1 & Hrun & ->).
  apply pbind_Ok_inv in Hrun. destruct Hrun as (evs2 & st2 & r2 & H2 & Hrun & ->).
  apply pbind_Ok_inv in Hrun. destruct Hrun as (evs3 & st3 & r3 & H3 & Hrun & ->).
  apply pbind_Ok_inv in Hrun. destruct Hrun as (evs4 & st4 & evs5 & H4 & Hrun & ->).
  exists evs1, st1, evs2, st2, evs3, st3, evs4, st4, evs5. auto 10.
Qed.

Lemma none_of_In (kind : event -> bool) (evs : list event) (e : event) :
  none_of kind evs -> In e evs -> kind e = false.
Proof.
  unfold none_of. rewrite Forall_forall. auto.
Qed.

(** When a generation gets as far as calling [es.tell], the three phases
    before the call have succeeded, and the lists told are those the
    script combined. *)
Lemma generation_told (a : args) (st : globals) (ps : list params) (fs : list npfloat) :
  In (Told ps fs) (fst (generation max_action fuel a st)) ->
  exists st1 evs2 st2 evs3 st3 rest,
    ask_population a st = ([], Ok st1) /\
    rl_phase max_action fuel a st1 = (evs2, Ok st2) /\
    ea_phase max_action fuel a st2 = (evs3, Ok st3) /\
    ps = combined_params st3 /\ fs = combined_fitness st3 /\
    fst (generation max_action fuel a st) = evs2 ++ evs3 ++ Told ps fs :: rest /\
    none_of is_evaluated rest.
Proof.
  unfold generation. intros Hin.
  pose proof (ask_population_events a st) as Hask.
  destruct (ask_population a st) as [evs1 [st1| |]] eqn:H1; simpl in Hask; subst evs1;
    try (exfalso; exact Hin).
  unfold pbind at 1 in Hin. unfold pbind at 1. cbn [fst snd app] in *.
  pose proof (rl_phase_events (fun e => is_told e = false) a st1
                (fun _ => eq_refl) (fun _ => eq_refl) (fun _ _ _ => eq_refl)) as Hrl.
  destruct (rl_phase max_action fuel a st1) as [evs2 [st2| |]] eqn:H2; simpl in Hrl;
    try (unfold pbind at 1 in Hin; cbn [fst snd] in Hin;
         pose proof (none_of_In _ Hrl Hin); discriminate).
  unfold pbind at 1 in Hin. unfold pbind at 1. cbn [fst snd] in *.
  pose proof (ea_phase_events (fun e => is_told e = false) a st2
                (fun _ _ _ => eq_refl)) as Hea.
  destruct (ea_phase max_action fuel a st2) as [evs3 [st3| |]] eqn:H3; simpl in Hea;
    try (unfold pbind at 1 in Hin; cbn [fst snd] in Hin;
         apply in_app_or in Hin; destruct Hin as [Hin|Hin];
         [pose proof (none_of_In _ Hrl Hin) | pose proof (none_of_In _ Hea Hin)]; discriminate).
  unfold pbind at 1 in Hin. unfold pbind at 1. cbn [fst snd] in *.
  rewrite pbind_events in *. rewrite tell_engine_events in *.
  set (rest := match snd (tell_engine st3) with
               | Ok a0 => fst (save_stuff a a0)
               | _ => []
               end) in *.
  assert (Hrest : Forall (fun e => is_told e = false /\ is_evaluated e = false) rest).
  { subst rest. destruct (snd (tell_engine st3)); try constructor.
    apply save_stuff_events; intros; split; reflexivity. }
  apply in_app_or in Hin. destruct Hin as [Hin|Hin];
    [pose proof (none_of_In _ Hrl Hin); discriminate|].
  apply in_app_or in Hin. destruct Hin as [Hin|Hin];
    [pose proof (none_of_In _ Hea Hin); discriminate|].
  simpl in Hin. destruct Hin as [Heq|Hin].
  - injection Heq as <- <-.
    exists st1, evs2, st2, evs3, st3, rest.
    repeat (split; [first [assumption | reflexivity]|]).
    eapply Forall_impl; [|exact Hrest]. intros e [_ He]. exact He.
  - rewrite Forall_forall in Hrest. destruct (Hrest _ Hin) as [Ht _]. discriminate.
Qed.

Lemma nth_error_fst_snd {A B : Type} (l : list (A * B)) : forall i x y,
  nth_error (map fst l) i = Some x -> nth_error (map snd l) i = Some y ->
  nth_error l i = Some (x, y).
Proof.
  induction l as [|[x0 y0] l IH]; intros [|i] x y; simpl; try discriminate.
  - now intros [= <-] [= <-].
  - apply IH.
Qed.

(** C1.  Whenever a generation calls [es.tell], the parameter list and the
    fitness list it passes have the same length and pair up index by
    index: first the vectors of the evolutionary candidates, as [es.ask]
    gave them, with the fitness each got, then the vectors of the gradient
    actors with theirs; at every index the fitness is the one returned by
    the evaluation of the network holding that vector. *)
Theorem tell_lists_correspond (a : args) (st : globals)
    (ps : list params) (fs : list npfloat) :
  In (Told ps fs) (fst (generation max_action fuel a st)) ->
  length ps = length fs /\
  exists ea rl : list (params * npfloat),
    evaluations (fst (generation max_action fuel a st)) = rl ++ ea /\
    ps = map fst ea ++ map fst rl /\
    fs = map snd ea ++ map snd rl /\
    (exists g', ask (pop_size a) (es st) (gen st) = Ok (map fst ea, g')) /\
    forall i p f,
      nth_error ps i = Some p -> nth_error fs i = Some f ->
      In (p, f) (evaluations (fst (generation max_action fuel a st))).
Proof.
  intros Htold.
  destruct (generation_told _ _ _ _ Htold)
    as (st1 & evs2 & st2 & evs3 & st3 & rest & Hask & Hrl & Hea & -> & -> & Hevs & Hrest).
  apply ask_population_Ok in Hask.
  destruct Hask as (_ & Hasked & Hfrl1 & Hfea1 & Hps1 & _).
  apply rl_phase_Ok in Hrl.
  destruct Hrl as ((_ & _ & _ & _ & Heap2 & _) & Hps2 & Hfrl2 & Hfea2 & _).
  apply ea_phase_Ok in Hea.
  destruct Hea as (_ & _ & _ & _ & _ & Heap3 & Hps3 & Hfrl3 & Hfea3 & Hdone & _).
  rewrite Hps1 in Hps2. rewrite Hfrl1 in Hfrl2. simpl in Hps2, Hfrl2.
  rewrite Hfea2, Hfea1 in Hfea3. simpl in Hfea3.
  assert (Hps : combined_params st3 = map fst (evaluations evs3) ++ map fst (evaluations evs2)).
  { unfold combined_params. rewrite Heap3, <- Hdone, Hps3, Hps2.
    destruct (map fst (evaluations evs2)); simpl; [now rewrite app_nil_r | reflexivity]. }
  assert (Hfs : combined_fitness st3 = map snd (evaluations evs3) ++ map snd (evaluations evs2)).
  { unfold combined_fitness. now rewrite Hfea3, Hfrl3, Hfrl2. }
  assert (Hall : evaluations (fst (generation max_action fuel a st))
                 = evaluations evs2 ++ evaluations evs3).
  { rewrite Hevs, !evaluations_app.
    change (Told (combined_params st3) (combined_fitness st3) :: rest)
      with ([Told (combined_params st3) (combined_fitness st3)] ++ rest).
    rewrite evaluations_app, (evaluations_none Hrest). simpl. now rewrite app_nil_r. }
  split; [rewrite Hps, Hfs, !length_app, !length_map; reflexivity|].
  exists (evaluations evs3), (evaluations evs2).
  repeat (split; [assumption|]).
  split.
  { destruct Hasked as [g' Hasked]. exists g'. now rewrite Hdone, Heap2. }
  intros i p f Hp Hf. rewrite Hps, <- map_app in Hp. rewrite Hfs, <- map_app in Hf.
  pose proof (nth_error_fst_snd _ _ Hp Hf) as Hpair. apply nth_error_In in Hpair.
  rewrite Hall. apply in_app_or in Hpair. apply in_or_app. tauto.
Qed.

Lemma rollout_steps_none (evs : list event) :
  none_of is_evaluated evs -> rollout_steps evs = 0.
Proof.
  induction 1 as [|e evs He _ IH]; simpl; [reflexivity|].
  destruct e; simpl in *; try exact IH. discriminate.
Qed.

(** The accounts of a generation that completes: its events are those of
    the gradient actors' loop, then those of the candidates' loop, then
    the call of the engine and the checkpoint.  [total_steps] grows by the
    steps of the candidates' rollouts; the buffer grows by the steps of all
    rollouts. *)
Lemma generation_accounts (a : args) (st : globals) evs st' :
  generation max_action fuel a st = (evs, Ok st') ->
  exists evs_rl evs_ea rest,
    evs = evs_rl ++ evs_ea ++ rest /\
    none_of is_evaluated rest /\
    none_of is_update (evs_ea ++ rest) /\
    (total_steps st <= start_steps a -> evs_rl = []) /\
    (start_steps a < total_steps st ->
     forall i, (i < Z.to_nat (n_grad a))%nat ->
               In (ActorUpdate i) evs_rl /\ In (CriticUpdate i) evs_rl) /\
    0 <= rollout_steps evs_rl /\
    0 <= rollout_steps evs_ea /\
    rollout_steps evs = rollout_steps evs_rl + rollout_steps evs_ea /\
    total_steps st' = total_steps st + rollout_steps evs_ea /\
    exists ts, mem st' = fold_left add ts (mem st) /\
               Z.of_nat (length ts) = rollout_steps evs.
Proof.
  intros Hrun. apply generation_Ok in Hrun.
  destruct Hrun as (evs1 & st1 & evs2 & st2 & evs3 & st3 & evs4 & st4 & evs5
                    & Hask & Hrl & Hea & Htell & Hsave & ->).
  pose proof (tell_engine_events st3) as Htold. rewrite Htell in Htold. simpl in Htold.
  pose proof (save_stuff_events (fun e => is_evaluated e = false /\ is_update e = false)
                a st4 (fun _ => conj eq_refl eq_refl) (fun _ _ => conj eq_refl eq_refl)
                (fun _ _ _ => conj eq_refl eq_refl)) as Hsaved.
  rewrite Hsave in Hsaved. simpl in Hsaved.
  apply ask_population_Ok in Hask.
  destruct Hask as (-> & _ & _ & _ & _ & Ht1 & _ & _ & Hm1).
  assert (Hwarm : total_steps st <= start_steps a -> evs2 = []).
  { intros Hle. rewrite rl_phase_warmup in Hrl by lia. now injection Hrl as <- _. }
  apply rl_phase_Ok in Hrl. rewrite Ht1 in Hrl.
  pose proof Hrl as ((Ht2 & _ & _ & _ & _ & _ & Hpos2 & ts2 & Hm2 & Hl2) & _).
  apply ea_phase_Ok in Hea.
  destruct Hea as (Ht3 & _ & Hpos3 & _ & _ & _ & _ & _ & _ & _ & (ts3 & Hm3 & Hl3) & Hupd3).
  apply tell_engine_Ok in Htell. destruct Htell as (Ht4 & _ & _ & Hm4 & _).
  apply save_stuff_Ok in Hsave. destruct Hsave as (Ht5 & Hm5).
  assert (Hrest : none_of is_evaluated (evs4 ++ evs5)).
  { subst evs4. constructor; [reflexivity|].
    eapply Forall_impl; [|exact Hsaved]. intros e [He _]. exact He. }
  assert (Hrest' : none_of is_update (evs3 ++ evs4 ++ evs5)).
  { apply Forall_app. split; [exact Hupd3|]. subst evs4. constructor; [reflexivity|].
    eapply Forall_impl; [|exact Hsaved]. intros e [_ He]. exact He. }
  exists evs2, evs3, (evs4 ++ evs5). simpl.
  split; [reflexivity|]. split; [exact Hrest|]. split; [exact Hrest'|].
  split; [exact Hwarm|].
  split.
  { intros Hactive i Hi. destruct Hrl as (_ & _ & _ & _ & Hupd).
    apply Hupd. destruct (Z.gtb_spec (total_steps st) (start_steps a)); [|lia].
    apply in_seq. lia. }
  split; [exact Hpos2|]. split; [exact Hpos3|].
  assert (Hsum : rollout_steps (evs2 ++ evs3 ++ evs4 ++ evs5)
                 = rollout_steps evs2 + rollout_steps evs3).
  { rewrite !rollout_steps_app. rewrite <- rollout_steps_app.
    rewrite (rollout_steps_none Hrest). lia. }
  split; [exact Hsum|].
  split; [lia|].
  exists (ts2 ++ ts3). split.
  - rewrite Hm5, Hm4, Hm3, Hm2, Hm1. now rewrite fold_left_app.
  - rewrite Hsum, length_app. lia.
Qed.


Lemma generation_total_steps_grow (a : args) (st : globals) evs st' :
  generation max_action fuel a st = (evs, Ok st') -> total_steps st <= total_steps st'.
Proof.
  intros Hrun. apply generation_accounts in Hrun.
  destruct Hrun as (evs_rl & evs_ea & rest & _ & _ & _ & _ & _ & _ & Hpos & _ & Ht & _). lia.
Qed.


(** C9.  With a buffer, [evaluate] hands it one transition for every
    environment step of every rollout, in order, holding the observation,
    the next observation, the action and the reward of the step; without a
    buffer it hands over nothing.  Both loops of the training script call
    it with the shared buffer: over a generation the buffer grows by one
    transition for every step of every rollout, of gradient actors and of
    evolutionary candidates alike. *)
Theorem every_step_recorded :
  (forall actor random noise render_flag n_episodes env g (m : memory),
      evaluate max_action actor random noise render_flag fuel (Some m) n_episodes env g =
      '(eps, env', g') <-
         rollouts max_action actor random noise render_flag fuel
           (Z.to_nat n_episodes) env g ;;
      Ok (np_mean (map episode_return eps),
          Z.of_nat (length (concat eps)),
          Some (fold_left add (recorded 0 (concat eps)) m),
          env', g')) /\
  (forall steps (l : list env_step),
      length (recorded steps l) = length l /\
      Forall2 (fun (t : transition) s =>
                 fst t = (at_obs s, to_obs s, taken s, reward_of s))
              (recorded steps l) l) /\
  (forall actor random noise render_flag n_episodes env g,
      evaluate max_action actor random noise render_flag fuel None n_episodes env g =
      '(eps, env', g') <-
         rollouts max_action actor random noise render_flag fuel
           (Z.to_nat n_episodes) env g ;;
      Ok (np_mean (map episode_return eps),
          Z.of_nat (length (concat eps)),
          None,
          env', g')) /\
  (forall a st evs st',
      generation max_action fuel a st = (evs, Ok st') ->
      exists ts,
        mem st' = fold_left add ts (mem st) /\
        Z.of_nat (length ts) = rollout_steps evs).
Proof.
  split; [intros; exact (evaluate_rollouts _ _ _ _ _ _ (Some m) _ _ _)|].
  split.
  { intros steps l. split; [apply recorded_length|].
    revert steps. induction l as [|s l IH]; intros steps; simpl; constructor; auto. }
  split; [intros; exact (evaluate_rollouts _ _ _ _ _ _ None _ _ _)|].
  intros a st evs st' Hrun. apply generation_accounts in Hrun.
  destruct Hrun as (evs_rl & evs_ea & rest & _ & _ & _ & _ & _ & _ & _ & _ & _ & Hmem).
  exact Hmem.
Qed.

(** *** The loop and its generations *)

(** A run of the [while] loop that ends has gone through generations
    related by [follows], and ends with the budget reached. *)
Lemma train_follows (gens : nat) (a : args) : forall st evs st',
  train max_action fuel gens a st = (evs, Ok st') ->
  follows max_action fuel a st st' /\ max_steps a <= total_steps st'.
Proof.
  induction gens as [|gens IH]; intros st evs st'; simpl;
    destruct (Z.ltb_spec (total_steps st) (max_steps a)) as [Hlt|Hge].
  - discriminate.
  - unfold ret. intros Hrun. injection Hrun as _ <-. split; [constructor | lia].
  - intros Hrun. apply pbind_Ok_inv in Hrun.
    destruct Hrun as (evs1 & st1 & evs2 & Hgen & Hrest & _).
    destruct (IH _ _ _ Hrest) as [Hfollows Hend].
    split; [econstructor; eauto | exact Hend].
  - unfold ret. intros Hrun. injection Hrun as _ <-. split; [constructor | lia].
Qed.

(** X3.  The cadence of the checkpoints: below the period nothing is written
    and nothing changes; at or above it, a checkpoint that succeeds
    pickles the log as it stood, saves the critic first, appends the row of
    the period, stamped with [total_steps], and resets [step_cpt] to 0. *)
Theorem checkpoint_cadence (a : args) (st : globals) :
  (step_cpt st < period a -> save_stuff a st = ([], Ok st)) /\
  (forall evs st',
      period a <= step_cpt st ->
      save_stuff a st = (evs, Ok st') ->
      exists row rest,
        evs = Pickled (df st) :: SavedCritic (total_steps st) (critic st) :: rest /\
        df st' = df st ++ [row] /\
        row_total_steps row = total_steps st /\
        average_score_ea row = np_mean_array (fitness_ea st) /\
        average_score_rl row = np_mean_array (fitness_rl st) /\
        average_score row = np_mean_array (combined_fitness st) /\
        np_max (combined_fitness st) = Ok (best_score row) /\
        step_cpt st' = 0).
Proof.
  split; [apply save_stuff_skip|].
  intros evs st' Hdue Hrun.
  destruct (save_stuff_due _ _ Hdue Hrun) as (best & rest & Hbest & -> & Hdf & Hcpt & _).
  do 2 eexists. split; [reflexivity|]. split; [exact Hdf|]. simpl. auto 10.
Qed.

End LoopFacts.

(** ** The script on the short track *)

(** The first generation from [Toy.start] completes and leaves
    [Toy.warmed]. *)
Lemma first_generation_warms :
  snd (generation 1 3 Toy.settings Toy.start) = Ok Toy.warmed /\
  total_steps Toy.warmed = 4 /\
  length (mem Toy.warmed) = 4%nat.
Proof. repeat split. Qed.

(** The second generation on the short track: the gradient actor and the
    two candidates are evaluated, and the engine is told the two
    candidates first, then the actor. *)
Lemma tell_lists_correspond_witness :
  length [0%Q; 1%Q; 0%Q] = length [Fin 3; Fin 1; Fin 3] /\
  exists ea rl : list (Q * npfloat),
    evaluations (fst (generation 1 3 Toy.settings Toy.warmed)) = rl ++ ea /\
    [0%Q; 1%Q; 0%Q] = map fst ea ++ map fst rl /\
    [Fin 3; Fin 1; Fin 3] = map snd ea ++ map snd rl /\
    (exists g', ask (Engine := Toy.search) (pop_size Toy.settings) (es Toy.warmed)
                  (gen Toy.warmed) = Ok (map fst ea, g')) /\
    forall i p f,
      nth_error [0%Q; 1%Q; 0%Q] i = Some p ->
      nth_error [Fin 3; Fin 1; Fin 3] i = Some f ->
      In (p, f) (evaluations (fst (generation 1 3 Toy.settings Toy.warmed))).
Proof.
  apply (@tell_lists_correspond Toy.short_track Toy.buffer Toy.nets Toy.search
           1 3%nat Toy.settings Toy.warmed [0%Q; 1%Q; 0%Q] [Fin 3; Fin 1; Fin 3]).
  vm_compute. do 5 right. left. reflexivity.
Defined.

(** C2 against the code.  In the second generation on the short track the
    rollouts take 7 environment steps: 3 by the gradient actor, 4 by the
    two candidates.  [actor_steps] is set back to 0 between the two loops,
    so [total_steps] and [step_cpt] go from 4 to 8, not to 11; and the loop,
    whose budget is 10 steps, goes on after 11 steps have been taken. *)
Lemma gradient_steps_not_counted :
  exists evs st',
    generation 1 3 Toy.no_checkpoint Toy.warmed = (evs, Ok st') /\
    evaluations evs = [(0%Q, Fin 3); (0%Q, Fin 3); (1%Q, Fin 1)] /\
    rollout_steps evs = 7 /\
    total_steps Toy.warmed = 4 /\ total_steps st' = 8 /\
    step_cpt Toy.warmed = 4 /\ step_cpt st' = 8 /\
    length (mem st') = 11%nat /\
    (total_steps st' <? max_steps Toy.no_checkpoint) = true.
Proof.
  do 2 eexists. repeat split.
Qed.

(** C4 as stated fails on a buffer of 4 transitions and a batch size of
    100, past the warm-up threshold.  Over a buffer that raises when it
    holds less than a batch, the generation ends with the exception: the
    run does not continue.  Over a buffer that draws with replacement the
    actor and the critic are updated on a batch of 100 draws: the update is
    not skipped. *)
Lemma small_buffer_update_not_skipped :
  length (mem Toy.warmed) = 4%nat /\ length (mem Toy.strict_warmed) = 4%nat /\
  batch_size Toy.default_batch = 100 /\
  (start_steps Toy.default_batch <? total_steps Toy.warmed) = true /\
  generation 1 3 Toy.default_batch Toy.strict_warmed = ([], Raise ValueError) /\
  (exists evs st',
      generation 1 3 Toy.default_batch Toy.warmed
        = (ActorUpdate 0 :: CriticUpdate 0 :: evs, Ok st') /\
      actors Toy.warmed = [(0%Q, 0%nat)] /\ actors st' = [(0%Q, 1%nat)] /\
      critic Toy.warmed = 0%nat /\ critic st' = 1%nat).
Proof.
  repeat split. do 2 eexists. repeat split.
Qed.

(** C6 against the code.  The second generation on the short track reaches
    the checkpoint period of 5 with [step_cpt] at 8.  The row of the period
    is appended to the log and the counter reset, but the log was pickled
    before the row was appended: the snapshot on disk is the empty log, and
    no snapshot of this checkpoint holds the row. *)
Lemma snapshot_misses_the_row :
  exists evs st' row,
    generation 1 3 Toy.settings Toy.warmed = (evs, Ok st') /\
    (period Toy.settings <=? 8) = true /\
    df Toy.warmed = [] /\ df st' = [row] /\ row_total_steps row = 8 /\
    step_cpt st' = 0 /\
    In (Pickled []) evs /\
    (forall log, In (Pickled log) evs -> log = [] /\ ~ In row log).
Proof.
  do 3 eexists. do 6 (split; [reflexivity|]).
  split; [simpl; tauto|].
  intros log Hin. simpl in Hin.
  repeat (destruct Hin as [Hin|Hin]; try discriminate); [|contradiction].
  injection Hin as <-. split; [reflexivity | intros []].
Qed.

(** ** The done flag of a single episode *)

(** X1.  With [n_episodes = 1], the default, the step counter of the call is
    the step counter of the episode: the last transition handed to the
    buffer carries flag 0 exactly when the episode ran to the step limit,
    and flag 1 when it ended before. *)
Theorem single_episode_flag {E : Environment} {Mem : Memory}
    (max_action : Z) (actor : observation -> action) (random : bool)
    (noise : option (rng -> action * rng)) (render_flag : bool) (fuel : nat)
    (m : memory) (env : sim) (g : rng) f steps m' env' g' :
  evaluate max_action actor random noise render_flag fuel (Some m) 1 env g
    = Ok (f, steps, Some m', env', g') ->
  exists ts t,
    m' = fold_left add (ts ++ [t]) m /\
    Z.of_nat (length (ts ++ [t])) = steps /\
    done_flag t = truncation_flag steps.
Proof.
  rewrite evaluate_rollouts. change (Z.to_nat 1) with 1%nat. simpl.
  destruct (reset env) as [obs env0].
  destruct (rollout max_action actor random noise render_flag fuel obs env0 g)
    as [[[ep env1] g1]| |] eqn:Hep; simpl; try discriminate.
  intros Hret. injection Hret as _ <- <- _ _.
  destruct (rollout_full _ _ _ _ _ _ _ _ _ Hep) as (init & last & -> & Hdone & _).
  rewrite app_nil_r, recorded_app. simpl.
  eexists _, _. split; [reflexivity|].
  rewrite !length_app, recorded_length. simpl. split; [reflexivity|].
  unfold done_flag, truncation_flag. simpl. rewrite Hdone.
  replace (Z.of_nat (length init + 1)) with (Z.of_nat (length init) + 1) by lia.
  destruct (Z.of_nat (length init) + 1 =? max_episode_steps); reflexivity.
Qed.

(** One episode to the limit of the short track: the third transition
    carries flag 0. *)
Lemma single_episode_flag_witness :
  exists ts t,
    [ (0, 1, [0%Q], 1%Q, 0%Q); (1, 2, [0%Q], 1%Q, 0%Q); (2, 3, [0%Q], 1%Q, 0%Q) ]
      = fold_left (add (Memory := Toy.buffer)) (ts ++ [t]) [] /\
    Z.of_nat (length (ts ++ [t])) = 3 /\
    done_flag t = truncation_flag (H := Toy.short_track) 3.
Proof.
  apply (@single_episode_flag Toy.short_track Toy.buffer 1 (fun _ => [0%Q]) false None
           false 3%nat [] 0 tt (Fin (3 / 1)) 3 _ 0 tt).
  reflexivity.
Defined.

(** ** [evaluate]: edges *)

(** X4.  With [n_episodes <= 0] the loop over the episodes is empty:
    [evaluate] returns [nan] as the mean of no score and 0 steps, for any
    iteration budget, without a reset of the environment, a step or a
    transition handed to the buffer. *)
Theorem evaluate_no_episode {E : Environment} {Mem : Memory}
    (max_action : Z) (actor : observation -> action) (random : bool)
    (noise : option (rng -> action * rng)) (render_flag : bool)
    (fuel : nat) (mem : option memory) (n_episodes : Z) (env : sim) (g : rng) :
  n_episodes <= 0 ->
  evaluate max_action actor random noise render_flag fuel mem n_episodes env g
    = Ok (NaN, 0, mem, env, g).
Proof.
  intros Hn. unfold evaluate.
  replace (Z.to_nat n_episodes) with 0%nat by lia. reflexivity.
Qed.

Lemma evaluate_no_episode_witness :
  evaluate (H := Toy.endless) (Mem := Toy.strict_memory Toy.endless)
    1 (fun _ => [0%Q]) false None false 0 (Some []) (-1) 7 tt
  = Ok (NaN, 0, Some [], 7, tt).
Proof.
  apply (@evaluate_no_episode Toy.endless (Toy.strict_memory Toy.endless)). lia.
Defined.

Section RandomPolicy.
Context {E : Environment} {Mem : Memory}.

Lemma episode_random (max_action max_action' : Z) (actor actor' : observation -> action)
    (noise noise' : option (rng -> action * rng)) (render_flag : bool) (fuel : nat) :
  forall obs score steps mem env g,
    episode max_action actor true noise render_flag fuel obs score steps mem env g =
    episode max_action' actor' true noise' render_flag fuel obs score steps mem env g.
Proof.
  induction fuel as [|fuel IH]; intros obs score steps mem env g; simpl; [reflexivity|].
  destruct (action_space_sample g) as [a g1]. simpl.
  destruct (step a env) as [[[n_obs reward] done] env1].
  destruct done; [reflexivity | apply IH].
Qed.

Lemma episodes_random (max_action max_action' : Z) (actor actor' : observation -> action)
    (noise noise' : option (rng -> action * rng)) (render_flag : bool) (fuel : nat)
    (n : nat) :
  forall scores steps mem env g,
    episodes max_action actor true noise render_flag fuel n scores steps mem env g =
    episodes max_action' actor' true noise' render_flag fuel n scores steps mem env g.
Proof.
  induction n as [|n IH]; intros scores steps mem env g; simpl; [reflexivity|].
  destruct (reset env) as [obs env0].
  rewrite (episode_random max_action max_action' actor actor' noise noise').
  destruct (episode max_action' actor' true noise' render_flag fuel obs 0%Q steps mem env0 g)
    as [[[[[score steps1] mem1] env1] g1]| |]; simpl; [apply IH | reflexivity | reflexivity].
Qed.

(** X5.  With [random=True] the closure [policy] only draws from the
    action space: the actor, the noise source and [max_action] have no
    effect on what [evaluate] returns, records or leaves behind. *)
Theorem random_policy_ignores_actor
    (max_action max_action' : Z) (actor actor' : observation -> action)
    (noise noise' : option (rng -> action * rng)) (render_flag : bool)
    (fuel : nat) (mem : option memory) (n_episodes : Z) (env : sim) (g : rng) :
  evaluate max_action actor true noise render_flag fuel mem n_episodes env g =
  evaluate max_action' actor' true noise' render_flag fuel mem n_episodes env g.
Proof.
  unfold evaluate.
  now rewrite (episodes_random max_action max_action' actor actor' noise noise').
Qed.

End RandomPolicy.

(** ** [evaluate]: the flags and the number of steps *)

Section FlagsAndSteps.
Context {E : Environment} {Mem : Memory}.

Variable max_action : Z.
Variable actor : observation -> action.
Variable random : bool.
Variable noise : option (rng -> action * rng).
Variable render_flag : bool.

Lemma recorded_flags (l : list env_step) : forall steps,
  Forall (fun t : transition => done_flag t = 0%Q \/ done_flag t = 1%Q) (recorded steps l).
Proof.
  induction l as [|s l IH]; intros steps; simpl; constructor; [|apply IH].
  unfold done_flag. simpl.
  destruct (steps + 1 =? max_episode_steps); [now left|].
  destruct (done_of s); simpl; auto.
Qed.

Lemma recorded_marked (l : list env_step) : forall steps,
  (marked_terminal (recorded steps l) <= length (filter done_of l))%nat.
Proof.
  unfold marked_terminal.
  induction l as [|s l IH]; intros steps; simpl; [lia|].
  specialize (IH (steps + 1)).
  destruct (steps + 1 =? max_episode_steps); simpl.
  - destruct (done_of s); simpl; lia.
  - destruct (done_of s); simpl; lia.
Qed.

Lemma full_rollout_one_end (ep : list env_step) :
  full_rollout ep -> length (filter done_of ep) = 1%nat /\ (1 <= length ep)%nat.
Proof.
  intros (init & last & -> & Hlast & Hinit).
  rewrite filter_app, !length_app. simpl. rewrite Hlast. simpl.
  assert (Hnone : filter done_of init = []).
  { induction Hinit as [|s init Hs _ IH]; simpl; [reflexivity|]. now rewrite Hs. }
  rewrite Hnone. simpl. lia.
Qed.

Lemma full_rollouts_ends (eps : list (list env_step)) :
  Forall full_rollout eps ->
  length (filter done_of (concat eps)) = length eps /\
  (length eps <= length (concat eps))%nat.
Proof.
  induction 1 as [|ep eps Hep _ IH]; simpl; [auto|].
  destruct (full_rollout_one_end Hep) as [Hone Hlen].
  rewrite filter_app, !length_app. lia.
Qed.

(** X6.  The transitions a call of [evaluate] hands to the buffer carry
    flag 0 or flag 1, and at most one per episode carries 1: only a step at
    which the environment said [done] can be marked terminal. *)
Theorem at_most_one_terminal_per_episode (fuel : nat) (m : memory) (n_episodes : Z)
    (env : sim) (g : rng) f steps m' env' g' :
  evaluate max_action actor random noise render_flag fuel (Some m) n_episodes env g
    = Ok (f, steps, Some m', env', g') ->
  exists ts,
    m' = fold_left add ts m /\
    Z.of_nat (length ts) = steps /\
    Forall (fun t : transition => done_flag t = 0%Q \/ done_flag t = 1%Q) ts /\
    (marked_terminal ts <= Z.to_nat n_episodes)%nat.
Proof.
  rewrite evaluate_rollouts. intros Hret.
  apply bind_Ok_inv in Hret. destruct Hret as [[[eps env1] g1] [Hruns Hret]].
  injection Hret as _ <- <- _ _.
  destruct (rollouts_full _ _ _ _ _ _ _ _ _ Hruns) as [Hlen Hfull].
  destruct (full_rollouts_ends Hfull) as [Hends _].
  exists (recorded 0 (concat eps)).
  split; [reflexivity|]. split; [now rewrite recorded_length|].
  split; [apply recorded_flags|].
  rewrite <- Hlen, <- Hends. apply recorded_marked.
Qed.

(** Every episode takes at least one step. *)
Lemma evaluate_steps_lower (fuel : nat) (mem : option memory) (n_episodes : Z)
    (env : sim) (g : rng) f steps mem' env' g' :
  evaluate max_action actor random noise render_flag fuel mem n_episodes env g
    = Ok (f, steps, mem', env', g') ->
  Z.max 0 n_episodes <= steps.
Proof.
  rewrite evaluate_rollouts. intros Hret.
  apply bind_Ok_inv in Hret. destruct Hret as [[[eps env1] g1] [Hruns Hret]].
  injection Hret as _ <- _ _ _.
  destruct (rollouts_full _ _ _ _ _ _ _ _ _ Hruns) as [Hlen Hfull].
  destruct (full_rollouts_ends Hfull) as [_ Hmany]. lia.
Qed.

Context {TL : TimeLimit E}.

Lemma rollout_length (fuel : nat) : forall obs env g ep env' g',
  rollout max_action actor random noise render_flag fuel obs env g = Ok (ep, env', g') ->
  Z.of_nat (length ep) <= Z.max 1 (max_episode_steps - elapsed_steps env).
Proof.
  induction fuel as [|fuel IH]; intros obs env g ep env' g'; simpl; [discriminate|].
  destruct (policy max_action actor random noise obs g) as [[a g1]| |]; simpl;
    try discriminate.
  pose proof (elapsed_step a env) as Hcount.
  pose proof (done_at_limit a env) as Hlimit.
  destruct (step a env) as [[[n_obs reward] done] env1]. simpl in Hcount, Hlimit.
  destruct done.
  - intros Hret. injection Hret as <- _ _. simpl. lia.
  - intros Hret. apply bind_Ok_inv in Hret.
    destruct Hret as [[[rest env2] g2] [Hrest Hret]]. injection Hret as <- _ _.
    apply IH in Hrest.
    assert (Hsame : elapsed_steps (if render_flag then render env1 else env1)
                    = elapsed_steps env1).
    { destruct render_flag; [apply elapsed_render | reflexivity]. }
    rewrite Hsame in Hrest.
    assert (Hbelow : elapsed_steps env1 < max_episode_steps).
    { destruct (Z_lt_le_dec (elapsed_steps env1) max_episode_steps) as [Hlt|Hge];
        [exact Hlt|]. specialize (Hlimit Hge). discriminate. }
    simpl length. lia.
Qed.

Lemma rollouts_length (fuel : nat) (n : nat) : forall env g eps env' g',
  rollouts max_action actor random noise render_flag fuel n env g = Ok (eps, env', g') ->
  Z.of_nat (length (concat eps)) <= Z.of_nat n * Z.max 1 max_episode_steps.
Proof.
  induction n as [|n IH]; intros env g eps env' g'; simpl rollouts.
  - intros Hret. injection Hret as <- _ _. simpl. lia.
  - pose proof (elapsed_reset env) as Hzero.
    destruct (reset env) as [obs env0]. simpl in Hzero.
    intros Hret. apply bind_Ok_inv in Hret. destruct Hret as [[[ep env1] g1] [Hep Hret]].
    apply bind_Ok_inv in Hret. destruct Hret as [[[rest env2] g2] [Hrest Hret]].
    injection Hret as <- _ _.
    apply rollout_length in Hep. rewrite Hzero, Z.sub_0_r in Hep.
    apply IH in Hrest. simpl concat. rewrite length_app. lia.
Qed.

(** X7.  In an environment that keeps the time limit, a call of
    [evaluate] that returns has taken at least one step per episode and at
    most [max(1, max_episode_steps)] steps per episode. *)
Theorem evaluate_steps_between (fuel : nat) (mem : option memory) (n_episodes : Z)
    (env : sim) (g : rng) f steps mem' env' g' :
  evaluate max_action actor random noise render_flag fuel mem n_episodes env g
    = Ok (f, steps, mem', env', g') ->
  Z.max 0 n_episodes <= steps /\
  steps <= Z.max 0 n_episodes * Z.max 1 max_episode_steps.
Proof.
  intros Hret. split; [eapply evaluate_steps_lower; eauto|].
  rewrite evaluate_rollouts in Hret.
  apply bind_Ok_inv in Hret. destruct Hret as [[[eps env1] g1] [Hruns Hret]].
  injection Hret as _ <- _ _ _.
  apply rollouts_length in Hruns. lia.
Qed.

End FlagsAndSteps.

Section NeverDone.
Context {E : Environment} {Mem : Memory}.

Variable max_action : Z.
Variable actor : observation -> action.
Variable random : bool.
Variable noise : option (rng -> action * rng).
Variable render_flag : bool.

Lemma rollout_never_done (fuel : nat) :
  (forall a s, snd (fst (step a s)) = false) ->
  forall obs env g,
    (exists e, rollout max_action actor random noise render_flag fuel obs env g = Raise e)
    \/ rollout max_action actor random noise render_flag fuel obs env g = Hang.
Proof.
  intros Hnever. induction fuel as [|fuel IH]; intros obs env g; simpl; [now right|].
  destruct (policy max_action actor random noise obs g) as [[a g1]|e|]; simpl;
    [|left; eauto|now right].
  specialize (Hnever a env).
  destruct (step a env) as [[[n_obs reward] done] env1]. simpl in Hnever. subst done.
  destruct (IH n_obs (if render_flag then render env1 else env1) g1) as [[e ->]| ->];
    simpl; [left; eauto | now right].
Qed.

(** X8.  The [while not done] loop has no other exit than the
    environment's [done]: in an environment that never reports it, a call
    of [evaluate] with at least one episode does not return, whatever
    iteration budget the model is given. *)
Theorem evaluate_needs_done (fuel : nat) (mem : option memory) (n_episodes : Z)
    (env : sim) (g : rng) :
  (forall a s, snd (fst (step a s)) = false) ->
  1 <= n_episodes ->
  (exists e, evaluate max_action actor random noise render_flag fuel mem n_episodes env g
             = Raise e) \/
  evaluate max_action actor random noise render_flag fuel mem n_episodes env g = Hang.
Proof.
  intros Hnever Hn. rewrite evaluate_rollouts.
  destruct (Z.to_nat n_episodes) as [|n] eqn:Hnat; [lia|]. simpl.
  destruct (reset env) as [obs env0].
  destruct (rollout_never_done fuel Hnever obs env0 g) as [[e ->]| ->]; simpl;
    [left; eauto | now right].
Qed.

End NeverDone.

(** On the track without end, one episode with a budget of a thousand
    iterations. *)
Lemma evaluate_needs_done_witness :
  (exists e, evaluate (H := Toy.endless) (Mem := Toy.strict_memory Toy.endless)
               1 (fun _ => [0%Q]) false None false 1000 None 1 0 tt = Raise e) \/
  evaluate (H := Toy.endless) (Mem := Toy.strict_memory Toy.endless)
    1 (fun _ => [0%Q]) false None false 1000 None 1 0 tt = Hang.
Proof.
  apply (@evaluate_needs_done Toy.endless (Toy.strict_memory Toy.endless)).
  - intros a s. reflexivity.
  - lia.
Defined.

(** Two episodes on the short track, the first to the limit, the second
    too: six transitions, one of them marked terminal (see the wrong flag
    of the second episode above). *)
Lemma at_most_one_terminal_per_episode_witness :
  exists ts : list (@transition Toy.short_track),
    [ (0, 1, [0%Q], 1%Q, 0%Q); (1, 2, [0%Q], 1%Q, 0%Q); (2, 3, [0%Q], 1%Q, 0%Q);
      (0, 1, [0%Q], 1%Q, 0%Q); (1, 2, [0%Q], 1%Q, 0%Q); (2, 3, [0%Q], 1%Q, 1%Q) ]
      = fold_left (add (Memory := Toy.buffer)) ts [] /\
    Z.of_nat (length ts) = 6 /\
    Forall (fun t : @transition Toy.short_track => done_flag t = 0%Q \/ done_flag t = 1%Q) ts /\
    (marked_terminal ts <= Z.to_nat 2)%nat.
Proof.
  apply (@at_most_one_terminal_per_episode Toy.short_track Toy.buffer 1 (fun _ => [0%Q])
           false None false 3%nat [] 2 0 tt (Fin (6 / 2)) 6 _ 0 tt).
  reflexivity.
Defined.

(** The same call took 6 steps: between 2 and 2 times 3. *)
Lemma evaluate_steps_between_witness :
  Z.max 0 2 <= 6 /\ 6 <= Z.max 0 2 * Z.max 1 (@max_episode_steps Toy.short_track).
Proof.
  apply (@evaluate_steps_between Toy.short_track Toy.buffer 1 (fun _ => [0%Q])
           false None false (Toy.track_time_limit 3 [(-1)%Q] [1%Q])
           3%nat None 2 0 tt (Fin (6 / 2)) 6 None 0 tt).
  reflexivity.
Defined.

(** ** The training loop: progress, the log and the checkpoint counter *)

Section LoopProgress.
Context {E : Environment} {Mem : Memory} {Net : Networks} {Eng : Engine}.

Variable max_action : Z.
Variable fuel : nat.

Lemma evaluate_call_steps (a : args) (net : actor_net) (m : memory) (env : sim) (g : rng)
    f steps m' env' g' :
  evaluate_call max_action fuel a net m env g = Ok (f, steps, m', env', g') ->
  Z.max 0 (n_episodes a) <= steps.
Proof.
  unfold evaluate_call. intros Hret. apply bind_Ok_inv in Hret.
  destruct Hret as [[[[[f0 steps0] m0] env0] g0] [Heval Hret]].
  injection Hret as _ <- _ _ _.
  eapply evaluate_steps_lower; eauto.
Qed.

Lemma ea_body_steps (a : args) (p : params) (st : globals) evs st' :
  ea_body max_action fuel a p st = (evs, Ok st') ->
  Z.max 0 (n_episodes a) <= rollout_steps evs.
Proof.
  destruct st. unfold ea_body. intros Hrun.
  apply pbind_lift_Ok_inv in Hrun. destruct Hrun as ([[[[f steps] m] env1] g1] & Hcall & Hrun).
  apply pbind_emit_Ok_inv in Hrun. destruct Hrun as (evs' & Hrun & ->).
  unfold ret in Hrun. injection Hrun as <- _.
  apply evaluate_call_steps in Hcall. simpl. lia.
Qed.

Lemma ea_loop_steps (a : args) (l : list params) (st : globals) evs st' :
  for_each l (ea_body max_action fuel a) st = (evs, Ok st') ->
  Z.of_nat (length l) * Z.max 0 (n_episodes a) <= rollout_steps evs.
Proof.
  intros Hrun.
  eapply (for_each_invariant (ea_body max_action fuel a)
            (fun done evs _ =>
               Z.of_nat (length done) * Z.max 0 (n_episodes a) <= rollout_steps evs))
    with (done := []) (evs := []) in Hrun.
  - exact Hrun.
  - intros done p evs0 s evs' s' Hinv Hbody. apply ea_body_steps in Hbody.
    rewrite length_app, rollout_steps_app. simpl length. lia.
  - simpl. lia.
Qed.

Lemma ea_phase_steps (a : args) (st : globals) evs st' :
  ea_phase max_action fuel a st = (evs, Ok st') ->
  Z.of_nat (length (ea_params st)) * Z.max 0 (n_episodes a) <= rollout_steps evs.
Proof.
  destruct st. unfold ea_phase. intros Hrun.
  apply pbind_Ok_inv in Hrun. destruct Hrun as (evs1 & s1 & evs2 & Hloop & Hrest & ->).
  apply ea_loop_steps in Hloop.
  destruct s1. unfold ret in Hrest. injection Hrest as <- _.
  rewrite app_nil_r. exact Hloop.
Qed.

(** X9.  Every generation that completes advances [total_steps] by at
    least one step per episode of every candidate that [es.ask]
    returned. *)
Theorem generation_progress (a : args) (st : globals) evs st' :
  generation max_action fuel a st = (evs, Ok st') ->
  exists ps g',
    ask (pop_size a) (es st) (gen st) = Ok (ps, g') /\
    total_steps st + Z.of_nat (length ps) * Z.max 0 (n_episodes a) <= total_steps st'.
Proof.
  intros Hrun. apply generation_Ok in Hrun.
  destruct Hrun as (evs1 & st1 & evs2 & st2 & evs3 & st3 & evs4 & st4 & evs5
                    & Hask & Hrl & Hea & Htell & Hsave & ->).
  apply ask_population_Ok in Hask.
  destruct Hask as (_ & (g' & Hasked) & _ & _ & _ & Ht1 & _).
  apply rl_phase_Ok in Hrl. destruct Hrl as ((Ht2 & _ & _ & _ & Hps2 & _) & _).
  pose proof (ea_phase_steps _ _ Hea) as Hsteps.
  apply ea_phase_Ok in Hea. destruct Hea as (Ht3 & _).
  apply tell_engine_Ok in Htell. destruct Htell as (Ht4 & _).
  apply save_stuff_Ok in Hsave. destruct Hsave as (Ht5 & _).
  exists (ea_params st1), g'. split; [exact Hasked|].
  rewrite Hps2 in Hsteps. lia.
Qed.

(** With a candidate to evaluate and an episode to run, a generation
    takes at least one step. *)
Lemma generation_one_step (a : args) (st : globals) evs st' :
  (forall e g ps g', ask (pop_size a) e g = Ok (ps, g') -> ps <> []) ->
  1 <= n_episodes a ->
  generation max_action fuel a st = (evs, Ok st') ->
  total_steps st + 1 <= total_steps st'.
Proof.
  intros Hpop Hn Hrun. apply generation_Ok in Hrun.
  destruct Hrun as (evs1 & st1 & evs2 & st2 & evs3 & st3 & evs4 & st4 & evs5
                    & Hask & Hrl & Hea & Htell & Hsave & ->).
  apply ask_population_Ok in Hask.
  destruct Hask as (_ & (g' & Hasked) & _ & _ & _ & Ht1 & _).
  apply rl_phase_Ok in Hrl. destruct Hrl as ((Ht2 & _ & _ & _ & Hps2 & _) & _).
  pose proof (ea_phase_steps _ _ Hea) as Hsteps.
  apply ea_phase_Ok in Hea. destruct Hea as (Ht3 & _).
  apply tell_engine_Ok in Htell. destruct Htell as (Ht4 & _).
  apply save_stuff_Ok in Hsave. destruct Hsave as (Ht5 & _).
  rewrite Hps2 in Hsteps.
  assert (Hsome : (1 <= length (ea_params st1))%nat).
  { specialize (Hpop _ _ _ _ Hasked). destruct (ea_params st1); [congruence | simpl; lia]. }
  nia.
Qed.

(** X10.  When the engine never returns an empty population and every
    evaluation runs at least one episode, each completed generation takes
    at least one step, so a run from [st] goes through at most
    [max_steps - total_steps st] generations. *)
Theorem generations_bounded (a : args) (k : nat) (st st' : globals) :
  (forall e g ps g', ask (pop_size a) e g = Ok (ps, g') -> ps <> []) ->
  1 <= n_episodes a ->
  passes max_action fuel a k st st' ->
  total_steps st + Z.of_nat k <= total_steps st' /\
  Z.of_nat k <= Z.max 0 (max_steps a - total_steps st).
Proof.
  intros Hpop Hn Hrun.
  induction Hrun as [st|k st evs st1 st' Hguard Hgen _ IH]; [lia|].
  pose proof (generation_one_step _ _ Hpop Hn Hgen) as Hone.
  lia.
Qed.

End LoopProgress.

(** On the short track the engine returns two candidates: the two
    generations from [Toy.start] are at most ten. *)
Lemma generations_bounded_witness :
  total_steps Toy.start + Z.of_nat 2 <= 8 /\
  Z.of_nat 2 <= Z.max 0 (max_steps Toy.settings - total_steps Toy.start).
Proof.
  apply (@generations_bounded Toy.short_track Toy.buffer Toy.nets Toy.search
           1 3%nat Toy.settings 2%nat Toy.start
           (match snd (generation 1 3 Toy.settings Toy.warmed) with
            | Ok st => st
            | _ => Toy.start
            end)).
  - intros e g ps g' Hask. injection Hask as <- _. discriminate.
  - simpl. lia.
  - eapply passes_more; [reflexivity | reflexivity |].
    eapply passes_more; [reflexivity | reflexivity |].
    apply passes_none.
Defined.

(** The second generation on the short track: two candidates, one episode
    each, at least two steps. *)
Lemma generation_progress_witness :
  exists ps g',
    ask (Engine := Toy.search) (pop_size Toy.settings) (es Toy.warmed) (gen Toy.warmed)
      = Ok (ps, g') /\
    total_steps Toy.warmed + Z.of_nat (length ps) * Z.max 0 (n_episodes Toy.settings) <= 8.
Proof.
  apply (@generation_progress Toy.short_track Toy.buffer Toy.nets Toy.search
           1 3%nat Toy.settings Toy.warmed
           (fst (generation 1 3 Toy.settings Toy.warmed))
           (match snd (generation 1 3 Toy.settings Toy.warmed) with
            | Ok st => st
            | _ => Toy.start
            end)).
  reflexivity.
Defined.

Section LoopLog.
Context {E : Environment} {Mem : Memory} {Net : Networks} {Eng : Engine}.

Variable max_action : Z.
Variable fuel : nat.

(** The two ways a generation can end: below the period, with the counter
    grown by the steps [total_steps] grew by, and nothing pickled; or at
    the period, with one row more in the log and the counter at 0. *)
Lemma generation_checkpoint (a : args) (st : globals) evs st' :
  generation max_action fuel a st = (evs, Ok st') ->
  total_steps st <= total_steps st' /\
  ((step_cpt st + (total_steps st' - total_steps st) < period a /\
    step_cpt st' = step_cpt st + (total_steps st' - total_steps st) /\
    df st' = df st /\
    none_of is_pickled evs)
   \/
   (period a <= step_cpt st + (total_steps st' - total_steps st) /\
    step_cpt st' = 0 /\
    (exists row, df st' = df st ++ [row] /\ row_total_steps row = total_steps st') /\
    In (Pickled (df st)) evs)).
Proof.
  intros Hrun. assert (Hgrow := Hrun). apply generation_total_steps_grow in Hgrow.
  split; [exact Hgrow|].
  apply generation_Ok in Hrun.
  destruct Hrun as (evs1 & st1 & evs2 & st2 & evs3 & st3 & evs4 & st4 & evs5
                    & Hask & Hrl & Hea & Htell & Hsave & ->).
  pose proof (rl_phase_events max_action fuel (fun e => is_pickled e = false) a st1
                (fun _ => eq_refl) (fun _ => eq_refl) (fun _ _ _ => eq_refl)) as Hk2.
  rewrite Hrl in Hk2. simpl in Hk2.
  pose proof (ea_phase_events max_action fuel (fun e => is_pickled e = false) a st2
                (fun _ _ _ => eq_refl)) as Hk3.
  rewrite Hea in Hk3. simpl in Hk3.
  pose proof (tell_engine_events st3) as Hk4. rewrite Htell in Hk4. simpl in Hk4.
  apply ask_population_Ok in Hask.
  destruct Hask as (-> & _ & _ & _ & _ & Ht1 & Hc1 & Hd1 & _).
  apply rl_phase_Ok in Hrl. destruct Hrl as ((Ht2 & Hc2 & Hd2 & _) & _).
  apply ea_phase_Ok in Hea. destruct Hea as (Ht3 & Hc3 & _ & Hd3 & _).
  apply tell_engine_Ok in Htell. destruct Htell as (Ht4 & Hc4 & Hd4 & _).
  pose proof (save_stuff_Ok _ _ Hsave) as (Ht5 & _).
  assert (Hc : step_cpt st4 = step_cpt st + (total_steps st' - total_steps st)) by lia.
  assert (Hd : df st4 = df st) by congruence.
  destruct (Z_lt_le_dec (step_cpt st4) (period a)) as [Hlt|Hdue].
  - left. rewrite save_stuff_skip in Hsave by exact Hlt. injection Hsave as <- <-.
    repeat split; try lia; try assumption.
    simpl. unfold none_of. rewrite !Forall_app. subst evs4.
    repeat split; try assumption; repeat constructor.
  - right. destruct (save_stuff_due _ _ Hdue Hsave)
      as (best & rest & _ & -> & Hrow & Hzero & _).
    split; [lia|]. split; [exact Hzero|]. split.
    + eexists. split; [rewrite Hrow, Hd; reflexivity|]. simpl. lia.
    + rewrite <- Hd. simpl. apply in_or_app. right. apply in_or_app. right.
      apply in_or_app. right. simpl. auto.
Qed.

(** X12.  After a generation that completes, [step_cpt] is the old
    counter plus the steps [total_steps] grew by, or 0 if that sum reached
    the period; and the log is pickled in the generation exactly in the
    second case. *)
Theorem step_cpt_follows_total_steps (a : args) (st : globals) evs st' :
  generation max_action fuel a st = (evs, Ok st') ->
  step_cpt st' =
    (if period a <=? step_cpt st + (total_steps st' - total_steps st)
     then 0 else step_cpt st + (total_steps st' - total_steps st)) /\
  ((exists log, In (Pickled log) evs)
   <-> period a <= step_cpt st + (total_steps st' - total_steps st)) /\
  (0 < period a -> step_cpt st' < period a).
Proof.
  intros Hrun. apply generation_checkpoint in Hrun.
  destruct Hrun as (_ & [(Hlt & Hc & _ & Hnone) | (Hdue & Hc & _ & Hin)]).
  - destruct (Z.leb_spec (period a) (step_cpt st + (total_steps st' - total_steps st)));
      [lia|].
    split; [exact Hc|]. split; [|lia].
    split; [|lia]. intros (log & Hin).
    pose proof (none_of_In _ Hnone Hin). discriminate.
  - destruct (Z.leb_spec (period a) (step_cpt st + (total_steps st' - total_steps st)));
      [|lia].
    split; [exact Hc|]. split; [|lia].
    split; [auto | eauto].
Qed.

Lemma follows_total_steps_grow (a : args) (st st' : globals) :
  follows max_action fuel a st st' -> total_steps st <= total_steps st'.
Proof.
  induction 1 as [st|st evs st1 st' _ Hgen _ IH]; [lia|].
  apply generation_total_steps_grow in Hgen. lia.
Qed.

(** X11.  The log only grows: whatever the generations a run goes
    through, the log it ends with is the log it started with followed by
    the rows appended since, each stamped with a step count between the
    [total_steps] at the start and at the end. *)
Theorem log_is_append_only (a : args) (st st' : globals) :
  follows max_action fuel a st st' ->
  exists rows,
    df st' = df st ++ rows /\
    Forall (fun row => total_steps st <= row_total_steps row <= total_steps st') rows.
Proof.
  induction 1 as [st|st evs st1 st' _ Hgen Hrest IH].
  - exists []. split; [now rewrite app_nil_r | constructor].
  - destruct IH as (rows & Hdf & Hstamps).
    apply follows_total_steps_grow in Hrest.
    apply generation_checkpoint in Hgen.
    destruct Hgen as (Hgrow & [(_ & _ & Hsame & _) | (_ & _ & (row & Hrow & Hstamp) & _)]).
    + exists rows. split; [congruence|].
      eapply Forall_impl; [|exact Hstamps]. simpl. intros r Hr. lia.
    + exists (row :: rows). split.
      * rewrite Hdf, Hrow, <- app_assoc. reflexivity.
      * constructor; [lia|].
        eapply Forall_impl; [|exact Hstamps]. simpl. intros r Hr. lia.
Qed.

End LoopLog.

(** The second generation on the short track: the counter, at 4, and the
    4 steps counted reach the period of 5. *)
Lemma step_cpt_follows_total_steps_witness :
  0 = (if period Toy.settings <=? step_cpt Toy.warmed + (8 - total_steps Toy.warmed)
       then 0 else step_cpt Toy.warmed + (8 - total_steps Toy.warmed)) /\
  ((exists log, In (Pickled log) (fst (generation 1 3 Toy.settings Toy.warmed)))
   <-> period Toy.settings <= step_cpt Toy.warmed + (8 - total_steps Toy.warmed)) /\
  (0 < period Toy.settings -> 0 < period Toy.settings).
Proof.
  apply (@step_cpt_follows_total_steps Toy.short_track Toy.buffer Toy.nets Toy.search
           1 3%nat Toy.settings Toy.warmed
           (fst (generation 1 3 Toy.settings Toy.warmed))
           (match snd (generation 1 3 Toy.settings Toy.warmed) with
            | Ok st => st
            | _ => Toy.start
            end)).
  reflexivity.
Defined.

(** The two generations from [Toy.start]: the log goes from empty to one
    row, stamped 8. *)
Lemma log_is_append_only_witness :
  exists rows,
    df (match snd (generation 1 3 Toy.settings Toy.warmed) with
        | Ok st => st
        | _ => Toy.start
        end) = df Toy.start ++ rows /\
    Forall (fun row => total_steps Toy.start <= row_total_steps row <= 8) rows.
Proof.
  apply (@log_is_append_only Toy.short_track Toy.buffer Toy.nets Toy.search
           1 3%nat Toy.settings Toy.start
           (match snd (generation 1 3 Toy.settings Toy.warmed) with
            | Ok st => st
            | _ => Toy.start
            end)).
  eapply follows_pass; [reflexivity | reflexivity |].
  eapply follows_pass; [reflexivity | reflexivity |].
  apply follows_here.
Defined.

(** ** The training loop: what a checkpoint holds *)

Section LoopCheckpoint.
Context {E : Environment} {Mem : Memory} {Net : Networks} {Eng : Engine}.

Variable max_action : Z.
Variable fuel : nat.

Lemma save_actors_Ok (dir : Z) (nets : list actor_net) (l : list nat) evs u :
  for_each l (save_actor dir nets) tt = (evs, Ok u) ->
  (forall i, In i l ->
     exists net, nth_error nets i = Some net /\
                 In (SavedActor dir (actor_index i) net) evs) /\
  Forall (saved_under dir) evs.
Proof.
  intros Hrun.
  apply (for_each_invariant (save_actor dir nets)
           (fun done evs _ =>
              (forall i, In i done ->
                 exists net, nth_error nets i = Some net /\
                             In (SavedActor dir (actor_index i) net) evs) /\
              Forall (saved_under dir) evs))
    with (l := l) (done := []) (evs := []) (s := tt) (s' := u).
  - intros done i evs0 s evs' s' [Hinv Hunder] Hbody.
    unfold save_actor in Hbody.
    apply pbind_lift_Ok_inv in Hbody. destruct Hbody as (net & Hidx & Hemit).
    unfold index in Hidx. destruct (nth_error nets i) as [net'|] eqn:Hnth; [|discriminate].
    injection Hidx as ->. unfold emit in Hemit. injection Hemit as <- _.
    split.
    + intros j Hj. apply in_app_or in Hj. destruct Hj as [Hj|[<-|[]]].
      * destruct (Hinv j Hj) as (net0 & Hnth0 & Hin). exists net0.
        split; [exact Hnth0 | apply in_or_app; now left].
      * exists net. split; [exact Hnth | apply in_or_app; right; now left].
    + apply Forall_app. split; [exact Hunder|]. repeat constructor.
  - split; [intros i [] | constructor].
  - exact Hrun.
Qed.

Lemma save_stuff_saves (a : args) (st : globals) evs st' :
  period a <= step_cpt st ->
  save_stuff a st = (evs, Ok st') ->
  es st' = es st /\ critic st' = critic st /\ actors st' = actors st /\
  actor_ea st' = set_params (mu (es st)) (actor_ea st) /\
  In (SavedCritic (total_steps st) (critic st)) evs /\
  In (SavedActor (total_steps st) actor_mu (actor_ea st')) evs /\
  (forall i, (i < Z.to_nat (n_grad a))%nat ->
     exists net, nth_error (actors st) i = Some net /\
                 In (SavedActor (total_steps st) (actor_index i) net) evs) /\
  Forall (saved_under (total_steps st)) evs.
Proof.
  intros Hdue Hrun.
  unfold save_stuff in Hrun.
  destruct (Z.geb_spec (step_cpt st) (period a)); [|lia].
  destruct st. cbv beta iota zeta in Hrun.
  apply pbind_emit_Ok_inv in Hrun. destruct Hrun as (evs1 & Hrun & ->).
  apply pbind_lift_Ok_inv in Hrun. destruct Hrun as (best & Hbest & Hrun).
  apply pbind_emit_Ok_inv in Hrun. destruct Hrun as (evs2 & Hrun & ->).
  apply pbind_Ok_inv in Hrun. destruct Hrun as (evs3 & u & evs4 & Hsaved & Hrun & ->).
  apply pbind_emit_Ok_inv in Hrun. destruct Hrun as (evs5 & Hrun & ->).
  unfold ret in Hrun. injection Hrun as <- <-. simpl.
  apply save_actors_Ok in Hsaved. destruct Hsaved as [Hsaved Hunder].
  repeat split; auto.
  - right. right. apply in_or_app. right. now left.
  - intros i Hi.
    destruct (Hsaved i) as (net & Hnth & Hin).
    { apply in_seq. lia. }
    exists net. split; [exact Hnth|]. right. right. apply in_or_app. now left.
  - constructor; [exact I|]. constructor; [reflexivity|].
    apply Forall_app. split; [exact Hunder|]. repeat constructor.
Qed.

Lemma ask_population_frame (a : args) (st : globals) evs st' :
  ask_population a st = (evs, Ok st') -> es st' = es st.
Proof.
  destruct st. unfold ask_population. intros Hrun.
  apply pbind_lift_Ok_inv in Hrun. destruct Hrun as ([ps g'] & _ & Hrun).
  unfold ret in Hrun. injection Hrun as _ <-. reflexivity.
Qed.

Lemma tell_engine_told (st : globals) evs st' :
  tell_engine st = (evs, Ok st') ->
  tell (combined_params st) (combined_fitness st) (es st) = Ok (es st') /\
  critic st' = critic st /\ actors st' = actors st /\ actor_ea st' = actor_ea st.
Proof.
  unfold tell_engine. destruct st. simpl. intros Hrun.
  apply pbind_emit_Ok_inv in Hrun. destruct Hrun as (evs1 & Hrun & ->).
  apply pbind_lift_Ok_inv in Hrun. destruct Hrun as (e' & Htold & Hrun).
  unfold ret in Hrun. injection Hrun as _ <-. simpl. auto.
Qed.

Lemma Forall_saved_under_none (dir : Z) (evs : list event) :
  Forall (fun e => match e with
                   | SavedCritic _ _ | SavedActor _ _ _ => False
                   | _ => True
                   end) evs ->
  Forall (saved_under dir) evs.
Proof.
  intros Hnone. eapply Forall_impl; [|exact Hnone].
  intros [] Hno; simpl in *; auto; contradiction.
Qed.

(** X13.  What a checkpoint holds.  When a generation completes with its
    step counter at the period, the engine it ends with is the one
    [es.tell] returned for this generation's candidates; [actor_mu] is
    saved with the mean of that engine as its parameters; the critic and
    the gradient actors are saved as the generation leaves them; and every
    file is written under the [total_steps] the generation ends with. *)
Theorem checkpoint_holds_final_state (a : args) (st : globals) evs st' :
  generation max_action fuel a st = (evs, Ok st') ->
  period a <= step_cpt st + (total_steps st' - total_steps st) ->
  (exists ps fs, In (Told ps fs) evs /\ tell ps fs (es st) = Ok (es st')) /\
  get_params (actor_ea st') = mu (es st') /\
  In (SavedActor (total_steps st') actor_mu (actor_ea st')) evs /\
  In (SavedCritic (total_steps st') (critic st')) evs /\
  (forall i, (i < Z.to_nat (n_grad a))%nat ->
     exists net, nth_error (actors st') i = Some net /\
                 In (SavedActor (total_steps st') (actor_index i) net) evs) /\
  Forall (saved_under (total_steps st')) evs.
Proof.
  intros Hrun Hreached. apply generation_Ok in Hrun.
  destruct Hrun as (evs1 & st1 & evs2 & st2 & evs3 & st3 & evs4 & st4 & evs5
                    & Hask & Hrl & Hea & Htell & Hsave & ->).
  pose proof (rl_phase_events max_action fuel
                (fun e => match e with
                          | SavedCritic _ _ | SavedActor _ _ _ => False
                          | _ => True
                          end) a st1
                (fun _ => I) (fun _ => I) (fun _ _ _ => I)) as Hk2.
  rewrite Hrl in Hk2. simpl in Hk2.
  pose proof (ea_phase_events max_action fuel
                (fun e => match e with
                          | SavedCritic _ _ | SavedActor _ _ _ => False
                          | _ => True
                          end) a st2
                (fun _ _ _ => I)) as Hk3.
  rewrite Hea in Hk3. simpl in Hk3.
  pose proof (tell_engine_events st3) as Hk4. rewrite Htell in Hk4. simpl in Hk4.
  pose proof (ask_population_frame _ _ Hask) as He1.
  apply ask_population_Ok in Hask.
  destruct Hask as (-> & _ & _ & _ & _ & Ht1 & Hc1 & _).
  apply rl_phase_Ok in Hrl. destruct Hrl as ((Ht2 & Hc2 & _ & He2 & _) & _).
  apply ea_phase_Ok in Hea. destruct Hea as (Ht3 & Hc3 & _ & _ & He3 & _).
  pose proof (tell_engine_told _ Htell) as (Htold & Hcr4 & Hac4 & _).
  apply tell_engine_Ok in Htell. destruct Htell as (Ht4 & Hc4 & _).
  pose proof (save_stuff_Ok _ _ Hsave) as (Ht5 & _).
  assert (Hdue : period a <= step_cpt st4) by lia.
  destruct (save_stuff_saves _ _ Hdue Hsave)
    as (He5 & Hcr5 & Hac5 & Hmu & Hcritic & Hactor & Hactors & Hunder).
  rewrite <- Ht5 in Hcritic, Hactor, Hactors, Hunder.
  rewrite <- Hcr5 in Hcritic. rewrite <- Hac5 in Hactors.
  simpl. split; [|split; [|split; [|split; [|split]]]].
  - exists (combined_params st3), (combined_fitness st3). split.
    + apply in_or_app. right. apply in_or_app. right. subst evs4. now left.
    + rewrite He5. rewrite <- He1, <- He2, <- He3. exact Htold.
  - rewrite Hmu, He5. apply get_set_params.
  - apply in_or_app. right. apply in_or_app. right. apply in_or_app. now right.
  - apply in_or_app. right. apply in_or_app. right. apply in_or_app. now right.
  - intros i Hi. destruct (Hactors i Hi) as (net & Hnth & Hin).
    exists net. split; [exact Hnth|].
    apply in_or_app. right. apply in_or_app. right. apply in_or_app. now right.
  - rewrite !Forall_app. repeat split.
    + now apply Forall_saved_under_none.
    + now apply Forall_saved_under_none.
    + subst evs4. repeat constructor.
    + exact Hunder.
Qed.

(** X14.  During warm-up no gradient actor is evaluated, so the row a
    checkpoint appends has [nan] as its [average_score_rl] (the mean of an
    empty list), and its [average_score] is the mean over the candidates of
    the engine alone. *)
Theorem warmup_row_has_nan (a : args) (st : globals) evs st' :
  generation max_action fuel a st = (evs, Ok st') ->
  total_steps st <= start_steps a ->
  period a <= step_cpt st + (total_steps st' - total_steps st) ->
  exists row,
    df st' = df st ++ [row] /\
    row_total_steps row = total_steps st' /\
    average_score_rl row = NaN /\
    average_score_ea row = np_mean_array (map snd (evaluations evs)) /\
    average_score row = average_score_ea row.
Proof.
  intros Hrun Hwarm Hreached. apply generation_Ok in Hrun.
  destruct Hrun as (evs1 & st1 & evs2 & st2 & evs3 & st3 & evs4 & st4 & evs5
                    & Hask & Hrl & Hea & Htell & Hsave & ->).
  pose proof (tell_engine_events st3) as Hk4. rewrite Htell in Hk4. simpl in Hk4.
  pose proof (save_stuff_events
                (fun e => is_evaluated e = false) a st4
                (fun _ => eq_refl) (fun _ _ => eq_refl) (fun _ _ _ => eq_refl)) as Hk5.
  rewrite Hsave in Hk5. simpl in Hk5.
  apply ask_population_Ok in Hask.
  destruct Hask as (-> & _ & Hfr1 & Hfe1 & _ & Ht1 & Hc1 & Hd1 & _).
  rewrite rl_phase_warmup in Hrl by lia. injection Hrl as <- <-.
  apply ea_phase_Ok in Hea.
  destruct Hea as (Ht3 & Hc3 & _ & Hd3 & _ & _ & _ & Hfr3 & Hfe3 & _).
  apply tell_engine_Ok in Htell. destruct Htell as (Ht4 & Hc4 & Hd4 & _ & Hfe4 & Hfr4).
  pose proof (save_stuff_Ok _ _ Hsave) as (Ht5 & _).
  assert (Hdue : period a <= step_cpt st4) by lia.
  destruct (save_stuff_due _ _ Hdue Hsave) as (best & rest & _ & _ & Hrow & _).
  eexists. split; [rewrite Hrow; f_equal; congruence|].
  assert (Hrl_empty : fitness_rl st4 = []) by congruence.
  assert (Hevs : evaluations ([] ++ [] ++ evs3 ++ evs4 ++ evs5) = evaluations evs3).
  { simpl. rewrite !evaluations_app.
    rewrite (evaluations_none (evs := evs5)) by exact Hk5.
    subst evs4. simpl. now rewrite app_nil_r. }
  rewrite Hevs. unfold combined_fitness. rewrite Hrl_empty, app_nil_r. simpl.
  repeat split; try lia.
  rewrite Hfe4, Hfe3, Hfe1. reflexivity.
Qed.

End LoopCheckpoint.

(** The second generation on the short track writes the first checkpoint,
    under the step count 8. *)
Lemma checkpoint_holds_final_state_witness :
  (exists ps fs,
      In (Told ps fs) (fst (generation 1 3 Toy.settings Toy.warmed)) /\
      tell ps fs (es Toy.warmed) = Ok (es Toy.checkpointed)) /\
  get_params (actor_ea Toy.checkpointed) = mu (es Toy.checkpointed) /\
  In (SavedActor (total_steps Toy.checkpointed) actor_mu (actor_ea Toy.checkpointed))
     (fst (generation 1 3 Toy.settings Toy.warmed)) /\
  In (SavedCritic (total_steps Toy.checkpointed) (critic Toy.checkpointed))
     (fst (generation 1 3 Toy.settings Toy.warmed)) /\
  (forall i, (i < Z.to_nat (n_grad Toy.settings))%nat ->
     exists net, nth_error (actors Toy.checkpointed) i = Some net /\
                 In (SavedActor (total_steps Toy.checkpointed) (actor_index i) net)
                    (fst (generation 1 3 Toy.settings Toy.warmed))) /\
  Forall (saved_under (total_steps Toy.checkpointed))
         (fst (generation 1 3 Toy.settings Toy.warmed)).
Proof.
  apply (@checkpoint_holds_final_state Toy.short_track Toy.buffer Toy.nets Toy.search
           1 3%nat Toy.settings Toy.warmed
           (fst (generation 1 3 Toy.settings Toy.warmed)) Toy.checkpointed).
  - reflexivity.
  - simpl. lia.
Defined.

(** With a checkpoint every 4 steps the first generation from [Toy.start],
    in warm-up, appends a row. *)
Lemma warmup_row_has_nan_witness :
  exists row,
    df (match snd (generation 1 3 Toy.frequent Toy.start) with
        | Ok st => st
        | _ => Toy.start
        end) = df Toy.start ++ [row] /\
    row_total_steps row = 4 /\
    average_score_rl row = NaN /\
    average_score_ea row =
      np_mean_array (map snd (evaluations (fst (generation 1 3 Toy.frequent Toy.start)))) /\
    average_score row = average_score_ea row.
Proof.
  apply (@warmup_row_has_nan Toy.short_track Toy.buffer Toy.nets Toy.search
           1 3%nat Toy.frequent Toy.start
           (fst (generation 1 3 Toy.frequent Toy.start))
           (match snd (generation 1 3 Toy.frequent Toy.start) with
            | Ok st => st
            | _ => Toy.start
            end)).
  - reflexivity.
  - simpl. lia.
  - simpl. lia.
Defined.

(** ** The action bound as an integer *)

Lemma py_int_small (h : Q) : (-1 < h)%Q -> (h < 1)%Q -> py_int h = 0.
Proof.
  intros Hlow Hhigh. unfold py_int. unfold Qlt in *. simpl in *.
  destruct (Z_le_gt_dec 0 (Qnum h)) as [Hpos|Hneg].
  - apply Z.quot_small. lia.
  - replace (Qnum h) with (- (- Qnum h)) by lia.
    rewrite Z.quot_opp_l by lia. rewrite Z.quot_small by lia. reflexivity.
Qed.

Lemma np_clip_zero (a : list Q) :
  np_clip a (inject_Z (- 0)) (inject_Z 0) = repeat 0%Q (length a).
Proof.
  unfold np_clip. induction a as [|x a IH]; [reflexivity|].
  cbn [map length repeat]. rewrite IH. f_equal.
  unfold minimum, maximum. change (inject_Z (- 0)) with 0%Q. change (inject_Z 0) with 0%Q.
  destruct (Qle_bool x 0) eqn:Hx; [reflexivity|].
  destruct (Qle_bool 0 x) eqn:Hx'; [reflexivity|].
  exfalso.
  assert (~ (x <= 0)%Q) as Hn by (rewrite <- Qle_bool_iff; congruence).
  assert (~ (0 <= x)%Q) as Hn' by (rewrite <- Qle_bool_iff; congruence).
  apply Hn. apply Qlt_le_weak. now apply Qnot_le_lt.
Qed.

Lemma np_iadd_length (a b raw : list Q) :
  np_iadd a b = Ok raw -> length raw = length a.
Proof.
  unfold np_iadd. destruct (length a =? length b)%nat eqn:Hlen.
  - intros Hret. injection Hret as <-. apply Nat.eqb_eq in Hlen.
    rewrite length_map, length_combine. lia.
  - destruct b as [|x [|y b]]; try discriminate.
    intros Hret. injection Hret as <-. apply length_map.
Qed.

(** X15.  The bound of the clip is the integer part of the first upper
    bound of the action space.  When that bound lies strictly between -1
    and 1, [max_action] is 0, and whatever the actor answers and whatever
    noise is added, the policy of [evaluate] returns the zero vector. *)
Theorem fractional_bound_zeroes_actions `{Mem : Memory} (h : Q) (rest : list Q) (m : Z)
    (actor : observation -> action) (noise : option (rng -> action * rng))
    (obs : observation) (g : rng) (a : action) (g' : rng) :
  action_space_high = h :: rest ->
  (-1 < h)%Q -> (h < 1)%Q ->
  max_action_of action_space_high = Ok m ->
  policy m actor false noise obs g = Ok (a, g') ->
  m = 0 /\ a = repeat 0%Q (length (actor obs)).
Proof.
  intros Hhigh Hlow Hup Hmax Hact.
  rewrite Hhigh in Hmax. unfold max_action_of, index in Hmax. simpl in Hmax.
  injection Hmax as <-. rewrite (py_int_small Hlow Hup) in *.
  split; [reflexivity|].
  unfold policy in Hact. simpl in Hact.
  destruct noise as [noise_sample|]; simpl in Hact.
  - destruct (noise_sample g) as [n g1].
    destruct (np_iadd (actor obs) n) as [raw| |] eqn:Hadd; simpl in Hact; try discriminate.
    injection Hact as <- _. rewrite np_clip_zero.
    now rewrite (np_iadd_length _ _ Hadd).
  - injection Hact as <- _. apply np_clip_zero.
Qed.

(** On the gentle track the bound is 0.4: an actor that answers 5 is
    executed as 0. *)
Lemma fractional_bound_zeroes_actions_witness :
  0 = 0 /\ [0%Q] = repeat 0%Q (length [5%Q]).
Proof.
  apply (@fractional_bound_zeroes_actions Toy.gentle (Toy.lenient_memory Toy.gentle)
           (4 # 10)%Q [] 0 (fun _ => [5%Q]) None 0 tt [0%Q] tt).
  - reflexivity.
  - reflexivity.
  - reflexivity.
  - reflexivity.
  - reflexivity.
Defined.

(** ** The target actors are written, never read *)

Section TargetFacts.
Context {E : Environment} {Mem : Memory} {Net : Networks} {Eng : Engine}.

Variable max_action : Z.
Variable fuel : nat.

Lemma length_assign {A : Type} (l : list A) : forall i x, length (assign l i x) = length l.
Proof.
  induction l as [|y l IH]; intros [|i] x; simpl; auto.
Qed.

Lemma same_but_targets_refl (st : globals) : same_but_targets st st.
Proof.
  exists (actors_t st). split; [reflexivity | now destruct st].
Qed.

Lemma agree_refl (p : prog globals) : agree p p.
Proof.
  split; [reflexivity|]. destruct (snd p); auto using same_but_targets_refl.
Qed.

Lemma pbind_agree (m1 m2 : prog globals) (k1 k2 : globals -> prog globals) :
  agree m1 m2 ->
  (forall s1 s2, same_but_targets s1 s2 -> agree (k1 s1) (k2 s2)) ->
  agree (pbind m1 k1) (pbind m2 k2).
Proof.
  destruct m1 as [evs1 r1], m2 as [evs2 r2]. unfold agree, pbind. simpl.
  intros [-> Hends] Hk.
  destruct r1 as [s1| |], r2 as [s2| |]; simpl; try contradiction; auto.
  destruct (Hk _ _ Hends) as [Hevs Hout]. split; [now rewrite Hevs | exact Hout].
Qed.

Lemma for_each_agree {A : Type} (body : A -> globals -> prog globals) (l : list A) :
  (forall x s1 s2, same_but_targets s1 s2 -> agree (body x s1) (body x s2)) ->
  forall s1 s2, same_but_targets s1 s2 ->
                agree (for_each l body s1) (for_each l body s2).
Proof.
  intros Hbody. induction l as [|x l IH]; intros s1 s2 Hsame; simpl.
  - split; [reflexivity | exact Hsame].
  - apply pbind_agree; [now apply Hbody | exact IH].
Qed.

Lemma index_same_length {A : Type} (l1 l2 : list A) (i : nat) :
  length l1 = length l2 ->
  match index l1 i, index l2 i with
  | Ok _, Ok _ => True
  | Raise e1, Raise e2 => e1 = e2
  | _, _ => False
  end.
Proof.
  intros Hlen. unfold index.
  destruct (nth_error l1 i) eqn:H1, (nth_error l2 i) eqn:H2; auto.
  - apply nth_error_None in H2.
    assert (Hlt : (i < length l1)%nat) by (apply nth_error_Some; congruence). lia.
  - apply nth_error_None in H1.
    assert (Hlt : (i < length l2)%nat) by (apply nth_error_Some; congruence). lia.
Qed.

Lemma ask_population_agree (a : args) (s1 s2 : globals) :
  same_but_targets s1 s2 -> agree (ask_population a s1) (ask_population a s2).
Proof.
  intros (ts & Hlen & ->). destruct s1. simpl in *.
  unfold pbind, lift, ret.
  destruct (ask (pop_size a) es0 gen0) as [[ps g']| |]; split; simpl; auto.
  exists ts. auto.
Qed.

Lemma rl_body_agree (a : args) (i : nat) (s1 s2 : globals) :
  same_but_targets s1 s2 ->
  agree (rl_body max_action fuel a i s1) (rl_body max_action fuel a i s2).
Proof.
  intros (ts & Hlen & ->). destruct s1. simpl in *.
  destruct (index actors0 i) as [net| |]; try (split; simpl; auto; fail).
  pose proof (index_same_length actors_t0 ts i (eq_sym Hlen)) as Hidx.
  destruct (index actors_t0 i) as [target1| |], (index ts i) as [target2| |];
    try contradiction; try (subst; split; simpl; auto; fail).
  unfold Actor_update.
  destruct (sample (batch_size a) mem0 gen0) as [[batch g1]| |];
    try (split; simpl; auto; fail).
  cbn [bind]. cbv beta iota zeta.
  destruct (Critic_update critic0 mem0 (batch_size a)
              (actor_optimize batch critic0 net) critic_t0 g1) as [[[c ct] g2]| |] eqn:Hcritic;
    unfold pbind, lift, emit, ret; simpl; rewrite Hcritic; simpl;
    try (split; simpl; auto; fail).
  destruct (evaluate_call max_action fuel a (actor_optimize batch critic0 net) mem0 env0 g2)
    as [[[[[f steps] m] env1] g3]| |]; split; simpl; auto.
  eexists. split; [|reflexivity]. simpl. now rewrite !length_assign.
Qed.

Lemma rl_phase_agree (a : args) (s1 s2 : globals) :
  same_but_targets s1 s2 ->
  agree (rl_phase max_action fuel a s1) (rl_phase max_action fuel a s2).
Proof.
  intros Hsame. unfold rl_phase.
  replace (total_steps s2) with (total_steps s1)
    by (destruct Hsame as (ts & _ & ->); now destruct s1).
  destruct (total_steps s1 >? start_steps a).
  - apply for_each_agree; [|exact Hsame]. intros i. apply rl_body_agree.
  - split; [reflexivity | exact Hsame].
Qed.

Lemma ea_body_agree (a : args) (p : params) (s1 s2 : globals) :
  same_but_targets s1 s2 ->
  agree (ea_body max_action fuel a p s1) (ea_body max_action fuel a p s2).
Proof.
  intros (ts & Hlen & ->). destruct s1. simpl in *.
  unfold pbind, lift, emit, ret.
  destruct (evaluate_call max_action fuel a (set_params p actor_ea0) mem0 env0 gen0)
    as [[[[[f steps] m] env1] g1]| |]; split; simpl; auto.
  exists ts. auto.
Qed.

Lemma ea_phase_agree (a : args) (s1 s2 : globals) :
  same_but_targets s1 s2 ->
  agree (ea_phase max_action fuel a s1) (ea_phase max_action fuel a s2).
Proof.
  intros (ts & Hlen & ->). destruct s1. simpl in *.
  apply pbind_agree.
  - apply for_each_agree; [intros p; apply ea_body_agree|]. exists ts. auto.
  - intros s1 s2 (ts' & Hlen' & ->). destruct s1. simpl in *.
    split; [reflexivity|]. exists ts'. auto.
Qed.

Lemma tell_engine_agree (s1 s2 : globals) :
  same_but_targets s1 s2 -> agree (tell_engine s1) (tell_engine s2).
Proof.
  intros (ts & Hlen & ->). destruct s1. unfold tell_engine. simpl in *.
  unfold combined_params, combined_fitness. simpl.
  unfold pbind, lift, emit, ret. simpl.
  destruct (tell _ _ es0) as [e'| |]; split; simpl; auto.
  exists ts. auto.
Qed.

Lemma save_stuff_agree (a : args) (s1 s2 : globals) :
  same_but_targets s1 s2 -> agree (save_stuff a s1) (save_stuff a s2).
Proof.
  intros (ts & Hlen & ->). destruct s1. unfold save_stuff. simpl in *.
  destruct (step_cpt0 >=? period a).
  - unfold combined_fitness. simpl.
    unfold pbind at 1 3. unfold emit at 1 3. simpl.
    destruct (np_max (fitness_ea0 ++ fitness_rl0)) as [best| |];
      try (split; simpl; auto; fail).
    unfold pbind at 1 4. unfold lift. simpl.
    unfold pbind at 1 4. unfold emit at 1 3. simpl.
    destruct (for_each (seq 0 (Z.to_nat (n_grad a))) (save_actor total_steps0 actors0) tt)
      as [evs [u| |]] eqn:Hsaved; unfold pbind, emit, ret; simpl; rewrite ?Hsaved; simpl;
      split; simpl; auto.
    exists ts. auto.
  - split; [reflexivity|]. exists ts. auto.
Qed.

Lemma generation_agree (a : args) (s1 s2 : globals) :
  same_but_targets s1 s2 ->
  agree (generation max_action fuel a s1) (generation max_action fuel a s2).
Proof.
  intros Hsame. unfold generation.
  apply pbind_agree; [now apply ask_population_agree|]. clear. intros s1 s2 Hsame.
  apply pbind_agree; [now apply rl_phase_agree|]. clear. intros s1 s2 Hsame.
  apply pbind_agree; [now apply ea_phase_agree|]. clear. intros s1 s2 Hsame.
  apply pbind_agree; [now apply tell_engine_agree|]. clear. intros s1 s2 Hsame.
  now apply save_stuff_agree.
Qed.

Lemma train_agree (a : args) (gens : nat) : forall s1 s2,
  same_but_targets s1 s2 ->
  agree (train max_action fuel gens a s1) (train max_action fuel gens a s2).
Proof.
  induction gens as [|gens IH]; intros s1 s2 Hsame; simpl;
    replace (total_steps s2) with (total_steps s1)
      by (destruct Hsame as (ts & _ & ->); now destruct s1);
    destruct (total_steps s1 <? max_steps a); try (split; simpl; auto; fail).
  apply pbind_agree; [now apply generation_agree | exact IH].
Qed.

Lemma agree_observable (p1 p2 : prog globals) :
  agree p1 p2 -> observable p1 = observable p2.
Proof.
  destruct p1 as [evs1 r1], p2 as [evs2 r2]. unfold agree, observable. simpl.
  intros [-> Hends].
  destruct r1 as [s1| |], r2 as [s2| |]; try contradiction; try congruence.
  destruct Hends as (ts & _ & ->). now destruct s1.
Qed.

(** X16.  The target actors are written and never read.  Start the run
    with any other list of as many target actors: the events of the run
    (updates, evaluations with their fitnesses and steps, what the engine
    is told, what is saved), its failure if it fails, and every global it
    ends with but [actors_t] itself are the same.  [critic.update] is
    handed [actors[i]], not [actors_t[i]]. *)
Theorem target_actors_never_read (gens : nat) (a : args) (st : globals)
    (ts : list actor_net) :
  length ts = length (actors_t st) ->
  observable (train max_action fuel gens a (with_targets ts st)) =
  observable (train max_action fuel gens a st).
Proof.
  intros Hlen. symmetry. apply agree_observable. apply train_agree.
  exists ts. auto.
Qed.

End TargetFacts.

(** The run on the short track, started with a target actor of weight 7
    for the gradient actor of weight 0. *)
Lemma target_actors_never_read_witness :
  observable (train 1 3 4 Toy.settings
                (@with_targets Toy.short_track Toy.buffer Toy.nets Toy.search
                   [(7%Q, 5%nat)] Toy.start)) =
  observable (train 1 3 4 Toy.settings Toy.start).
Proof.
  apply (@target_actors_never_read Toy.short_track Toy.buffer Toy.nets Toy.search
           1 3%nat 4%nat Toy.settings Toy.start [(7%Q, 5%nat)]).
  reflexivity.
Defined.

(** ** The training loop ends *)

Section LoopTermination.
Context {E : Environment} {Mem : Memory} {Net : Networks} {Eng : Engine} {TL : TimeLimit E}.

Variable max_action : Z.
Variable fuel : nat.
Variable a : args.

Lemma evaluate_call_total (net : actor_net) (m : memory) (env : sim) (g : rng) :
  (episode_fuel <= fuel)%nat ->
  exists f steps ts env' g',
    evaluate_call max_action fuel a net m env g = Ok (f, steps, fold_left add ts m, env', g').
Proof.
  intros Hfuel. rewrite evaluate_call_rollouts.
  destruct (rollouts_terminate max_action (forward net) false None (render_arg a) I
              (Z.to_nat (n_episodes a)) Hfuel env g) as (eps & env' & g' & Hrun).
  rewrite Hrun. simpl. eauto 10.
Qed.

Lemma samples_from_more (m : memory) (ts : list transition) :
  samples_from a m -> samples_from a (fold_left add ts m).
Proof.
  intros Hm ts' g. rewrite <- fold_left_app. apply Hm.
Qed.

Lemma for_each_total {A S : Type} (body : A -> S -> prog S) (P : A -> Prop)
    (I : S -> Prop) :
  (forall x s, P x -> I s -> exists evs s', body x s = (evs, Ok s') /\ I s') ->
  forall l, Forall P l ->
  forall s, I s -> exists evs s', for_each l body s = (evs, Ok s') /\ I s'.
Proof.
  intros Hbody. induction 1 as [|x l Hx _ IH]; intros s Hs; simpl.
  - exists [], s. auto.
  - destruct (Hbody x s Hx Hs) as (evs1 & s1 & Hrun1 & Hs1).
    destruct (IH s1 Hs1) as (evs2 & s2 & Hrun2 & Hs2).
    exists (evs1 ++ evs2), s2. split; [|exact Hs2].
    unfold pbind. rewrite Hrun1. simpl. now rewrite Hrun2.
Qed.

Lemma index_in_range {A : Type} (l : list A) (i : nat) :
  (i < length l)%nat -> exists x, index l i = Ok x.
Proof.
  intros Hi. unfold index. destruct (nth_error l i) as [x|] eqn:Hnth; [eauto|].
  apply nth_error_None in Hnth. lia.
Qed.

Lemma rl_body_total (i : nat) (st : globals) :
  (episode_fuel <= fuel)%nat ->
  (i < Z.to_nat (n_grad a))%nat -> ready a st ->
  exists evs st', rl_body max_action fuel a i st = (evs, Ok st') /\ ready a st'.
Proof.
  intros Hfuel Hi [[Hactors Htargets] Hsample]. destruct st. simpl in *.
  destruct (@index_in_range _ actors0 i) as (net & Hnet); [lia|].
  destruct (@index_in_range _ actors_t0 i) as (target & Htarget); [lia|].
  destruct (Hsample [] gen0) as (batch1 & g1 & Hbatch1). simpl in Hbatch1.
  destruct (Hsample [] g1) as (batch2 & g2 & Hbatch2). simpl in Hbatch2.
  destruct (evaluate_call_total (actor_optimize batch1 critic0 net) mem0 env0 g2 Hfuel)
    as (f & steps & ts & env1 & g3 & Hcall).
  unfold rl_body, Actor_update, Critic_update.
  rewrite Hnet, Htarget, Hbatch1. unfold pbind, lift, emit, ret. simpl.
  rewrite Hbatch2. simpl. rewrite Hcall. simpl.
  do 2 eexists. split; [reflexivity|].
  split; [split; simpl; now rewrite length_assign|].
  simpl. now apply samples_from_more.
Qed.

Lemma rl_phase_total (st : globals) :
  (episode_fuel <= fuel)%nat -> ready a st ->
  exists evs st', rl_phase max_action fuel a st = (evs, Ok st') /\ ready a st'.
Proof.
  intros Hfuel Hready. unfold rl_phase. destruct (total_steps st >? start_steps a).
  - apply for_each_total with (P := fun i => (i < Z.to_nat (n_grad a))%nat).
    + intros i s Hi Hs. now apply rl_body_total.
    + apply Forall_forall. intros i Hi. apply in_seq in Hi. lia.
    + exact Hready.
  - exists [], st. auto.
Qed.

Lemma ea_body_total (p : params) (st : globals) :
  (episode_fuel <= fuel)%nat -> ready a st ->
  exists evs st', ea_body max_action fuel a p st = (evs, Ok st') /\ ready a st'.
Proof.
  intros Hfuel [[Hactors Htargets] Hsample]. destruct st. simpl in *.
  destruct (evaluate_call_total (set_params p actor_ea0) mem0 env0 gen0 Hfuel)
    as (f & steps & ts & env1 & g1 & Hcall).
  unfold ea_body. rewrite Hcall. unfold pbind, lift, emit, ret. simpl.
  do 2 eexists. split; [reflexivity|].
  split; [split; assumption|]. simpl. now apply samples_from_more.
Qed.

Lemma ea_loop_total (l : list params) (st : globals) :
  (episode_fuel <= fuel)%nat -> ready a st ->
  exists evs st', for_each l (ea_body max_action fuel a) st = (evs, Ok st') /\ ready a st'.
Proof.
  intros Hfuel Hready. apply for_each_total with (P := fun _ : params => True).
  - intros p s _ Hs. now apply ea_body_total.
  - apply Forall_forall. auto.
  - exact Hready.
Qed.

Lemma ea_phase_total (st : globals) :
  (episode_fuel <= fuel)%nat -> ready a st ->
  exists evs st', ea_phase max_action fuel a st = (evs, Ok st') /\ ready a st'.
Proof.
  intros Hfuel Hready. destruct st. unfold ea_phase.
  match goal with
  | |- context [for_each ?l _ ?s] =>
      destruct (@ea_loop_total l s Hfuel) as (evs1 & st1 & Hloop & Hready1);
        [exact Hready|]
  end.
  rewrite Hloop. destruct st1. unfold pbind, ret. simpl.
  do 2 eexists. split; [reflexivity|]. exact Hready1.
Qed.

Lemma ask_population_total (st : globals) :
  asks_some a -> ready a st ->
  exists st', ask_population a st = ([], Ok st') /\ ready a st' /\ ea_params st' <> [].
Proof.
  intros Hask Hready. destruct st. simpl in *.
  destruct (Hask es0 gen0) as (ps & g' & Hasked & Hsome).
  rewrite Hasked. unfold pbind, lift, ret. simpl.
  eexists. split; [reflexivity|]. split; [exact Hready | exact Hsome].
Qed.

Lemma tell_engine_total (st : globals) :
  tell_accepts -> length (combined_params st) = length (combined_fitness st) ->
  ready a st ->
  exists evs st', tell_engine st = (evs, Ok st') /\ ready a st'.
Proof.
  intros Htell Hlen Hready. unfold tell_engine.
  destruct (Htell _ _ (es st) Hlen) as (e' & Htold).
  destruct st. simpl in *. rewrite Htold. unfold pbind, lift, emit, ret. simpl.
  do 2 eexists. split; [reflexivity|]. exact Hready.
Qed.

Lemma np_max_nonempty (l : list npfloat) : l <> [] -> exists best, np_max l = Ok best.
Proof.
  destruct l as [|x l]; [congruence|]. intros _. unfold np_max.
  destruct (finite_values (x :: l)) as [[|q qs]|] eqn:Hfin; eauto.
  simpl in Hfin. destruct x; [|discriminate].
  destruct (finite_values l); discriminate.
Qed.

Lemma save_actor_total (dir : Z) (nets : list actor_net) (l : list nat) :
  Forall (fun i => (i < length nets)%nat) l ->
  exists evs, for_each l (save_actor dir nets) tt = (evs, Ok tt).
Proof.
  intros Hl.
  assert (Hbody : forall i (u : unit), (i < length nets)%nat -> u = tt ->
            exists evs u', save_actor dir nets i u = (evs, Ok u') /\ u' = tt).
  { intros i u Hi ->. destruct (@index_in_range _ nets i Hi) as (net & Hnet).
    unfold save_actor. rewrite Hnet. unfold pbind, lift, emit. simpl. eauto. }
  destruct (@for_each_total nat unit (save_actor dir nets) (fun i => (i < length nets)%nat)
              (fun u => u = tt) Hbody l Hl tt eq_refl) as (evs & u & Hrun & ->).
  eauto.
Qed.

Lemma save_stuff_total (st : globals) :
  combined_fitness st <> [] -> ready a st ->
  exists evs st', save_stuff a st = (evs, Ok st') /\ ready a st'.
Proof.
  intros Hsome Hready. unfold save_stuff.
  destruct (step_cpt st >=? period a); [|exists [], st; auto].
  destruct (np_max_nonempty Hsome) as (best & Hbest).
  destruct Hready as [[Hactors Htargets] Hsample].
  destruct (save_actor_total (total_steps st) (actors st) (l := seq 0 (Z.to_nat (n_grad a))))
    as (evs & Hsaved).
  { apply Forall_forall. intros i Hi. apply in_seq in Hi. lia. }
  destruct st. simpl in *. rewrite Hbest, Hsaved. unfold pbind, lift, emit, ret. simpl.
  do 2 eexists. split; [reflexivity|]. split; [split; assumption | exact Hsample].
Qed.

Lemma generation_total (st : globals) :
  (episode_fuel <= fuel)%nat -> asks_some a -> tell_accepts -> ready a st ->
  exists evs st', generation max_action fuel a st = (evs, Ok st') /\ ready a st'.
Proof.
  intros Hfuel Hask Htell Hready.
  destruct (ask_population_total Hask Hready) as (st1 & Hrun1 & Hready1 & Hsome).
  destruct (rl_phase_total Hfuel Hready1) as (evs2 & st2 & Hrun2 & Hready2).
  destruct (ea_phase_total Hfuel Hready2) as (evs3 & st3 & Hrun3 & Hready3).
  pose proof (ask_population_Ok _ _ Hrun1) as (_ & _ & Hfr1 & Hfe1 & Hrp1 & _).
  pose proof (rl_phase_Ok _ _ _ _ Hrun2) as ((_ & _ & _ & _ & Hea2 & _) & Hrp2 & Hfr2 & Hfe2 & _).
  pose proof (ea_phase_Ok _ _ _ _ Hrun3)
    as (_ & _ & _ & _ & _ & Hea3 & Hrp3 & Hfr3 & Hfe3 & Hcand & _).
  assert (Hrl : length (rl_params st3) = length (fitness_rl st3)).
  { rewrite Hrp3, Hfr3, Hrp2, Hfr2, Hrp1, Hfr1. simpl. now rewrite !length_map. }
  assert (Hea : length (ea_params st3) = length (fitness_ea st3)).
  { rewrite Hfe3, Hfe2, Hfe1, Hea3. simpl. rewrite <- Hcand. now rewrite !length_map. }
  assert (Hlen : length (combined_params st3) = length (combined_fitness st3)).
  { unfold combined_params, combined_fitness.
    destruct (length (rl_params st3) =? 0)%nat eqn:Hzero; rewrite !length_app.
    - apply Nat.eqb_eq in Hzero. lia.
    - lia. }
  destruct (tell_engine_total Htell Hlen Hready3) as (evs4 & st4 & Hrun4 & Hready4).
  assert (Hfit : combined_fitness st4 <> []).
  { pose proof (tell_engine_Ok _ Hrun4) as (_ & _ & _ & _ & Hfe4 & Hfr4).
    unfold combined_fitness. rewrite Hfe4.
    destruct (fitness_ea st3); [|discriminate].
    rewrite Hea3, Hea2 in Hea. destruct (ea_params st1); [congruence | discriminate]. }
  destruct (save_stuff_total Hfit Hready4) as (evs5 & st5 & Hrun5 & Hready5).
  exists ([] ++ evs2 ++ evs3 ++ evs4 ++ evs5), st5. split; [|exact Hready5].
  unfold generation, pbind.
  rewrite Hrun1. simpl. rewrite Hrun2. simpl. rewrite Hrun3. simpl.
  rewrite Hrun4. simpl. rewrite Hrun5. reflexivity.
Qed.

Lemma train_total (gens : nat) : forall st,
  (episode_fuel <= fuel)%nat -> 1 <= n_episodes a -> asks_some a -> tell_accepts ->
  ready a st ->
  (Z.to_nat (max_steps a - total_steps st) <= gens)%nat ->
  exists evs st',
    train max_action fuel gens a st = (evs, Ok st') /\ max_steps a <= total_steps st'.
Proof.
  induction gens as [|gens IH]; intros st Hfuel Hn Hask Htell Hready Hgens; simpl;
    destruct (Z.ltb_spec (total_steps st) (max_steps a)) as [Hlt|Hge];
    try (exists [], st; split; [reflexivity | lia]); [lia|].
  destruct (generation_total Hfuel Hask Htell Hready) as (evs1 & st1 & Hrun1 & Hready1).
  assert (Hstep : total_steps st + 1 <= total_steps st1).
  { eapply generation_one_step; [|exact Hn|exact Hrun1].
    intros e g ps g' Hasked. destruct (Hask e g) as (ps0 & g0 & Hasked0 & Hsome).
    congruence. }
  destruct (IH st1 Hfuel Hn Hask Htell Hready1) as (evs2 & st2 & Hrun2 & Hend); [lia|].
  exists (evs1 ++ evs2), st2. split; [|exact Hend].
  unfold pbind. rewrite Hrun1. simpl. now rewrite Hrun2.
Qed.

(** X17.  The training loop ends.  On an environment that keeps the time
    limit, with an engine that returns at least one candidate and accepts
    what it is told, a buffer that can be sampled, [n_grad] actors in each
    list and at least one episode per evaluation, the run ends without an
    exception after at most [max_steps - total_steps] generations, with
    [total_steps] at [max_steps] or beyond.  There is to be a gradient
    actor: line 332 prints the fitness [f] of the last one, which no
    statement has assigned if the first generation is past warm-up and
    [n_grad] is 0. *)
Theorem training_ends (gens : nat) (st : globals) :
  (episode_fuel <= fuel)%nat ->
  1 <= n_episodes a ->
  1 <= n_grad a ->
  asks_some a ->
  tell_accepts ->
  samples_from a (mem st) ->
  enough_actors a st ->
  (Z.to_nat (max_steps a - total_steps st) <= gens)%nat ->
  exists evs st',
    train max_action fuel gens a st = (evs, Ok st') /\
    max_steps a <= total_steps st' /\
    follows max_action fuel a st st'.
Proof.
  intros Hfuel Hn _ Hask Htell Hsample Hactors Hgens.
  destruct (train_total Hfuel Hn Hask Htell (conj Hactors Hsample) Hgens)
    as (evs & st' & Hrun & Hend).
  exists evs, st'. split; [exact Hrun|]. split; [exact Hend|].
  now apply train_follows in Hrun.
Qed.

End LoopTermination.

(** The lenient buffer of the short track keeps what it holds. *)
Lemma toy_buffer_grows (ts : list (@transition Toy.short_track)) :
  forall m : @memory Toy.short_track Toy.buffer,
    fold_left (@add Toy.short_track Toy.buffer) ts m = m ++ ts.
Proof.
  induction ts as [|t ts IH]; intros m; simpl.
  - now rewrite app_nil_r.
  - rewrite IH. now rewrite <- app_assoc.
Qed.

(** The run on the short track from the globals after the first
    generation: four steps are counted, ten are asked for, six generations
    are enough. *)
Lemma training_ends_witness :
  exists evs st',
    train 1 3 6 Toy.settings Toy.warmed = (evs, Ok st') /\
    max_steps Toy.settings <= total_steps st' /\
    follows 1 3 Toy.settings Toy.warmed st'.
Proof.
  apply (@training_ends Toy.short_track Toy.buffer Toy.nets Toy.search
           (Toy.track_time_limit 3 [(-1)%Q] [1%Q]) 1 3%nat Toy.settings 6%nat Toy.warmed).
  - unfold episode_fuel. simpl. lia.
  - simpl. lia.
  - simpl. lia.
  - intros e g. simpl. eexists _, _. split; [reflexivity | discriminate].
  - intros ps fs e Hlen. cbn.
    destruct (_ =? _)%nat eqn:Hsame; [eauto|].
    apply Nat.eqb_neq in Hsame. contradiction.
  - intros ts g. rewrite toy_buffer_grows. simpl. eauto.
  - split; simpl; lia.
  - simpl. lia.
Defined.

(** ** No exploration noise in the training loop *)

Section NoiseFacts.
Context {E : Environment} {Mem : Memory} {Net : Networks} {Eng : Engine}.

Variable max_action : Z.
Variable fuel : nat.

Lemma grown_by_refl (P : transition -> Prop) (m : memory) : grown_by P m m.
Proof.
  exists []. split; [reflexivity | constructor].
Qed.

Lemma grown_by_trans (P : transition -> Prop) (m1 m2 m3 : memory) :
  grown_by P m1 m2 -> grown_by P m2 m3 -> grown_by P m1 m3.
Proof.
  intros (ts1 & -> & Hts1) (ts2 & -> & Hts2). exists (ts1 ++ ts2).
  split; [now rewrite fold_left_app | now apply Forall_app].
Qed.

Lemma recorded_actions (P : observation -> action -> Prop) (l : list env_step) :
  Forall (fun s => P (at_obs s) (taken s)) l ->
  forall steps, Forall (fun t => P (observed t) (action_of t)) (recorded steps l).
Proof.
  induction 1 as [|s l Hs _ IH]; intros steps; simpl; constructor; auto.
Qed.

Lemma evaluate_call_noise_free (a : args) (net : actor_net) (m : memory) (env : sim)
    (g : rng) f steps m' env' g' :
  evaluate_call max_action fuel a net m env g = Ok (f, steps, m', env', g') ->
  grown_by (noise_free max_action) m m'.
Proof.
  rewrite evaluate_call_rollouts. intros Hret.
  apply bind_Ok_inv in Hret. destruct Hret as [[[eps env1] g1] [Hruns Hret]].
  injection Hret as _ _ <- _ _.
  exists (recorded 0 (concat eps)). split; [reflexivity|].
  apply rollouts_actions in Hruns.
  apply (recorded_actions
           (fun obs act => exists net0,
                act = np_clip (forward net0 obs) (inject_Z (- max_action))
                        (inject_Z max_action))).
  eapply Forall_impl; [|exact Hruns].
  intros s (raw & Hclip & Hraw). simpl in Hraw. subst raw. exists net. exact Hclip.
Qed.

Lemma ea_body_noise_free (a : args) (p : params) (st : globals) evs st' :
  ea_body max_action fuel a p st = (evs, Ok st') ->
  grown_by (noise_free max_action) (mem st) (mem st').
Proof.
  destruct st. unfold ea_body. intros Hrun.
  apply pbind_lift_Ok_inv in Hrun.
  destruct Hrun as ([[[[f steps] m] env1] g1] & Hcall & Hrun).
  apply pbind_emit_Ok_inv in Hrun. destruct Hrun as (evs' & Hrun & ->).
  unfold ret in Hrun. injection Hrun as _ <-. simpl.
  eapply evaluate_call_noise_free; eauto.
Qed.

Lemma rl_body_noise_free (a : args) (i : nat) (st : globals) evs st' :
  rl_body max_action fuel a i st = (evs, Ok st') ->
  grown_by (noise_free max_action) (mem st) (mem st').
Proof.
  destruct st. unfold rl_body. intros Hrun.
  apply pbind_lift_Ok_inv in Hrun. destruct Hrun as (net & _ & Hrun).
  apply pbind_lift_Ok_inv in Hrun. destruct Hrun as (target & _ & Hrun).
  apply pbind_lift_Ok_inv in Hrun. destruct Hrun as ([[net' target'] g1] & _ & Hrun).
  apply pbind_emit_Ok_inv in Hrun. destruct Hrun as (evs1 & Hrun & ->).
  apply pbind_lift_Ok_inv in Hrun. destruct Hrun as ([[c ct] g2] & _ & Hrun).
  apply pbind_emit_Ok_inv in Hrun. destruct Hrun as (evs2 & Hrun & ->).
  apply pbind_lift_Ok_inv in Hrun.
  destruct Hrun as ([[[[f steps] m] env1] g3] & Hcall & Hrun).
  apply pbind_emit_Ok_inv in Hrun. destruct Hrun as (evs3 & Hrun & ->).
  unfold ret in Hrun. injection Hrun as _ <-. simpl.
  eapply evaluate_call_noise_free; eauto.
Qed.

Lemma for_each_grows {A : Type} (P : transition -> Prop)
    (body : A -> globals -> prog globals) :
  (forall x s evs s', body x s = (evs, Ok s') -> grown_by P (mem s) (mem s')) ->
  forall l s evs s',
    for_each l body s = (evs, Ok s') -> grown_by P (mem s) (mem s').
Proof.
  intros Hbody. induction l as [|x l IH]; intros s evs s' Hrun; simpl in Hrun.
  - unfold ret in Hrun. injection Hrun as _ <-. apply grown_by_refl.
  - apply pbind_Ok_inv in Hrun. destruct Hrun as (evs1 & s1 & evs2 & Hx & Hrest & _).
    eapply grown_by_trans; eauto.
Qed.

Lemma generation_noise_free (a : args) (st : globals) evs st' :
  generation max_action fuel a st = (evs, Ok st') ->
  grown_by (noise_free max_action) (mem st) (mem st').
Proof.
  intros Hrun. apply generation_Ok in Hrun.
  destruct Hrun as (evs1 & st1 & evs2 & st2 & evs3 & st3 & evs4 & st4 & evs5
                    & Hask & Hrl & Hea & Htell & Hsave & _).
  apply ask_population_Ok in Hask.
  destruct Hask as (_ & _ & _ & _ & _ & _ & _ & _ & Hm1).
  apply tell_engine_Ok in Htell. destruct Htell as (_ & _ & _ & Hm4 & _).
  apply save_stuff_Ok in Hsave. destruct Hsave as (_ & Hm5).
  rewrite Hm5, Hm4, <- Hm1.
  apply grown_by_trans with (m2 := mem st2).
  - unfold rl_phase in Hrl. destruct (total_steps st1 >? start_steps a).
    + eapply for_each_grows; [|exact Hrl]. intros i. apply rl_body_noise_free.
    + unfold ret in Hrl. injection Hrl as _ <-. apply grown_by_refl.
  - destruct st2. unfold ea_phase in Hea.
    apply pbind_Ok_inv in Hea. destruct Hea as (evs6 & s & evs7 & Hloop & Hrest & _).
    apply for_each_grows with (P := noise_free max_action) in Hloop;
      [|intros p; apply ea_body_noise_free].
    destruct s. unfold ret in Hrest. injection Hrest as _ <-. exact Hloop.
Qed.

(** X18.  No exploration noise reaches the replay buffer.  The Gaussian
    noise of line 284 is never passed on: both calls of [evaluate] in the
    loop leave [noise] at [None].  So whatever the generations a run goes
    through, the buffer it ends with is the buffer it started with
    followed by transitions whose action is exactly the clipped answer of
    a network to the observation of the transition. *)
Theorem buffer_gets_no_noise (a : args) (st st' : globals) :
  follows max_action fuel a st st' ->
  exists ts,
    mem st' = fold_left add ts (mem st) /\
    Forall (noise_free max_action) ts.
Proof.
  induction 1 as [st|st evs st1 st' _ Hgen _ IH].
  - apply grown_by_refl.
  - apply generation_noise_free in Hgen. exact (grown_by_trans Hgen IH).
Qed.

End NoiseFacts.

(** The two generations from [Toy.start]: eight transitions, the actions
    of which are the weights of the evaluated networks, clipped. *)
Lemma buffer_gets_no_noise_witness :
  exists ts : list (@transition Toy.short_track),
    mem Toy.checkpointed = fold_left (@add Toy.short_track Toy.buffer) ts (mem Toy.start) /\
    Forall (@noise_free Toy.short_track Toy.buffer Toy.nets 1) ts.
Proof.
  apply (@buffer_gets_no_noise Toy.short_track Toy.buffer Toy.nets Toy.search
           1 3%nat Toy.settings Toy.start Toy.checkpointed).
  eapply follows_pass; [reflexivity | reflexivity |].
  eapply follows_pass; [reflexivity | reflexivity |].
  apply follows_here.
Defined.

(** ** The gradient actors are trained, never replaced *)

Section LineageFacts.
Context {E : Environment} {Mem : Memory} {Net : Networks} {Eng : Engine}.

Variable max_action : Z.
Variable fuel : nat.

Lemma trained_from_trans (n1 n2 n3 : actor_net) :
  trained_from n1 n2 -> trained_from n2 n3 -> trained_from n1 n3.
Proof.
  intros H12 H23. induction H23 as [|net' batch c _ IH]; [exact H12|].
  now apply trained_more.
Qed.

Lemma all_trained_refl (l : list actor_net) : Forall2 trained_from l l.
Proof.
  induction l; constructor; auto using trained_none.
Qed.

Lemma all_trained_trans (l1 l2 l3 : list actor_net) :
  Forall2 trained_from l1 l2 -> Forall2 trained_from l2 l3 -> Forall2 trained_from l1 l3.
Proof.
  intros H12. revert l3. induction H12 as [|x y l1 l2 Hxy _ IH]; intros l3 H23;
    inversion H23; subst; constructor; eauto using trained_from_trans.
Qed.

Lemma all_trained_assign (l : list actor_net) : forall i net batch c,
  nth_error l i = Some net ->
  Forall2 trained_from l (assign l i (actor_optimize batch c net)).
Proof.
  induction l as [|x l IH]; intros [|i] net batch c Hnth; simpl in *; try discriminate.
  - injection Hnth as ->. constructor; [|apply all_trained_refl].
    apply trained_more. apply trained_none.
  - constructor; [apply trained_none | now apply IH].
Qed.

Lemma rl_body_lineage (a : args) (i : nat) (st : globals) evs st' :
  rl_body max_action fuel a i st = (evs, Ok st') ->
  Forall2 trained_from (actors st) (actors st').
Proof.
  destruct st. unfold rl_body. intros Hrun.
  apply pbind_lift_Ok_inv in Hrun. destruct Hrun as (net & Hnet & Hrun).
  apply pbind_lift_Ok_inv in Hrun. destruct Hrun as (target & _ & Hrun).
  apply pbind_lift_Ok_inv in Hrun. destruct Hrun as ([[net' target'] g1] & Hupd & Hrun).
  apply pbind_emit_Ok_inv in Hrun. destruct Hrun as (evs1 & Hrun & ->).
  apply pbind_lift_Ok_inv in Hrun. destruct Hrun as ([[c ct] g2] & _ & Hrun).
  apply pbind_emit_Ok_inv in Hrun. destruct Hrun as (evs2 & Hrun & ->).
  apply pbind_lift_Ok_inv in Hrun.
  destruct Hrun as ([[[[f steps] m] env1] g3] & _ & Hrun).
  apply pbind_emit_Ok_inv in Hrun. destruct Hrun as (evs3 & Hrun & ->).
  unfold ret in Hrun. injection Hrun as _ <-. simpl.
  unfold Actor_update in Hupd. apply bind_Ok_inv in Hupd.
  destruct Hupd as ([batch g0] & _ & Hupd). injection Hupd as <- _ _.
  apply all_trained_assign.
  unfold index in Hnet. destruct (nth_error actors0 i); [congruence | discriminate].
Qed.

Lemma ea_body_actors (a : args) (p : params) (st : globals) evs st' :
  ea_body max_action fuel a p st = (evs, Ok st') -> actors st' = actors st.
Proof.
  destruct st. unfold ea_body. intros Hrun.
  apply pbind_lift_Ok_inv in Hrun.
  destruct Hrun as ([[[[f steps] m] env1] g1] & _ & Hrun).
  apply pbind_emit_Ok_inv in Hrun. destruct Hrun as (evs' & Hrun & ->).
  unfold ret in Hrun. injection Hrun as _ <-. reflexivity.
Qed.

Lemma for_each_lineage {A : Type} (body : A -> globals -> prog globals) :
  (forall x s evs s', body x s = (evs, Ok s') ->
                      Forall2 trained_from (actors s) (actors s')) ->
  forall l s evs s',
    for_each l body s = (evs, Ok s') -> Forall2 trained_from (actors s) (actors s').
Proof.
  intros Hbody. induction l as [|x l IH]; intros s evs s' Hrun; simpl in Hrun.
  - unfold ret in Hrun. injection Hrun as _ <-. apply all_trained_refl.
  - apply pbind_Ok_inv in Hrun. destruct Hrun as (evs1 & s1 & evs2 & Hx & Hrest & _).
    eapply all_trained_trans; eauto.
Qed.

Lemma generation_lineage (a : args) (st : globals) evs st' :
  generation max_action fuel a st = (evs, Ok st') ->
  Forall2 trained_from (actors st) (actors st') /\
  (total_steps st <= start_steps a -> actors st' = actors st).
Proof.
  intros Hrun. apply generation_Ok in Hrun.
  destruct Hrun as (evs1 & st1 & evs2 & st2 & evs3 & st3 & evs4 & st4 & evs5
                    & Hask & Hrl & Hea & Htell & Hsave & _).
  assert (Ha1 : actors st1 = actors st /\ total_steps st1 = total_steps st).
  { destruct st. unfold ask_population in Hask.
    apply pbind_lift_Ok_inv in Hask. destruct Hask as ([ps g'] & _ & Hask).
    unfold ret in Hask. injection Hask as _ <-. auto. }
  destruct Ha1 as [Ha1 Ht1].
  assert (Ha3 : actors st3 = actors st2).
  { destruct st2. unfold ea_phase in Hea.
    apply pbind_Ok_inv in Hea. destruct Hea as (evs6 & s & evs7 & Hloop & Hrest & _).
    assert (Hsame : actors s = actors0).
    { change actors0 with
        (actors (Globals total_steps0 0 step_cpt0 df0 es0 critic0 critic_t0 actors0
                   actors_t0 actor_ea0 mem0 env0 gen0 fitness_rl0 fitness_ea0
                   rl_params0 ea_params0)).
      clear Hrest. revert Hloop.
      generalize (Globals total_steps0 0 step_cpt0 df0 es0 critic0 critic_t0 actors0
                    actors_t0 actor_ea0 mem0 env0 gen0 fitness_rl0 fitness_ea0
                    rl_params0 ea_params0).
      generalize evs6. clear.
      induction ea_params0 as [|p l IH]; intros evs s0 Hloop; simpl in Hloop.
      - unfold ret in Hloop. now injection Hloop as _ <-.
      - apply pbind_Ok_inv in Hloop.
        destruct Hloop as (evs1 & s1 & evs2 & Hp & Hrest & _).
        apply ea_body_actors in Hp. rewrite <- Hp. eapply IH; eauto. }
    destruct s. unfold ret in Hrest. injection Hrest as _ <-. exact Hsame. }
  pose proof (tell_engine_told _ Htell) as (_ & _ & Ha4 & _).
  assert (Ha5 : actors st' = actors st4).
  { unfold save_stuff in Hsave. destruct (step_cpt st4 >=? period a).
    - destruct st4. cbv beta iota zeta in Hsave.
      apply pbind_emit_Ok_inv in Hsave. destruct Hsave as (e1 & Hsave & _).
      apply pbind_lift_Ok_inv in Hsave. destruct Hsave as (best & _ & Hsave).
      apply pbind_emit_Ok_inv in Hsave. destruct Hsave as (e2 & Hsave & _).
      apply pbind_Ok_inv in Hsave. destruct Hsave as (e3 & u & e4 & _ & Hsave & _).
      apply pbind_emit_Ok_inv in Hsave. destruct Hsave as (e5 & Hsave & _).
      unfold ret in Hsave. now injection Hsave as _ <-.
    - unfold ret in Hsave. now injection Hsave as _ <-. }
  rewrite Ha5, Ha4, Ha3, <- Ha1. split.
  - unfold rl_phase in Hrl. destruct (total_steps st1 >? start_steps a).
    + eapply for_each_lineage; [|exact Hrl]. intros i. apply rl_body_lineage.
    + unfold ret in Hrl. injection Hrl as _ <-. apply all_trained_refl.
  - intros Hwarm. rewrite rl_phase_warmup in Hrl by lia. now injection Hrl as _ <-.
Qed.

(** X19.  The gradient actors are trained and never replaced.  Nothing in
    the loop copies a candidate of the engine, or its mean, into
    [actors]: whatever the generations a run goes through, the list keeps
    its length and [actors[i]] at the end is [actors[i]] at the start
    after optimiser steps of [Actor.update] alone; during warm-up the list
    does not change at all. *)
Theorem gradient_actors_only_trained (a : args) (st st' : globals) :
  follows max_action fuel a st st' ->
  Forall2 trained_from (actors st) (actors st') /\
  (total_steps st' <= start_steps a -> actors st' = actors st).
Proof.
  induction 1 as [st|st evs st1 st' _ Hgen Hrest IH].
  - split; [apply all_trained_refl | reflexivity].
  - pose proof (follows_total_steps_grow Hrest) as Hgrow1.
    pose proof (generation_total_steps_grow _ _ _ _ Hgen) as Hgrow.
    apply generation_lineage in Hgen. destruct Hgen as [Hstep Hwarm].
    destruct IH as [Hlater Hwarm']. split.
    + eapply all_trained_trans; eauto.
    + intros Hstill. rewrite Hwarm' by lia. apply Hwarm. lia.
Qed.

End LineageFacts.

(** The two generations from [Toy.start]: the one gradient actor has taken
    one optimiser step. *)
Lemma gradient_actors_only_trained_witness :
  Forall2 (@trained_from Toy.short_track Toy.buffer Toy.nets)
          (actors Toy.start) (actors Toy.checkpointed) /\
  (total_steps Toy.checkpointed <= start_steps Toy.settings ->
   actors Toy.checkpointed = actors Toy.start).
Proof.
  apply (@gradient_actors_only_trained Toy.short_track Toy.buffer Toy.nets Toy.search
           1 3%nat Toy.settings Toy.start Toy.checkpointed).
  eapply follows_pass; [reflexivity | reflexivity |].
  eapply follows_pass; [reflexivity | reflexivity |].
  apply follows_here.
Defined.

(** ** The answer of an [Actor] is within the action bound *)

Lemma np_clip_inside (m : Z) (x : list Q) :
  clipped_to m x -> Forall2 Qeq (np_clip x (inject_Z (- m)) (inject_Z m)) x.
Proof.
  unfold clipped_to, np_clip. induction 1 as [|v x [Hlow Hhigh] _ IH]; simpl; constructor;
    [|exact IH].
  unfold minimum, maximum.
  destruct (Qle_bool v (inject_Z (- m))) eqn:Hv.
  - apply Qle_bool_iff in Hv.
    assert (Hsame : (inject_Z (- m) == v)%Q) by now apply Qle_antisym.
    destruct (Qle_bool (inject_Z m) (inject_Z (- m))) eqn:Hm; [|exact Hsame].
    apply Qle_bool_iff in Hm. apply Qle_antisym; [|exact Hhigh].
    rewrite <- Hsame. exact Hm.
  - destruct (Qle_bool (inject_Z m) v) eqn:Hm; [|reflexivity].
    apply Qle_bool_iff in Hm. now apply Qle_antisym.
Qed.

Lemma scaled_tanh_clipped (tanh : Q -> Q) (m : Z) (x : list Q) :
  (forall v, (-1 <= tanh v)%Q /\ (tanh v <= 1)%Q) ->
  0 <= m ->
  clipped_to m (map (fun v => inject_Z m * tanh v)%Q x).
Proof.
  intros Hrange Hm. unfold clipped_to. apply Forall_map, Forall_forall. intros v _.
  destruct (Hrange v) as [Hlow Hhigh].
  assert (HM : (0 <= inject_Z m)%Q) by (change 0%Q with (inject_Z 0); now rewrite <- Zle_Qle).
  split.
  - setoid_replace (inject_Z (- m)) with (-1 * inject_Z m)%Q
      by (rewrite inject_Z_opp; ring).
    setoid_replace (inject_Z m * tanh v)%Q with (tanh v * inject_Z m)%Q by ring.
    now apply Qmult_le_compat_r.
  - setoid_replace (inject_Z m) with (1 * inject_Z m)%Q at 2 by ring.
    setoid_replace (inject_Z m * tanh v)%Q with (tanh v * inject_Z m)%Q by ring.
    now apply Qmult_le_compat_r.
Qed.

(** X20.  The last layer of [Actor.forward] is [max_action * tanh], so
    with [max_action >= 0] every component of the answer lies in
    [-max_action, max_action], with or without layer normalisation, and
    the clip of [evaluate]'s policy changes nothing when no noise is
    added: the action executed is the answer of the network. *)
Theorem actor_answer_needs_no_clip {E : Environment}
    (l1 l2 l3 n1 n2 : list Q -> list Q) (tanh : Q -> Q) (layer_norm : bool)
    (max_action : Z) (flat : observation -> list Q) (obs : observation) (g : rng) :
  (forall v, (-1 <= tanh v)%Q /\ (tanh v <= 1)%Q) ->
  0 <= max_action ->
  clipped_to max_action
    (Actor_forward l1 l2 l3 n1 n2 tanh layer_norm max_action (flat obs)) /\
  exists a,
    policy max_action
      (fun s => Actor_forward l1 l2 l3 n1 n2 tanh layer_norm max_action (flat s))
      false None obs g = Ok (a, g) /\
    Forall2 Qeq a (Actor_forward l1 l2 l3 n1 n2 tanh layer_norm max_action (flat obs)).
Proof.
  intros Hrange Hm.
  assert (Hin : clipped_to max_action
                  (Actor_forward l1 l2 l3 n1 n2 tanh layer_norm max_action (flat obs))).
  { unfold Actor_forward. destruct layer_norm; simpl; now apply scaled_tanh_clipped. }
  split; [exact Hin|].
  eexists. split; [reflexivity|]. now apply np_clip_inside.
Qed.

Lemma hard_tanh_range (v : Q) : (-1 <= Toy.hard_tanh v)%Q /\ (Toy.hard_tanh v <= 1)%Q.
Proof.
  apply minimum_maximum_between. discriminate.
Qed.

(** On the short track, with layers that pass their input on and an
    action bound of 1: the observation 3 is answered with 1. *)
Lemma actor_answer_needs_no_clip_witness :
  clipped_to 1
    (Actor_forward (fun x => x) (fun x => x) (fun x => x) (fun x => x) (fun x => x)
       Toy.hard_tanh false 1 [3%Q]) /\
  exists a,
    policy (H := Toy.short_track) 1
      (fun s => Actor_forward (fun x => x) (fun x => x) (fun x => x) (fun x => x)
                  (fun x => x) Toy.hard_tanh false 1 [inject_Z s])
      false None 3 tt = Ok (a, tt) /\
    Forall2 Qeq a
      (Actor_forward (fun x => x) (fun x => x) (fun x => x) (fun x => x) (fun x => x)
         Toy.hard_tanh false 1 [3%Q]).
Proof.
  apply (@actor_answer_needs_no_clip Toy.short_track
           (fun x => x) (fun x => x) (fun x => x) (fun x => x) (fun x => x)
           Toy.hard_tanh false 1 (fun s => [inject_Z s]) 3 tt).
  - exact hard_tanh_range.
  - lia.
Defined.

(** ** The loop over the gradient actors, one actor at a time *)

Section UpdateFacts.
Context {E : Environment} {Mem : Memory} {Net : Networks} {Eng : Engine}.

Variable max_action : Z.
Variable fuel : nat.

Lemma pbind_ret_l {A B : Type} (x : A) (k : A -> prog B) : pbind (ret x) k = k x.
Proof.
  unfold pbind, ret. simpl. now destruct (k x).
Qed.

Lemma pbind_ret_r {A : Type} (m : prog A) : pbind m ret = m.
Proof.
  destruct m as [evs [x| |]]; unfold pbind, ret; simpl; now rewrite ?app_nil_r.
Qed.

Lemma pbind_assoc {A B C : Type} (m : prog A) (k1 : A -> prog B) (k2 : B -> prog C) :
  pbind (pbind m k1) k2 = pbind m (fun x => pbind (k1 x) k2).
Proof.
  destruct m as [evs [x| |]]; unfold pbind; simpl; try reflexivity.
  destruct (k1 x) as [evs1 [y| |]]; simpl; now rewrite ?app_assoc.
Qed.

Lemma pbind_ext {A B : Type} (m : prog A) (k1 k2 : A -> prog B) :
  (forall x, k1 x = k2 x) -> pbind m k1 = pbind m k2.
Proof.
  intros Hk. destruct m as [evs [x| |]]; unfold pbind; simpl; now rewrite ?Hk.
Qed.

Lemma for_each_app {A S : Type} (body : A -> S -> prog S) (l1 l2 : list A) : forall s,
  for_each (l1 ++ l2) body s = pbind (for_each l1 body s) (for_each l2 body).
Proof.
  induction l1 as [|x l1 IH]; intros s; simpl.
  - now rewrite pbind_ret_l.
  - rewrite pbind_assoc. apply pbind_ext. exact IH.
Qed.

(** What the body of the loop does for [actors[i]], by the answers of the
    two calls of [memory.sample] and of [evaluate]. *)
Lemma rl_body_cases (a : args) (i : nat) (s : globals) (net target : actor_net) :
  index (actors s) i = Ok net ->
  index (actors_t s) i = Ok target ->
  rl_body max_action fuel a i s =
  match sample (batch_size a) (mem s) (gen s) with
  | Raise e => ([], Raise e)
  | Hang => ([], Hang)
  | Ok (batch1, g2) =>
      let net' := actor_optimize batch1 (critic s) net in
      match sample (batch_size a) (mem s) g2 with
      | Raise e => ([ActorUpdate i], Raise e)
      | Hang => ([ActorUpdate i], Hang)
      | Ok (batch2, g3) =>
          let critic' := critic_optimize batch2 net' (critic_t s) (critic s) in
          match evaluate_call max_action fuel a net' (mem s) (env s) g3 with
          | Raise e => ([ActorUpdate i; CriticUpdate i], Raise e)
          | Hang => ([ActorUpdate i; CriticUpdate i], Hang)
          | Ok (f, steps, m', env', g4) =>
              ([ActorUpdate i; CriticUpdate i; Evaluated net' f steps],
               Ok (after_rl_body s i net' (actor_soft_update net' target)
                     critic' (critic_soft_update critic' (critic_t s))
                     f steps m' env' g4))
          end
      end
  end.
Proof.
  intros Hnet Htarget. destruct s. simpl in *.
  unfold rl_body. rewrite Hnet, Htarget. unfold Actor_update, Critic_update.
  destruct (sample (batch_size a) mem0 gen0) as [[batch1 g2]| |];
    unfold pbind, lift, emit, ret; simpl; try reflexivity.
  destruct (sample (batch_size a) mem0 g2) as [[batch2 g3]| |]; simpl; try reflexivity.
  destruct (evaluate_call max_action fuel a (actor_optimize batch1 critic0 net) mem0 env0 g3)
    as [[[[[f steps] m'] env'] g4]| |]; reflexivity.
Qed.

Lemma rl_body_Ok_cases (a : args) (i : nat) (s : globals) evs s' :
  rl_body max_action fuel a i s = (evs, Ok s') ->
  exists net target batch1 g2 batch2 g3 f steps m' env' g4,
    index (actors s) i = Ok net /\
    index (actors_t s) i = Ok target /\
    sample (batch_size a) (mem s) (gen s) = Ok (batch1, g2) /\
    sample (batch_size a) (mem s) g2 = Ok (batch2, g3) /\
    evaluate_call max_action fuel a (actor_optimize batch1 (critic s) net) (mem s) (env s) g3
      = Ok (f, steps, m', env', g4) /\
    evs = [ActorUpdate i; CriticUpdate i;
           Evaluated (actor_optimize batch1 (critic s) net) f steps] /\
    s' = after_rl_body s i (actor_optimize batch1 (critic s) net)
           (actor_soft_update (actor_optimize batch1 (critic s) net) target)
           (critic_optimize batch2 (actor_optimize batch1 (critic s) net)
              (critic_t s) (critic s))
           (critic_soft_update
              (critic_optimize batch2 (actor_optimize batch1 (critic s) net)
                 (critic_t s) (critic s))
              (critic_t s))
           f steps m' env' g4.
Proof.
  intros Hrun.
  assert (Hidx : exists net target,
             index (actors s) i = Ok net /\ index (actors_t s) i = Ok target).
  { pose proof Hrun as Hrun0. destruct s. unfold rl_body in Hrun0.
    apply pbind_lift_Ok_inv in Hrun0. destruct Hrun0 as (net & Hnet & Hrun0).
    apply pbind_lift_Ok_inv in Hrun0. destruct Hrun0 as (target & Htarget & _).
    eauto. }
  destruct Hidx as (net & target & Hnet & Htarget).
  rewrite (rl_body_cases a i s Hnet Htarget) in Hrun.
  destruct (sample (batch_size a) (mem s) (gen s)) as [[batch1 g2]| |] eqn:Hs1;
    try discriminate.
  cbv zeta in Hrun.
  destruct (sample (batch_size a) (mem s) g2) as [[batch2 g3]| |] eqn:Hs2;
    try discriminate.
  destruct (evaluate_call max_action fuel a (actor_optimize batch1 (critic s) net)
              (mem s) (env s) g3) as [[[[[f steps] m'] env'] g4]| |] eqn:Hcall;
    try discriminate.
  injection Hrun as <- <-.
  exists net, target, batch1, g2, batch2, g3, f, steps, m', env', g4.
  repeat split; assumption || reflexivity.
Qed.

End UpdateFacts.

(** ** What the step counters count *)

Section StepAccounts.
Context {E : Environment} {Mem : Memory} {Net : Networks} {Eng : Engine}.

Variable max_action : Z.
Variable fuel : nat.

Lemma rl_body_count (a : args) (i : nat) (s : globals) evs s' :
  rl_body max_action fuel a i s = (evs, Ok s') ->
  length (evaluations evs) = 1%nat /\ Z.max 0 (n_episodes a) <= rollout_steps evs.
Proof.
  intros Hrun. apply rl_body_Ok_cases in Hrun.
  destruct Hrun as (net & target & batch1 & g2 & batch2 & g3 & f & steps & m' & env' & g4
                    & _ & _ & _ & _ & Hcall & -> & _).
  apply evaluate_call_steps in Hcall. simpl. split; [reflexivity | lia].
Qed.

Lemma rl_loop_count (a : args) (l : list nat) (st : globals) evs st' :
  for_each l (rl_body max_action fuel a) st = (evs, Ok st') ->
  length (evaluations evs) = length l /\
  Z.of_nat (length l) * Z.max 0 (n_episodes a) <= rollout_steps evs.
Proof.
  intros Hrun.
  apply (for_each_invariant (rl_body max_action fuel a)
           (fun done evs _ =>
              length (evaluations evs) = length done /\
              Z.of_nat (length done) * Z.max 0 (n_episodes a) <= rollout_steps evs))
    with (l := l) (done := []) (evs := []) (s := st) (s' := st').
  - intros done i evs0 s evs' s' [Hcount Hsteps] Hbody.
    apply rl_body_count in Hbody. destruct Hbody as [Hone Hmore].
    rewrite evaluations_app, rollout_steps_app, !length_app, Hcount, Hone.
    simpl length. split; [reflexivity | lia].
  - simpl. split; [reflexivity | lia].
  - exact Hrun.
Qed.

(** X2.  What the step counters of a completed generation count.  The
    events of the generation are those of the loop over the gradient
    actors, then one evaluation per candidate that [es.ask] returned, in
    order, then events with no evaluation among them.  Past the warm-up
    threshold the first part holds [n_grad] evaluations, of at least
    [n_episodes] steps each.  [total_steps] grows by the steps of the
    candidates' evaluations: of the steps of all the rollouts of the
    generation, those of the gradient actors are left out. *)
Theorem step_counters_count_candidates (a : args) (st : globals) evs st' :
  generation max_action fuel a st = (evs, Ok st') ->
  exists ps g' evs_rl evs_ea rest,
    ask (pop_size a) (es st) (gen st) = Ok (ps, g') /\
    evs = evs_rl ++ evs_ea ++ rest /\
    none_of is_evaluated rest /\
    Forall (fun e => is_evaluated e = true) evs_ea /\
    map fst (evaluations evs_ea) = ps /\
    (if total_steps st >? start_steps a
     then length (evaluations evs_rl) = Z.to_nat (n_grad a) /\
          Z.of_nat (Z.to_nat (n_grad a)) * Z.max 0 (n_episodes a) <= rollout_steps evs_rl
     else evs_rl = []) /\
    total_steps st' = total_steps st + rollout_steps evs_ea /\
    total_steps st' = total_steps st + (rollout_steps evs - rollout_steps evs_rl).
Proof.
  intros Hrun. apply generation_Ok in Hrun.
  destruct Hrun as (evs1 & st1 & evs2 & st2 & evs3 & st3 & evs4 & st4 & evs5
                    & Hask & Hrl & Hea & Htell & Hsave & ->).
  pose proof (tell_engine_events st3) as Hk4. rewrite Htell in Hk4. simpl in Hk4.
  pose proof (save_stuff_events (fun e => is_evaluated e = false) a st4
                (fun _ => eq_refl) (fun _ _ => eq_refl) (fun _ _ _ => eq_refl)) as Hk5.
  rewrite Hsave in Hk5. simpl in Hk5.
  pose proof (ea_phase_events max_action fuel (fun e => is_evaluated e = true) a st2
                (fun _ _ _ => eq_refl)) as Hk3.
  rewrite Hea in Hk3. simpl in Hk3.
  apply ask_population_Ok in Hask.
  destruct Hask as (-> & (g' & Hasked) & _ & _ & _ & Ht1 & _).
  assert (Hrl' := Hrl).
  apply rl_phase_Ok in Hrl'. destruct Hrl' as ((Ht2 & _ & _ & _ & Hps2 & _) & _).
  apply ea_phase_Ok in Hea.
  destruct Hea as (Ht3 & _ & _ & _ & _ & _ & _ & _ & _ & Hcand & _).
  apply tell_engine_Ok in Htell. destruct Htell as (Ht4 & _).
  apply save_stuff_Ok in Hsave. destruct Hsave as (Ht5 & _).
  assert (Hrest : none_of is_evaluated (evs4 ++ evs5)).
  { apply Forall_app. split; [subst evs4; repeat constructor | exact Hk5]. }
  exists (ea_params st1), g', evs2, evs3, (evs4 ++ evs5).
  split; [exact Hasked|]. split; [reflexivity|]. split; [exact Hrest|].
  split; [exact Hk3|]. split; [congruence|]. split.
  { unfold rl_phase in Hrl. rewrite Ht1 in Hrl.
    destruct (total_steps st >? start_steps a).
    - apply rl_loop_count in Hrl. now rewrite length_seq in Hrl.
    - unfold ret in Hrl. now injection Hrl as <- _. }
  split; [lia|].
  pose proof (rollout_steps_none Hrest) as Hzero. rewrite rollout_steps_app in Hzero.
  simpl. rewrite !rollout_steps_app. lia.
Qed.

End StepAccounts.

(** The second generation on the short track: the three steps of the
    gradient actor's rollout are among the seven of the generation and
    not among the four that [total_steps] grows by. *)
Lemma step_counters_count_candidates_witness :
  exists ps g' evs_rl evs_ea rest,
    ask (Engine := Toy.search) (pop_size Toy.no_checkpoint) (es Toy.warmed)
      (gen Toy.warmed) = Ok (ps, g') /\
    fst (generation 1 3 Toy.no_checkpoint Toy.warmed) = evs_rl ++ evs_ea ++ rest /\
    none_of is_evaluated rest /\
    Forall (fun e => is_evaluated e = true) evs_ea /\
    map fst (evaluations evs_ea) = ps /\
    (length (evaluations evs_rl) = 1%nat /\ 1 * 1 <= rollout_steps evs_rl) /\
    8 = total_steps Toy.warmed + rollout_steps evs_ea /\
    8 = total_steps Toy.warmed + (7 - rollout_steps evs_rl).
Proof.
  apply (@step_counters_count_candidates Toy.short_track Toy.buffer Toy.nets Toy.search
           1 3%nat Toy.no_checkpoint Toy.warmed
           (fst (generation 1 3 Toy.no_checkpoint Toy.warmed))
           (match snd (generation 1 3 Toy.no_checkpoint Toy.warmed) with
            | Ok st => st
            | _ => Toy.warmed
            end)).
  reflexivity.
Defined.

(** ** Gradient updates and the size of the buffer *)

Section SamplingFacts.
Context {E : Environment} {Mem : Memory} {Net : Networks} {Eng : Engine}.

Variable max_action : Z.
Variable fuel : nat.

(** A generation past the warm-up threshold whose loop over the gradient
    actors has come to [actors[i]] goes on with the body of the loop for
    that actor. *)
Lemma generation_reaches (a : args) (st st1 : globals) (i : nat) (s : globals) evs0 :
  start_steps a < total_steps st ->
  ask_population a st = ([], Ok st1) ->
  (i < Z.to_nat (n_grad a))%nat ->
  for_each (seq 0 i) (rl_body max_action fuel a) st1 = (evs0, Ok s) ->
  exists k : globals -> prog globals,
    generation max_action fuel a st =
    pbind (evs0, Ok s) (fun s => pbind (rl_body max_action fuel a i s) k).
Proof.
  intros Hpast Hask Hi Hloop.
  pose proof (ask_population_Ok _ _ Hask) as (_ & _ & _ & _ & _ & Ht1 & _).
  unfold generation. rewrite Hask. change ([], Ok st1) with (ret st1).
  rewrite pbind_ret_l.
  unfold rl_phase. destruct (Z.gtb_spec (total_steps st1) (start_steps a)); [|lia].
  replace (seq 0 (Z.to_nat (n_grad a)))
    with (seq 0 i ++ i :: seq (S i) (Z.to_nat (n_grad a) - S i)).
  2:{ change (i :: seq (S i) (Z.to_nat (n_grad a) - S i))
        with (seq (0 + i) (S (Z.to_nat (n_grad a) - S i))).
      rewrite <- seq_app. f_equal. lia. }
  rewrite for_each_app, Hloop.
  eexists. rewrite pbind_assoc. apply pbind_ext. intros x. simpl for_each.
  apply pbind_assoc.
Qed.

Lemma train_raises (a : args) (st : globals) evs (e : exception) (gens : nat) :
  total_steps st < max_steps a ->
  generation max_action fuel a st = (evs, Raise e) ->
  train max_action fuel (S gens) a st = (evs, Raise e).
Proof.
  intros Hguard Hgen. simpl.
  destruct (Z.ltb_spec (total_steps st) (max_steps a)); [|lia].
  now rewrite Hgen.
Qed.

(** C4, as the code has it.  Nothing in the script looks at the size of
    the buffer.  In a generation of the run past the warm-up threshold,
    when the loop over the gradient actors comes to [actors[i]],
    [Actor.update] calls [memory.sample(batch_size)] on the buffer as it
    is, and then [Critic.update] does.  If either call raises, the
    generation ends with that exception and with the events so far, none
    of them a call of [es.tell], and so does the run.  If both answer,
    [actors[i]] becomes the optimiser's result on the first batch and the
    critic the optimiser's result on the second, the targets are softly
    updated, and the updated actor is evaluated. *)
Theorem update_not_gated_by_buffer (a : args) (st st1 : globals) (i : nat)
    (s : globals) (evs0 : list event) (net target : actor_net) :
  start_steps a < total_steps st ->
  total_steps st < max_steps a ->
  ask_population a st = ([], Ok st1) ->
  (i < Z.to_nat (n_grad a))%nat ->
  for_each (seq 0 i) (rl_body max_action fuel a) st1 = (evs0, Ok s) ->
  index (actors s) i = Ok net ->
  index (actors_t s) i = Ok target ->
  none_of is_told evs0 /\
  match sample (batch_size a) (mem s) (gen s) with
  | Raise e =>
      generation max_action fuel a st = (evs0, Raise e) /\
      forall gens, train max_action fuel (S gens) a st = (evs0, Raise e)
  | Hang => generation max_action fuel a st = (evs0, Hang)
  | Ok (batch1, g2) =>
      let net' := actor_optimize batch1 (critic s) net in
      match sample (batch_size a) (mem s) g2 with
      | Raise e =>
          generation max_action fuel a st = (evs0 ++ [ActorUpdate i], Raise e) /\
          forall gens,
            train max_action fuel (S gens) a st = (evs0 ++ [ActorUpdate i], Raise e)
      | Hang => generation max_action fuel a st = (evs0 ++ [ActorUpdate i], Hang)
      | Ok (batch2, g3) =>
          let critic' := critic_optimize batch2 net' (critic_t s) (critic s) in
          match evaluate_call max_action fuel a net' (mem s) (env s) g3 with
          | Raise e =>
              generation max_action fuel a st
                = (evs0 ++ [ActorUpdate i; CriticUpdate i], Raise e)
          | Hang =>
              generation max_action fuel a st
                = (evs0 ++ [ActorUpdate i; CriticUpdate i], Hang)
          | Ok (f, steps, m', env', g4) =>
              for_each (seq 0 (S i)) (rl_body max_action fuel a) st1
                = (evs0 ++ [ActorUpdate i; CriticUpdate i; Evaluated net' f steps],
                   Ok (after_rl_body s i net' (actor_soft_update net' target)
                         critic' (critic_soft_update critic' (critic_t s))
                         f steps m' env' g4)) /\
              exists evs r,
                generation max_action fuel a st
                  = (evs0 ++ [ActorUpdate i; CriticUpdate i; Evaluated net' f steps]
                       ++ evs, r)
          end
      end
  end.
Proof.
  intros Hpast Hguard Hask Hi Hloop Hnet Htarget.
  split.
  { assert (Hnone : Forall (fun e => is_told e = false)
                      (fst (for_each (seq 0 i) (rl_body max_action fuel a) st1))).
    { apply for_each_Forall. intros j s0. apply rl_body_events; intros; reflexivity. }
    rewrite Hloop in Hnone. exact Hnone. }
  destruct (generation_reaches a st Hpast Hask Hi Hloop) as (k & Hgen).
  assert (Hnext : for_each (seq 0 (S i)) (rl_body max_action fuel a) st1
                  = (evs0 ++ fst (rl_body max_action fuel a i s),
                     snd (rl_body max_action fuel a i s))).
  { rewrite seq_S, for_each_app, Hloop. simpl.
    transitivity (pbind (evs0, Ok s) (rl_body max_action fuel a i)); [|reflexivity].
    apply pbind_ext. intros x. apply (pbind_ret_r (rl_body max_action fuel a i x)). }
  change (pbind (evs0, Ok s) (fun s => pbind (rl_body max_action fuel a i s) k))
    with (evs0 ++ fst (pbind (rl_body max_action fuel a i s) k),
          snd (pbind (rl_body max_action fuel a i s) k)) in Hgen.
  rewrite (rl_body_cases max_action fuel a i s Hnet Htarget) in Hgen, Hnext.
  destruct (sample (batch_size a) (mem s) (gen s)) as [[batch1 g2]| |].
  - cbv zeta in *.
    destruct (sample (batch_size a) (mem s) g2) as [[batch2 g3]| |].
    + destruct (evaluate_call max_action fuel a (actor_optimize batch1 (critic s) net)
                  (mem s) (env s) g3) as [[[[[f steps] m'] env'] g4]| |].
      * split; [exact Hnext|].
        rewrite Hgen. unfold pbind at 1 2. simpl.
        match goal with
        | |- exists evs r, (_ ++ _ :: _ :: _ :: fst ?X, snd ?X) = _ =>
            exists (fst X), (snd X)
        end.
        reflexivity.
      * exact Hgen.
      * exact Hgen.
    + split; [exact Hgen|]. intros gens. now apply train_raises.
    + exact Hgen.
  - simpl in Hgen. rewrite app_nil_r in Hgen.
    split; [exact Hgen|]. intros gens. now apply train_raises.
  - simpl in Hgen. rewrite app_nil_r in Hgen. exact Hgen.
Qed.

End SamplingFacts.

(** The second generation on the short track, batch size 100 over a
    buffer of four transitions that draws with replacement: both calls of
    [memory.sample] answer, and the one gradient actor and the critic are
    updated. *)
Lemma update_not_gated_by_buffer_witness :
  none_of is_told (@nil (@event Toy.short_track Toy.buffer Toy.nets)) /\
  match sample (Memory := Toy.buffer) (batch_size Toy.default_batch)
          (mem Toy.asked) (gen Toy.asked) with
  | Raise e =>
      generation 1 3 Toy.default_batch Toy.warmed = ([], Raise e) /\
      forall gens, train 1 3 (S gens) Toy.default_batch Toy.warmed = ([], Raise e)
  | Hang => generation 1 3 Toy.default_batch Toy.warmed = ([], Hang)
  | Ok (batch1, g2) =>
      let net' := actor_optimize batch1 (critic Toy.asked) (0%Q, 0%nat) in
      match sample (Memory := Toy.buffer) (batch_size Toy.default_batch)
              (mem Toy.asked) g2 with
      | Raise e =>
          generation 1 3 Toy.default_batch Toy.warmed = ([] ++ [ActorUpdate 0], Raise e) /\
          forall gens,
            train 1 3 (S gens) Toy.default_batch Toy.warmed
              = ([] ++ [ActorUpdate 0], Raise e)
      | Hang => generation 1 3 Toy.default_batch Toy.warmed = ([] ++ [ActorUpdate 0], Hang)
      | Ok (batch2, g3) =>
          let critic' :=
            critic_optimize batch2 net' (critic_t Toy.asked) (critic Toy.asked) in
          match evaluate_call 1 3 Toy.default_batch net' (mem Toy.asked)
                  (env Toy.asked) g3 with
          | Raise e =>
              generation 1 3 Toy.default_batch Toy.warmed
                = ([] ++ [ActorUpdate 0; CriticUpdate 0], Raise e)
          | Hang =>
              generation 1 3 Toy.default_batch Toy.warmed
                = ([] ++ [ActorUpdate 0; CriticUpdate 0], Hang)
          | Ok (f, steps, m', env', g4) =>
              for_each (seq 0 1) (rl_body 1 3 Toy.default_batch) Toy.asked
                = ([] ++ [ActorUpdate 0; CriticUpdate 0; Evaluated net' f steps],
                   Ok (after_rl_body Toy.asked 0 net'
                         (actor_soft_update net' (0%Q, 0%nat))
                         critic' (critic_soft_update critic' (critic_t Toy.asked))
                         f steps m' env' g4)) /\
              exists evs r,
                generation 1 3 Toy.default_batch Toy.warmed
                  = ([] ++ [ActorUpdate 0; CriticUpdate 0; Evaluated net' f steps]
                       ++ evs, r)
          end
      end
  end.
Proof.
  apply (@update_not_gated_by_buffer Toy.short_track Toy.buffer Toy.nets Toy.search
           1 3%nat Toy.default_batch Toy.warmed Toy.asked 0%nat Toy.asked []
           (0%Q, 0%nat) (0%Q, 0%nat)).
  - simpl. lia.
  - simpl. lia.
  - reflexivity.
  - simpl. lia.
  - reflexivity.
  - reflexivity.
  - reflexivity.
Defined.

(** ** Warm-up and the gradient updates *)

Section WarmupFacts.
Context {E : Environment} {Mem : Memory} {Net : Networks} {Eng : Engine}.

Variable max_action : Z.
Variable fuel : nat.












End WarmupFacts.

Section WarmupThreshold.
Context {E : Environment} {Mem : Memory} {Net : Networks} {Eng : Engine} {TL : TimeLimit E}.

Variable max_action : Z.
Variable fuel : nat.


End WarmupThreshold.

